(** * pyafai: a shallow embedding of the agent framework

    The development follows the Python sources of the [pyafai] package
    ([core.py], [objects.py], [influence.py]).

    Numbers.  Python coordinates, angles and influence values are [int],
    [float] or [Fraction] values; they are embedded as exact rationals [Q]
    (so the arithmetic of the model is the arithmetic Python performs on
    [int] and [Fraction] operands, and the idealised one on [float]).  Grid
    sizes and list indices are Python [int]s and are embedded as [Z].
    What is proved of sums, differences and products in [Q] is therefore
    proved of exact arithmetic; module [binary64] repeats on IEEE 754
    floats the computations whose outcome rounding changes, and the results
    about it show where a run on floats departs from the exact model: a
    loop that does not end, an equation that holds up to the last bit only.
    An [OverflowError] of a float operation has no counterpart in [Q].

    Objects.  Python objects have identity and are shared between the
    world's lists, the grid's cell lists and the agents' [body] fields.  The
    model keeps a store from object identifiers to their attribute records
    and lets every container hold identifiers. *)

From Stdlib Require Import String QArith Qround Qminmax ZArith Bool List Lia Lqa.
From Stdlib Require PrimFloat.
From Equations Require Import Equations.
Import ListNotations.

Local Open Scope Q_scope.

(** ** Python numerics *)

Module Py.

(** [a < b] and [a <= b] as Python evaluates them, to a boolean. *)
Definition ltb (a b : Q) : bool := negb (Qle_bool b a).
Definition leb (a b : Q) : bool := Qle_bool a b.

Lemma ltb_lt a b : ltb a b = true <-> a < b.
Proof.
  unfold ltb. rewrite negb_true_iff. split; intro H.
  - apply Qnot_le_lt. intro Hle. apply Qle_bool_iff in Hle. congruence.
  - destruct (Qle_bool b a) eqn:E; [|reflexivity].
    apply Qle_bool_iff in E. exfalso. exact (Qlt_not_le _ _ H E).
Qed.

Lemma ltb_ge a b : ltb a b = false <-> b <= a.
Proof.
  unfold ltb. rewrite negb_false_iff. apply Qle_bool_iff.
Qed.

Lemma leb_le a b : leb a b = true <-> a <= b.
Proof. apply Qle_bool_iff. Qed.

Lemma ltb_true a b : a < b -> ltb a b = true.
Proof. exact (proj2 (ltb_lt a b)). Qed.

Lemma ltb_true_inv a b : ltb a b = true -> a < b.
Proof. exact (proj1 (ltb_lt a b)). Qed.

Lemma ltb_false a b : b <= a -> ltb a b = false.
Proof. exact (proj2 (ltb_ge a b)). Qed.

Lemma ltb_false_inv a b : ltb a b = false -> b <= a.
Proof. exact (proj1 (ltb_ge a b)). Qed.

Lemma leb_true a b : a <= b -> leb a b = true.
Proof. exact (proj2 (leb_le a b)). Qed.

Lemma leb_true_inv a b : leb a b = true -> a <= b.
Proof. exact (proj1 (leb_le a b)). Qed.

(** Python 3 [round(q)] with one argument: the nearest integer, ties going
    to the even neighbour. *)
Definition round (q : Q) : Z :=
  let f := Qfloor q in
  match Qcompare (q - inject_Z f) (1 # 2) with
  | Lt => f
  | Gt => (f + 1)%Z
  | Eq => if Z.even f then f else (f + 1)%Z
  end.

(** Python's [a % b] on integers; [None] stands for [ZeroDivisionError]. *)
Definition mod_ (a b : Z) : option Z :=
  if (b =? 0)%Z then None else Some (a mod b)%Z.

(** Python's [a // b] on numbers, truncated by [int]; [None] stands for
    [ZeroDivisionError]. *)
Definition floordiv (a b : Q) : option Z :=
  if Qeq_bool b 0 then None else Some (Qfloor (a / b)).

(** [max(a, b)]: the first argument unless the second is strictly larger. *)
Definition max (a b : Q) : Q := if ltb a b then b else a.

(** List indexing [l[i]]: a negative index counts from the end. *)
Definition index (len : nat) (i : Z) : option nat :=
  if (0 <=? i)%Z then
    if (i <? Z.of_nat len)%Z then Some (Z.to_nat i) else None
  else
    if (0 <=? i + Z.of_nat len)%Z then Some (Z.to_nat (i + Z.of_nat len)) else None.

Definition getitem {A} (l : list A) (i : Z) : option A :=
  match index (length l) i with
  | Some n => nth_error l n
  | None => None
  end.

Fixpoint set_nth {A} (l : list A) (n : nat) (v : A) : list A :=
  match l, n with
  | [], _ => []
  | _ :: t, O => v :: t
  | h :: t, S n' => h :: set_nth t n' v
  end.

(** [l[i] = v]; [None] stands for [IndexError]. *)
Definition setitem {A} (l : list A) (i : Z) (v : A) : option (list A) :=
  match index (length l) i with
  | Some n => Some (set_nth l n v)
  | None => None
  end.

(** [range(n)] *)
Definition range (n : Z) : list Z := map Z.of_nat (seq 0 (Z.to_nat n)).

(** [int(q)]: the integer part, rounded towards zero. *)
Definition int (q : Q) : Z := if Qle_bool 0 q then Qfloor q else Qceiling q.

(** A value that is [True], [False] or [None]: [Some b] is the [bool] and
    [None] is [None].  [truth] is its truth value, that of [None] being
    false. *)
Definition truth (v : option bool) : bool :=
  match v with
  | Some b => b
  | None => false
  end.

End Py.

(** ** Exceptions and effects

    Every operation is a state transformer that either returns or raises;
    a raised exception carries the state reached when it was raised, since
    the mutations made before it stay in place. *)

Inductive exn := IndexError | ValueError | AttributeError | ZeroDivisionError.

Inductive outcome (S : Type) :=
| Return (s : S)
| Raise (e : exn) (s : S).
Arguments Return {S} s.
Arguments Raise {S} e s.

Definition M (S : Type) := S -> outcome S.

Definition andThen {S} (f g : M S) : M S :=
  fun s => match f s with
           | Return s' => g s'
           | Raise e s' => Raise e s'
           end.

Notation "f ;; g" := (andThen f g) (at level 61, right associativity).

Definition pass {S} : M S := fun s => Return s.

(** [for a in l: body(a)] over a list that the body does not resize. *)
Fixpoint for_each {A S} (l : list A) (body : A -> M S) : M S :=
  match l with
  | [] => pass
  | a :: l' => body a ;; for_each l' body
  end.

(** The state an outcome ends in, and the exception it raised, if any. *)
Definition final {S} (r : outcome S) : S :=
  match r with Return s => s | Raise _ s => s end.

Definition raised {S} (r : outcome S) : option exn :=
  match r with Return _ => None | Raise e _ => Some e end.

(** [x in l] and [l.remove(x)] for lists of identifiers. *)
Definition contains (l : list nat) (v : nat) : bool := existsb (Nat.eqb v) l.

Fixpoint remove_first (v : nat) (l : list nat) : list nat :=
  match l with
  | [] => []
  | h :: t => if Nat.eqb v h then t else h :: remove_first v t
  end.

(** A test together with the proof of its result, for the loops below
    whose termination depends on it. *)
Definition inspect {A} (a : A) : {b : A | a = b} := exist _ a eq_refl.

(** The floor of a number decreases with every turn of the two loops that
    normalise an angle. *)
Lemma floor_shift q (z : Z) : Qfloor (q + inject_Z z) = (Qfloor q + z)%Z.
Proof.
  unfold Qfloor, Qplus, inject_Z. destruct q as [n d]. simpl.
  rewrite Pos.mul_1_r, Z.mul_1_r.
  rewrite Z.div_add by lia. reflexivity.
Qed.

Lemma floor_ge_360 value : 360 < value -> (360 <= Qfloor value)%Z.
Proof.
  intro e. apply Z.lt_succ_r. apply Z.lt_nge. intro Hle.
  pose proof (Qlt_floor value) as Hc.
  assert (H : inject_Z (Qfloor value + 1) <= inject_Z 360) by (rewrite <- Zle_Qle; lia).
  change (inject_Z 360) with 360 in H. lra.
Qed.

Lemma floor_neg value : value < 0 -> (Qfloor value < 0)%Z.
Proof.
  intro e. apply Z.lt_nge. intro Hle.
  pose proof (Qfloor_le value) as Hf.
  rewrite Zle_Qle in Hle. change (inject_Z 0) with 0 in Hle. lra.
Qed.

(** ** core.py *)

Module core.

Definition oid := nat.    (* identity of an [Object] *)
Definition aid := nat.    (* identity of an [Agent] *)
Definition pid := nat.    (* identity of a [Perception] *)
Definition actid := nat.  (* identity of an [Action] *)

(** *** class Object

    The drawing attributes ([_batch], [_shapes]) are left out. *)

Record Object := mkObject {
  x : Q;
  y : Q;
  _angle : Q;
  _is_body : bool;
  _agent : option aid;
  scale : Q
}.

Definition Object__init__ (x0 y0 angle : Q) : Object :=
  mkObject x0 y0 angle false None 1.

Definition set_x (v : Q) (o : Object) : Object :=
  mkObject v (y o) (_angle o) (_is_body o) (_agent o) (scale o).
Definition set_y (v : Q) (o : Object) : Object :=
  mkObject (x o) v (_angle o) (_is_body o) (_agent o) (scale o).
Definition set__angle (v : Q) (o : Object) : Object :=
  mkObject (x o) (y o) v (_is_body o) (_agent o) (scale o).

Definition is_body (o : Object) : bool := _is_body o.
Definition agent (o : Object) : option aid := _agent o.

(** [@agent.setter] *)
Definition agent_setter (agent : option aid) (o : Object) : Object :=
  match agent with
  | None => mkObject (x o) (y o) (_angle o) false None (scale o)
  | Some a => mkObject (x o) (y o) (_angle o) true (Some a) (scale o)
  end.

Definition move_to (x0 y0 : Q) (o : Object) : Object := set_y y0 (set_x x0 o).

Definition translate (tx ty : Q) (o : Object) : Object :=
  let o := set_x (x o + tx) o in set_y (y o + ty) o.

(** [while value > 360: value -= 360].  In exact arithmetic the loop ends,
    the floor of [value] going down by 360 at every pass; on floats it need
    not end, see [binary64.normalize_down]. *)
Equations? normalize_down (value : Q) : Q by wf (Z.to_nat (Qfloor value)) lt :=
  normalize_down value with inspect (Py.ltb 360 value) := {
    | exist _ true _ := normalize_down (value - 360);
    | exist _ false _ := value }.
Proof.
  apply Py.ltb_true_inv in e. apply floor_ge_360 in e.
  change (Z.to_nat (Qfloor (value + inject_Z (-360))) < Z.to_nat (Qfloor value))%nat.
  rewrite floor_shift. lia.
Qed.

(** [while value < 0: value += 360], which ends in exact arithmetic for
    the same reason. *)
Equations? normalize_up (value : Q) : Q by wf (Z.to_nat (- Qfloor value)) lt :=
  normalize_up value with inspect (Py.ltb value 0) := {
    | exist _ true _ := normalize_up (value + 360);
    | exist _ false _ := value }.
Proof.
  apply Py.ltb_true_inv in e. apply floor_neg in e.
  change (Z.to_nat (- Qfloor (value + inject_Z 360)) < Z.to_nat (- Qfloor value))%nat.
  rewrite floor_shift. lia.
Qed.

(** The two normalising loops of the [angle] setter. *)
Definition normalize (value : Q) : Q := normalize_up (normalize_down value).

Definition angle (o : Object) : Q := _angle o.

(** [@angle.setter] *)
Definition angle_setter (value : Q) (o : Object) : Object :=
  set__angle (normalize value) o.

Definition rotate (a : Q) (o : Object) : Object :=
  angle_setter (angle o + a) o.

(** *** class Agent

    [world] records whether the agent's [world] attribute is set; the
    perception table is kept by the simulation state below. *)

Record Agent := mkAgent {
  keep_body_on_death : bool;
  _body : option oid;
  world : bool;
  _dead : bool
}.

Definition Agent__init__ : Agent := mkAgent false None false false.

Definition set__body (v : option oid) (a : Agent) : Agent :=
  mkAgent (keep_body_on_death a) v (world a) (_dead a).
Definition set_world (v : bool) (a : Agent) : Agent :=
  mkAgent (keep_body_on_death a) (_body a) v (_dead a).
Definition set__dead (v : bool) (a : Agent) : Agent :=
  mkAgent (keep_body_on_death a) (_body a) (world a) v.

Definition is_dead (a : Agent) : bool := _dead a.

(** *** The object store

    [user] stands for whatever further attributes the subclasses written by
    the framework's users keep. *)

Record Heap (U : Type) := mkHeap {
  objs : oid -> Object;
  agts : aid -> Agent;
  user : U
}.
Arguments mkHeap {U}.
Arguments objs {U}.
Arguments agts {U}.
Arguments user {U}.

Definition upd {A} (f : nat -> A) (k : nat) (v : A) : nat -> A :=
  fun k' => if Nat.eqb k' k then v else f k'.

Definition set_obj {U} (o : oid) (v : Object) (h : Heap U) : Heap U :=
  mkHeap (upd (objs h) o v) (agts h) (user h).
Definition set_agt {U} (a : aid) (v : Agent) (h : Heap U) : Heap U :=
  mkHeap (objs h) (upd (agts h) a v) (user h).

(** [@body.setter] of [Agent] *)
Definition body_setter {U} (a : aid) (value : option oid) (h : Heap U) : Heap U :=
  let h := set_agt a (set__body value (agts h a)) h in
  match value with
  | Some b => set_obj b (agent_setter (Some a) (objs h b)) h
  | None => h
  end.

(** *** The simulation state

    One world and the objects it refers to.  [ext] holds the attributes a
    subclass of [World] adds; [_perceptions] is the perception table of every
    agent, in the order [dict.values()] yields it; [stdout] is what [print]
    has written; [calls] records every call made to a method that the
    framework's users override. *)

Inductive event :=
| Agent_update_called (a : aid) (delta : Q)
| Perception_update_called (p : pid) (a : aid)
| Agent__think_called (a : aid) (delta : Q)
| Action_execute_called (act : actid) (a : aid)
| Object_update_called (o : oid) (delta : Q).

Record World := mkWorld {
  _agents : list aid;
  _dead_agents : list aid;
  _objects : list oid;
  paused : bool
}.

Definition World__init__ : World := mkWorld [] [] [] true.

Definition set__agents (v : list aid) (w : World) : World :=
  mkWorld v (_dead_agents w) (_objects w) (paused w).
Definition set__dead_agents (v : list aid) (w : World) : World :=
  mkWorld (_agents w) v (_objects w) (paused w).
Definition set__objects (v : list oid) (w : World) : World :=
  mkWorld (_agents w) (_dead_agents w) v (paused w).
Definition set_paused (v : bool) (w : World) : World :=
  mkWorld (_agents w) (_dead_agents w) (_objects w) v.

Record State (U X : Type) := mkState {
  heap : Heap U;
  _perceptions : aid -> list (string * pid);
  self : World;
  ext : X;
  stdout : list string;
  calls : list event
}.
Arguments mkState {U X}.
Arguments heap {U X}.
Arguments _perceptions {U X}.
Arguments self {U X}.
Arguments ext {U X}.
Arguments stdout {U X}.
Arguments calls {U X}.

(** The methods the users of the framework override: [Perception.update],
    [Agent._think], [Action.execute] and [Object.update].  Each reads the
    whole state and rewrites the object store; none of them restructures the
    world's own containers. *)
Record Behaviour (U X : Type) := mkBehaviour {
  Perception_update : pid -> aid -> State U X -> Heap U;
  Agent__think : aid -> Q -> State U X -> Heap U * list actid;
  Action_execute : actid -> aid -> State U X -> Heap U;
  Object_update : oid -> Q -> State U X -> Heap U
}.
Arguments mkBehaviour {U X}.
Arguments Perception_update {U X}.
Arguments Agent__think {U X}.
Arguments Action_execute {U X}.
Arguments Object_update {U X}.

Section Simulation.

Context {U X : Type}.
Variable B : Behaviour U X.

#[local] Abbreviation St := (State U X).

Definition with_heap (h : Heap U) (s : St) : St :=
  mkState h (_perceptions s) (self s) (ext s) (stdout s) (calls s).
Definition with_self (w : World) (s : St) : St :=
  mkState (heap s) (_perceptions s) w (ext s) (stdout s) (calls s).
Definition with_ext (e : X) (s : St) : St :=
  mkState (heap s) (_perceptions s) (self s) e (stdout s) (calls s).

Definition print (msg : string) : M St :=
  fun s => Return (mkState (heap s) (_perceptions s) (self s) (ext s)
                           (stdout s ++ [msg]) (calls s)).

Definition called (e : event) : M St :=
  fun s => Return (mkState (heap s) (_perceptions s) (self s) (ext s)
                           (stdout s) (calls s ++ [e])).

Definition run (f : St -> Heap U) : M St :=
  fun s => Return (with_heap (f s) s).

Definition obj (s : St) (o : oid) : Object := objs (heap s) o.
Definition agt (s : St) (a : aid) : Agent := agts (heap s) a.

Definition modify_obj (o : oid) (f : Object -> Object) : M St :=
  fun s => Return (with_heap (set_obj o (f (obj s o)) (heap s)) s).
Definition modify_agt (a : aid) (f : Agent -> Agent) : M St :=
  fun s => Return (with_heap (set_agt a (f (agt s a)) (heap s)) s).

(** **** Agent *)

Definition Agent_kill (a : aid) : M St :=
  fun s => if negb (_dead (agt s a))
           then modify_agt a (set__dead true) s
           else print "Warning: Trying to kill an already dead agent!" s.

Definition Agent__update_perceptions (a : aid) : M St :=
  fun s => for_each (map snd (_perceptions s a))
             (fun p => called (Perception_update_called p a) ;;
                       run (Perception_update B p a)) s.

Definition Agent_update (a : aid) (delta : Q) : M St :=
  called (Agent_update_called a delta) ;;
  Agent__update_perceptions a ;;
  called (Agent__think_called a delta) ;;
  fun s =>
    let actions := snd (Agent__think B a delta s) in
    (run (fun s => fst (Agent__think B a delta s)) ;;
     match actions with
     | [] => pass
     | _ => for_each actions
              (fun action => called (Action_execute_called action a) ;;
                             run (Action_execute B action a))
     end) s.

(** **** World *)

Definition World_add_object (o : oid) : M St :=
  fun s => Return (with_self (set__objects (_objects (self s) ++ [o]) (self s)) s).

Definition World_remove_object (o : oid) : M St :=
  fun s =>
    if negb (is_body (obj s o)) && contains (_objects (self s)) o
    then Return (with_self (set__objects (remove_first o (_objects (self s))) (self s)) s)
    else print "Trying to remove an object that is not present in the             world, or is the body of an agent!" s.

(** [add_object] is the method of the world's own class. *)
Definition World_add_agent (add_object : oid -> M St) (a : aid) : M St :=
  modify_agt a (set_world true) ;;
  (fun s => Return (with_self (set__agents (_agents (self s) ++ [a]) (self s)) s)) ;;
  fun s => match _body (agt s a) with
           | Some b => add_object b s
           | None => Return s
           end.

Definition World__remove_agent (a : aid) : M St :=
  fun s =>
    if contains (_agents (self s)) a
    then (modify_agt a (set_world false) ;;
          fun s => Return (with_self (set__agents (remove_first a (_agents (self s))) (self s)) s)) s
    else print "Warning: Trying to remove an agent that is not in the list." s.

Definition World_pause_toggle : M St :=
  fun s => Return (with_self (set_paused (negb (paused (self s))) (self s)) s).

Definition World_process_agents (delta : Q) : M St :=
  fun s => for_each (_agents (self s))
             (fun a s =>
                if negb (is_dead (agt s a))
                then Agent_update a delta s
                else Return (with_self (set__dead_agents (_dead_agents (self s) ++ [a]) (self s)) s)) s.

(** [remove_object] is the method of the world's own class. *)
Definition World__remove_dead_agents (remove_object : oid -> M St) : M St :=
  (fun s => for_each (_dead_agents (self s))
              (fun a =>
                 World__remove_agent a ;;
                 fun s =>
                   let body := _body (agt s a) in
                   (run (fun s => body_setter a None (heap s)) ;;
                    match body with
                    | None => fun s => Raise AttributeError s
                    | Some b =>
                        modify_obj b (agent_setter None) ;;
                        fun s => if negb (keep_body_on_death (agt s a))
                                 then remove_object b s
                                 else Return s
                    end) s) s) ;;
  fun s => Return (with_self (set__dead_agents [] (self s)) s).

(** The loop [for obj in self._objects: obj.update(delta)] of [update]. *)
Definition World_update_objects (delta : Q) : M St :=
  fun s => for_each (_objects (self s))
             (fun o => called (Object_update_called o delta) ;;
                       run (Object_update B o delta)) s.

Definition World_update (delta : Q) : M St :=
  fun s =>
    if negb (paused (self s))
    then (World_process_agents delta ;;
          World_update_objects delta ;;
          World__remove_dead_agents World_remove_object) s
    else Return s.

End Simulation.

(** *** class World2D *)

Record World2D := mkWorld2D {
  width : Q;
  height : Q
}.

Definition World2D__init__ (width height : Q) : World * World2D :=
  (World__init__, mkWorld2D width height).

Section Continuous.

Context {U : Type}.
Variable B : Behaviour U World2D.

#[local] Abbreviation St := (State U World2D).

(** The [# check bounds] block of [World2D.update]. *)
Definition World2D_check_bounds (o : oid) : M St :=
  (fun s => if Py.ltb (width (ext s)) (x (obj s o))
            then modify_obj o (set_x (width (ext s))) s else Return s) ;;
  (fun s => if Py.ltb (height (ext s)) (y (obj s o))
            then modify_obj o (set_y (height (ext s))) s else Return s) ;;
  (fun s => if Py.ltb (x (obj s o)) 0
            then modify_obj o (set_x 0) s else Return s) ;;
  (fun s => if Py.ltb (y (obj s o)) 0
            then modify_obj o (set_y 0) s else Return s).

(** The loop over [self._objects] of [World2D.update]. *)
Definition World2D_update_objects (delta : Q) : M St :=
  fun s => for_each (_objects (self s))
             (fun o => called (Object_update_called o delta) ;;
                       run (Object_update B o delta) ;;
                       World2D_check_bounds o) s.

Definition World2D_update (delta : Q) : M St :=
  fun s =>
    if negb (paused (self s))
    then (World_process_agents B delta ;;
          World2D_update_objects delta ;;
          World__remove_dead_agents World_remove_object) s
    else Return s.

End Continuous.

(** *** class World2DGrid

    [_grid] is a list of rows, a row a list of cells, a cell the list of the
    objects standing on it.  The attributes used for drawing only are left
    out. *)

Record World2DGrid := mkWorld2DGrid {
  _width : Z;
  _height : Z;
  _tor : bool;
  _grid : list (list (list oid))
}.

Definition set__grid (g : list (list (list oid))) (w : World2DGrid) : World2DGrid :=
  mkWorld2DGrid (_width w) (_height w) (_tor w) g.

Definition World2DGrid__init__ (width height : Z) (tor : bool) : World * World2DGrid :=
  (World__init__,
   mkWorld2DGrid width height tor
     (map (fun l => map (fun c => []) (Py.range width)) (Py.range height))).


(** The two neighbourhoods the class offers. *)
Definition moore : list (Z * Z) :=
  [(-1, -1); (0, -1); (1, -1); (-1, 0); (1, 0); (-1, 1); (0, 1); (1, 1)]%Z.
Definition von_neumann : list (Z * Z) :=
  [(-1, 0); (0, -1); (1, 0); (0, 1)]%Z.

(** The attributes that [World2DGrid.__init__] sets besides those above,
    read by the queries on cells and by the drawing. *)
Record Layout := mkLayout {
  cell : Q;
  _half_cell : Q;
  _nhood : list (Z * Z)
}.

Definition World2DGrid__init__layout (cell : Q) (nhood : list (Z * Z)) : Layout :=
  mkLayout cell (cell / 2) nhood.

(** [self._grid[iy][ix]], read. *)
Definition grid_cell (w : World2DGrid) (iy ix : Z) : exn + list oid :=
  match Py.getitem (_grid w) iy with
  | None => inl IndexError
  | Some row =>
      match Py.getitem row ix with
      | None => inl IndexError
      | Some c => inr c
      end
  end.

Definition World2DGrid_is_empty (w : World2DGrid) (x y : Q) : exn + bool :=
  match grid_cell w (Py.round y) (Py.round x) with
  | inl e => inl e
  | inr c => inr (Nat.eqb (length c) 0)
  end.

(** [get_cell(x, y)]: the two floor divisions, the first one first. *)
Definition World2DGrid_get_cell (l : Layout) (x y : Q) : exn + Z * Z :=
  match Py.floordiv x (cell l) with
  | None => inl ZeroDivisionError
  | Some cx =>
      match Py.floordiv y (cell l) with
      | None => inl ZeroDivisionError
      | Some cy => inr (cx, cy)
      end
  end.

Definition World2DGrid_get_cell_contents (w : World2DGrid) (x y : Q) : exn + list oid :=
  grid_cell w (Py.round y) (Py.round x).

(** The loop of [get_neighbours] over the offsets still to visit, from the
    [result] collected so far; [x] and [y] are rounded already. *)
Fixpoint get_neighbours_loop (w : World2DGrid) (x y : Z) (nhood : list (Z * Z))
         (result : list oid) : exn + list oid :=
  match nhood with
  | [] => inr result
  | (dx, dy) :: nhood' =>
      let x1 := (x + dx)%Z in
      let y1 := (y + dy)%Z in
      if negb (_tor w) && ((0 <=? x1)%Z && (x1 <? _width w)%Z)
                       && ((0 <=? y1)%Z && (y1 <? _height w)%Z)
      then match grid_cell w y1 x1 with
           | inl e => inl e
           | inr c => get_neighbours_loop w x y nhood' (result ++ c)
           end
      else if _tor w
      then match Py.mod_ x1 (_width w) with
           | None => inl ZeroDivisionError
           | Some x1 =>
               match Py.mod_ y1 (_height w) with
               | None => inl ZeroDivisionError
               | Some y1 =>
                   match grid_cell w y1 x1 with
                   | inl e => inl e
                   | inr c => get_neighbours_loop w x y nhood' (result ++ c)
                   end
               end
           end
      else get_neighbours_loop w x y nhood' result
  end.

Definition World2DGrid_get_neighbours (l : Layout) (w : World2DGrid) (x y : Q)
  : exn + list oid :=
  get_neighbours_loop w (Py.round x) (Py.round y) (_nhood l) [].

(** The loop of [get_neighbourhood], likewise. *)
Fixpoint get_neighbourhood_loop (w : World2DGrid) (x y : Z) (nhood : list (Z * Z))
         (result : list (Z * Z)) : exn + list (Z * Z) :=
  match nhood with
  | [] => inr result
  | (dx, dy) :: nhood' =>
      let x1 := (x + dx)%Z in
      let y1 := (y + dy)%Z in
      if negb (_tor w) && ((0 <=? x1)%Z && (x1 <? _width w)%Z)
                       && ((0 <=? y1)%Z && (y1 <? _height w)%Z)
      then get_neighbourhood_loop w x y nhood' (result ++ [(x1, y1)])
      else if _tor w
      then match Py.mod_ x1 (_width w) with
           | None => inl ZeroDivisionError
           | Some x1 =>
               match Py.mod_ y1 (_height w) with
               | None => inl ZeroDivisionError
               | Some y1 => get_neighbourhood_loop w x y nhood' (result ++ [(x1, y1)])
               end
           end
      else get_neighbourhood_loop w x y nhood' result
  end.

Definition World2DGrid_get_neighbourhood (l : Layout) (w : World2DGrid) (x y : Q)
  : exn + list (Z * Z) :=
  get_neighbourhood_loop w (Py.round x) (Py.round y) (_nhood l) [].

Section Grid.

Context {U : Type}.
Variable B : Behaviour U World2DGrid.

#[local] Abbreviation St := (State U World2DGrid).

(** [self._grid[ry][rx] = c], the cell having been read at these indices. *)
Definition grid_store (ry rx : Z) (c : list oid) : M St :=
  fun s =>
    let g := _grid (ext s) in
    match Py.getitem g ry with
    | None => Raise IndexError s
    | Some row =>
        match Py.setitem row rx c with
        | None => Raise IndexError s
        | Some row' =>
            match Py.setitem g ry row' with
            | None => Raise IndexError s
            | Some g' => Return (with_ext (set__grid g' (ext s)) s)
            end
        end
    end.

(** [self._grid[ry][rx].remove(o)] *)
Definition grid_remove (ry rx : Z) (o : oid) : M St :=
  fun s =>
    match Py.getitem (_grid (ext s)) ry with
    | None => Raise IndexError s
    | Some row =>
        match Py.getitem row rx with
        | None => Raise IndexError s
        | Some c =>
            if contains c o
            then grid_store ry rx (remove_first o c) s
            else Raise ValueError s
        end
    end.

(** [self._grid[ry][rx].append(o)] *)
Definition grid_append (ry rx : Z) (o : oid) : M St :=
  fun s =>
    match Py.getitem (_grid (ext s)) ry with
    | None => Raise IndexError s
    | Some row =>
        match Py.getitem row rx with
        | None => Raise IndexError s
        | Some c => grid_store ry rx (c ++ [o]) s
        end
    end.

(** The [# check bounds] block, which [add_object] and [update] both
    contain. *)
Definition World2DGrid_check_bounds (o : oid) : M St :=
  fun s =>
    if negb (_tor (ext s)) then
      ((fun s => if Py.ltb (inject_Z (_width (ext s) - 1)) (x (obj s o))
                 then modify_obj o (set_x (inject_Z (_width (ext s) - 1))) s
                 else Return s) ;;
       (fun s => if Py.ltb (inject_Z (_height (ext s) - 1)) (y (obj s o))
                 then modify_obj o (set_y (inject_Z (_height (ext s) - 1))) s
                 else Return s) ;;
       (fun s => if Py.ltb (x (obj s o)) 0
                 then modify_obj o (set_x 0) s else Return s) ;;
       (fun s => if Py.ltb (y (obj s o)) 0
                 then modify_obj o (set_y 0) s else Return s)) s
    else
      ((fun s => if Py.ltb (inject_Z (_width (ext s)) - (1 # 2)) (x (obj s o))
                    || Py.ltb (x (obj s o)) (- (1 # 2))
                 then match Py.mod_ (Py.round (x (obj s o))) (_width (ext s)) with
                      | Some m => modify_obj o (set_x (inject_Z m)) s
                      | None => Raise ZeroDivisionError s
                      end
                 else Return s) ;;
       (fun s => if Py.ltb (inject_Z (_height (ext s)) - (1 # 2)) (y (obj s o))
                    || Py.ltb (y (obj s o)) (- (1 # 2))
                 then match Py.mod_ (Py.round (y (obj s o))) (_height (ext s)) with
                      | Some m => modify_obj o (set_y (inject_Z m)) s
                      | None => Raise ZeroDivisionError s
                      end
                 else Return s)) s.

Definition World2DGrid_add_object (o : oid) : M St :=
  World2DGrid_check_bounds o ;;
  World_add_object o ;;
  fun s => grid_append (Py.round (y (obj s o))) (Py.round (x (obj s o))) o s.

Definition World2DGrid_remove_object (o : oid) : M St :=
  World_remove_object o ;;
  fun s => if negb (is_body (obj s o))
           then grid_remove (Py.round (y (obj s o))) (Py.round (x (obj s o))) o s
           else Return s.

(** [add_agent], inherited from [World], adds the body through the
    overriding [add_object]. *)
Definition World2DGrid_add_agent (a : aid) : M St :=
  World_add_agent World2DGrid_add_object a.

Definition World2DGrid_process_agents (delta : Q) : M St :=
  fun s => for_each (_agents (self s))
    (fun a =>
       (fun s =>
          if negb (is_dead (agt s a)) then
            ((fun s => match _body (agt s a) with
                       | None => Raise AttributeError s
                       | Some b => grid_remove (Py.round (y (obj s b)))
                                               (Py.round (x (obj s b))) b s
                       end) ;;
             Agent_update B a delta ;;
             (fun s => match _body (agt s a) with
                       | None => Raise AttributeError s
                       | Some b => grid_append (Py.round (y (obj s b)))
                                               (Py.round (x (obj s b))) b s
                       end)) s
          else Return s) ;;
       (fun s =>
          if is_dead (agt s a)
          then Return (with_self (set__dead_agents (_dead_agents (self s) ++ [a]) (self s)) s)
          else Return s)) s.

(** The loop over [self._objects] of [World2DGrid.update]. *)
Definition World2DGrid_update_objects (delta : Q) : M St :=
  fun s => for_each (_objects (self s))
    (fun o =>
       (fun s => grid_remove (Py.round (y (obj s o))) (Py.round (x (obj s o))) o s) ;;
       called (Object_update_called o delta) ;;
       run (Object_update B o delta) ;;
       World2DGrid_check_bounds o ;;
       (fun s => grid_append (Py.round (y (obj s o))) (Py.round (x (obj s o))) o s)) s.

Definition World2DGrid_update (delta : Q) : M St :=
  fun s =>
    if negb (paused (self s))
    then (World2DGrid_process_agents delta ;;
          World2DGrid_update_objects delta ;;
          World__remove_dead_agents World2DGrid_remove_object) s
    else Return s.

End Grid.

(** *** Drawing

    What a frame hands to OpenGL, in order; a state of the drawing methods
    is a simulation state together with the commands issued so far. *)

Inductive gl :=
| glPushMatrix
| glTranslatef (x y z : Q)
| glRotatef (angle x y z : Q)
| glScalef (x y z : Q)
| Batch_draw (o : oid)
| glPopMatrix.

Section Drawing.

Context {U X : Type}.

#[local] Abbreviation Frame := (State U X * list gl)%type.

(** A method of the simulation, run while drawing. *)
Definition on_world (f : M (State U X)) : M Frame :=
  fun fr => match f (fst fr) with
            | Return s => Return (s, snd fr)
            | Raise e s => Raise e (s, snd fr)
            end.

Definition issue (cmds : list gl) : M Frame :=
  fun fr => Return (fst fr, snd fr ++ cmds).

Definition Object_draw (o : oid) : M Frame :=
  issue [glPushMatrix] ;;
  (fun fr => issue [glTranslatef (x (obj (fst fr) o)) (y (obj (fst fr) o)) 0] fr) ;;
  (fun fr => issue [glRotatef (angle (obj (fst fr) o)) 0 0 1] fr) ;;
  (fun fr => if negb (Qeq_bool (scale (obj (fst fr) o)) 1)
             then issue [glScalef (scale (obj (fst fr) o)) (scale (obj (fst fr) o))
                                  (scale (obj (fst fr) o))] fr
             else Return fr) ;;
  issue [Batch_draw o] ;;
  issue [glPopMatrix].

Definition World_draw_objects : M Frame :=
  fun fr => for_each (_objects (self (fst fr))) Object_draw fr.

(** [World2DGrid.draw_objects]: every object is drawn at the centre of its
    cell and put back. *)
Definition World2DGrid_draw_objects (l : Layout) : M Frame :=
  fun fr => for_each (_objects (self (fst fr)))
    (fun o fr =>
       let x0 := x (obj (fst fr) o) in
       let y0 := y (obj (fst fr) o) in
       (on_world (modify_obj o (set_x (x0 * cell l + _half_cell l))) ;;
        on_world (modify_obj o (set_y (y0 * cell l + _half_cell l))) ;;
        Object_draw o ;;
        on_world (modify_obj o (set_x x0)) ;;
        on_world (modify_obj o (set_y y0))) fr) fr.

End Drawing.

End core.

(** ** objects.py *)

Module objects.

Section SimplePhysics.

(** [math.cos], [math.sin] and [math.pi], whose values the development
    does not depend on. *)
Variables math_cos math_sin : Q -> Q.
Variable math_pi : Q.

Definition DEG2RAD : Q := math_pi / 180.

(** A [SimplePhysicsObject] is an [Object] with four more attributes. *)
Record SimplePhysicsObject := mkSimplePhysicsObject {
  base : core.Object;
  _vel : Q;
  _velx : Q;
  _vely : Q;
  _ang_vel : Q
}.

Definition SimplePhysicsObject__init__ (x y angle : Q) : SimplePhysicsObject :=
  mkSimplePhysicsObject (core.Object__init__ x y angle) 0 0 0 0.

Definition angle (o : SimplePhysicsObject) : Q := core._angle (base o).

(** [@velocity.setter] *)
Definition velocity_setter (v : Q) (o : SimplePhysicsObject) : SimplePhysicsObject :=
  mkSimplePhysicsObject (base o) v
    (v * math_cos (angle o * DEG2RAD))
    (v * math_sin (angle o * DEG2RAD))
    (_ang_vel o).

(** [@ang_velocity.setter] *)
Definition ang_velocity_setter (v : Q) (o : SimplePhysicsObject) : SimplePhysicsObject :=
  mkSimplePhysicsObject (base o) (_vel o) (_velx o) (_vely o) v.

(** [@Object.angle.setter], the override *)
Definition angle_setter (value : Q) (o : SimplePhysicsObject) : SimplePhysicsObject :=
  let value := core.normalize_up (core.normalize_down value) in
  let o := mkSimplePhysicsObject (core.set__angle value (base o))
             (_vel o) (_velx o) (_vely o) (_ang_vel o) in
  velocity_setter (_vel o) o.

(** [Object.rotate], inherited: it assigns through the overriding setter. *)
Definition rotate (a : Q) (o : SimplePhysicsObject) : SimplePhysicsObject :=
  angle_setter (angle o + a) o.

Definition update (delta : Q) (o : SimplePhysicsObject) : SimplePhysicsObject :=
  let o := if negb (Qeq_bool (_ang_vel o) 0)
           then angle_setter (core._angle (base o) + _ang_vel o * delta) o
           else o in
  let o := mkSimplePhysicsObject
             (core.set_x (core.x (base o) + _velx o * delta) (base o))
             (_vel o) (_velx o) (_vely o) (_ang_vel o) in
  mkSimplePhysicsObject
    (core.set_y (core.y (base o) + _vely o * delta) (base o))
    (_vel o) (_velx o) (_vely o) (_ang_vel o).

End SimplePhysics.

End objects.

(** ** influence.py *)

Module influence.

Inductive diffusion := linear_diffuse_f | light_diffuse_f.

Record CircularInfluence := mkCircularInfluence {
  x : Q;
  y : Q;
  strength : Q;
  radius : Q;
  r : Q;
  diffuse : Q;
  static : bool;
  limit : Q;
  degrade : Q;
  func : diffusion
}.

(** An emitter is an instance of the base class [Influence] or of
    [CircularInfluence]. *)
Inductive Influence :=
| Influence__init__
| Circular (c : CircularInfluence).

Record InfluenceMap := mkInfluenceMap {
  width : Q;
  height : Q;
  map_width : Z;
  map_height : Z;
  sector : Q;
  maximum : Q;
  dirty : option bool;   (* [True], [False] or [None] *)
  _imap : list (list Q);
  _ilist : list Influence
}.

(** An influence map and what [print] has written. *)
Record State := mkState {
  self : InfluenceMap;
  stdout : list string
}.

Section Influences.

(** [math.sqrt], whose values the development does not depend on. *)
Variable math_sqrt : Q -> Q.

(** [CircularInfluence.__init__]; [None] stands for [ZeroDivisionError],
    and the second component is what the constructor prints. *)
Definition CircularInfluence__init__
    (x y strength radius degrade limit : Q) (static : bool)
  : option (CircularInfluence * list string) :=
  if Qeq_bool radius 0 then None
  else
    let c d := mkCircularInfluence x y strength radius (radius / 3) (1 / radius)
                 static limit d linear_diffuse_f in
    if static && negb (Qeq_bool degrade 0)
    then Some (c 0, ["A static influence can not have a degrade value different                   than 0! Value set to 0."%string])
    else Some (c degrade, []).

(** The squares are those of exact arithmetic and [math_sqrt] is a total
    function: the [OverflowError] that [**] and [math.sqrt] raise on numbers
    too large for a float is left out, here and in [light_diffuse]. *)
Definition linear_diffuse (c : CircularInfluence) (px py : Q) : Q :=
  let dist := math_sqrt ((px - x c) ^ 2 + (py - y c) ^ 2) in
  Py.max (strength c - diffuse c * dist) 0.

(** [None] stands for [ZeroDivisionError]. *)
Definition light_diffuse (c : CircularInfluence) (px py : Q) : option Q :=
  let dist := math_sqrt ((px - x c) ^ 2 + (py - y c) ^ 2) in
  if Qeq_bool (r c) 0 then None
  else if Qeq_bool ((dist / r c + 1) ^ 2) 0 then None
  else
    let att := 1 / ((dist / r c + 1) ^ 2) in
    let res := strength c * att in
    if Py.ltb res (limit c) then Some 0 else Some res.

Definition CircularInfluence_get_value (c : CircularInfluence) (px py : Q) : option Q :=
  match func c with
  | linear_diffuse_f => Some (linear_diffuse c px py)
  | light_diffuse_f => light_diffuse c px py
  end.

(** [i.get_value(x, y)], dispatched on the class of [i]. *)
Definition Influence_get_value (i : Influence) (px py : Q) : option Q :=
  match i with
  | Influence__init__ => Some 0
  | Circular c => CircularInfluence_get_value c px py
  end.

(** [InfluenceMap.__init__]; [None] stands for [ZeroDivisionError]. *)
Definition InfluenceMap__init__ (width height sector maximum : Q)
  : option InfluenceMap :=
  match Py.floordiv width sector, Py.floordiv height sector with
  | Some mw, Some mh =>
      Some (mkInfluenceMap width height mw mh sector maximum (Some true)
              (map (fun i => repeat 0 (Z.to_nat mw)) (Py.range mh)) [])
  | _, _ => None
  end.

Definition with_imap (g : list (list Q)) (m : InfluenceMap) : InfluenceMap :=
  mkInfluenceMap (width m) (height m) (map_width m) (map_height m) (sector m)
    (maximum m) (dirty m) g (_ilist m).
Definition with_dirty (d : option bool) (m : InfluenceMap) : InfluenceMap :=
  mkInfluenceMap (width m) (height m) (map_width m) (map_height m) (sector m)
    (maximum m) d (_imap m) (_ilist m).
Definition with_ilist (l : list Influence) (m : InfluenceMap) : InfluenceMap :=
  mkInfluenceMap (width m) (height m) (map_width m) (map_height m) (sector m)
    (maximum m) (dirty m) (_imap m) l.

Definition on_self (f : InfluenceMap -> InfluenceMap) : M State :=
  fun s => Return (mkState (f (self s)) (stdout s)).

Definition print (msg : string) : M State :=
  fun s => Return (mkState (self s) (stdout s ++ [msg])).

(** The innermost loop of [update]: [a = a + i.get_value(cx, cy)] for every
    [i] of the list, from the accumulator [a]. *)
Fixpoint accumulate (l : list Influence) (cx cy : Q) (a : Q) : option Q :=
  match l with
  | [] => Some a
  | i :: l' =>
      match Influence_get_value i cx cy with
      | Some v => accumulate l' cx cy (a + v)
      | None => None
      end
  end.

(** The body of the two loops of [update] at [y], [x]. *)
Definition update_cell (cy cx : Z) : M State :=
  fun s =>
    let m := self s in
    match accumulate (_ilist m)
            (inject_Z cx * sector m + sector m / 2)
            (inject_Z cy * sector m + sector m / 2) 0 with
    | None => Raise ZeroDivisionError s
    | Some a =>
        let a := if Py.ltb (maximum m) a then maximum m else a in
        match Py.getitem (_imap m) cy with
        | None => Raise IndexError s
        | Some row =>
            match Py.setitem row cx a with
            | None => Raise IndexError s
            | Some row' =>
                match Py.setitem (_imap m) cy row' with
                | None => Raise IndexError s
                | Some g => on_self (with_imap g) s
                end
            end
        end
    end.

Definition update : M State :=
  (fun s => for_each (Py.range (map_height (self s)))
              (fun cy s => for_each (Py.range (map_width (self s)))
                             (fun cx => update_cell cy cx) s) s) ;;
  on_self (with_dirty (Some true)).

(** [place(influence, update)]: reading [influence.x] of an instance of the
    base class raises [AttributeError]. *)
Definition place (i : Influence) (upd : bool) : M State :=
  fun s =>
    match i with
    | Influence__init__ => Raise AttributeError s
    | Circular c =>
        if Py.leb 0 (x c) && Py.leb (x c) (width (self s))
           && (Py.leb 0 (y c) && Py.leb (y c) (height (self s)))
        then (on_self (fun m => with_ilist (_ilist m ++ [i]) m) ;;
              if upd then update else pass) s
        else print "Tying to place an influence outside the limits of the map" s
    end.

(** [get_value(x, y)] returns a number or raises; it changes nothing. *)
Definition get_value (m : InfluenceMap) (px py : Q) : exn + Q :=
  if Py.ltb 0 px && Py.ltb px (width m) && (Py.ltb 0 py && Py.ltb py (height m))
  then
    match Py.floordiv px (sector m), Py.floordiv py (sector m) with
    | Some ix, Some iy =>
        match Py.getitem (_imap m) iy with
        | None => inl IndexError
        | Some row =>
            match Py.getitem row ix with
            | None => inl IndexError
            | Some v => inr v
            end
        end
    | _, _ => inl ZeroDivisionError
    end
  else inr 0.

Definition get_grid_value (m : InfluenceMap) (ix iy : Z) : exn + Q :=
  match Py.getitem (_imap m) iy with
  | None => inl IndexError
  | Some row =>
      match Py.getitem row ix with
      | None => inl IndexError
      | Some v => inr v
      end
  end.

Definition set_strength (v : Q) (c : CircularInfluence) : CircularInfluence :=
  mkCircularInfluence (x c) (y c) v (radius c) (r c) (diffuse c) (static c)
    (limit c) (degrade c) (func c).

(** [CircularInfluence.update(delta)]: the emitter after the call and the
    value returned. *)
Definition CircularInfluence_update (delta : Q) (c : CircularInfluence)
  : CircularInfluence * bool :=
  if negb (Qeq_bool (degrade c) 0) && Py.ltb 0 (strength c)
  then
    let c := set_strength (strength c - degrade c * delta) c in
    let c := if Py.ltb (strength c) (limit c) then set_strength 0 c else c in
    (c, true)
  else (c, false).

(** [i.update(delta)], dispatched on the class of [i]: the emitter after
    the call and the value returned, which is [None] for the base class,
    whose [update] is [pass]. *)
Definition Influence_update (delta : Q) (i : Influence) : Influence * option bool :=
  match i with
  | Influence__init__ => (i, None)
  | Circular c =>
      let (c', res) := CircularInfluence_update delta c in (Circular c', Some res)
  end.

(** The loop of [update_influences], [res = res or i.update(delta)]: when
    [res] is true the call on the right is not evaluated and [res] stays;
    otherwise [res] becomes what the call returns, [None] included.  The
    list holds each emitter once. *)
Fixpoint update_influences_loop (delta : Q) (l : list Influence) (res : option bool)
  : list Influence * option bool :=
  match l with
  | [] => ([], res)
  | i :: l' =>
      if Py.truth res
      then let (l'', res') := update_influences_loop delta l' res in (i :: l'', res')
      else let (i', res) := Influence_update delta i in
           let (l'', res') := update_influences_loop delta l' res in (i' :: l'', res')
  end.

(** [update_influences(delta)]: [res] starts as [False] and ends in
    [self.dirty]. *)
Definition update_influences (delta : Q) : M State :=
  on_self (fun m =>
             let (l, res) := update_influences_loop delta (_ilist m) (Some false) in
             with_dirty res (with_ilist l m)).

End Influences.

End influence.

(** ** shapes.py

    The vertex lists of the shapes; colours and the OpenGL batches are left
    out. *)

Module shapes.

(** The slice [l[::2]]; [l[1::2]] is the same slice of the tail. *)
Fixpoint every_other {A} (l : list A) : list A :=
  match l with
  | [] => []
  | a :: l' => a :: match l' with
                    | [] => []
                    | _ :: l'' => every_other l''
                    end
  end.

(** [Shape.translate(tx, ty)] on the flat list [self.vertices[1]]. *)
Definition translate (tx ty : Q) (vertices : list Q) : list Q :=
  let res := map (fun v => (fst v + tx, snd v + ty))
                 (combine (every_other vertices) (every_other (tl vertices))) in
  flat_map (fun v => [fst v; snd v]) res.

Definition Rect (w h x y : Q) : list Q :=
  let w := w / 2 in
  let h := h / 2 in
  let x1 := x - w in
  let y1 := y + h in
  let x2 := x + w in
  let y2 := y - h in
  [x1; y1; x2; y1; x2; y2; x1; y2].

Definition Line (x1 y1 x2 y2 : Q) : list Q := [x1; y1; x2; y2].

Definition Triangle (x1 y1 x2 y2 x3 y3 : Q) : list Q := [x1; y1; x2; y2; x3; y3].

(** [Grid(width, height, cell)] on integers; [None] stands for
    [ZeroDivisionError]. *)
Definition Grid (width height cell : Z) : option (list Z) :=
  if (cell =? 0)%Z then None
  else
    let vertical :=
      flat_map (fun i => [i * cell; 0; i * cell; height]%Z)
               (Py.range (width / cell + 1)) in
    let horizontal :=
      flat_map (fun i => [0; i * cell; width; i * cell]%Z)
               (Py.range (height / cell + 1)) in
    Some (vertical ++ horizontal).

End shapes.

(** ** influence.py, the display of a map

    [InfluenceMapDisplay] draws one square for every cell of the map, in
    the colour of the display dimmed by the value of the cell. *)

Module display.

Import influence.

(** [shape], the square of the cell at the origin. *)
Definition shape (m : InfluenceMap) : list Q :=
  shapes.Rect (sector m) (sector m) (sector m / 2) (sector m / 2).

(** [new_vertices], the square of the cell in column [x], row [y]. *)
Definition new_vertices (m : InfluenceMap) (x y : Z) : list Q :=
  shapes.translate (inject_Z x * sector m) (inject_Z y * sector m) (shape m).

(** [new_color[1]], the components of the colour of that cell, from the
    components [color] of the display's colour. *)
Definition new_color (m : InfluenceMap) (color : list Z) (x y : Z) : exn + list Z :=
  match get_grid_value m x y with
  | inl e => inl e
  | inr v =>
      if Qeq_bool (maximum m) 0 then inl ZeroDivisionError
      else
        let v := v / maximum m in
        inr (map (fun c => Py.int (inject_Z c * v)) color)
  end.

End display.

(** ** The same computations on floats

    Python's [float] is the IEEE 754 binary64 format, every operation
    rounded to the nearest value.  This module repeats on such numbers the
    loops and sums of the sources whose outcome rounding changes.  A loop is
    run for at most [fuel] passes and yields [None] when it has not ended by
    then.  Decimal constants are read as Python reads them, rounded to the
    nearest float. *)

Module binary64.

Import PrimFloat.
Local Open Scope float_scope.

(** [while value > 360: value -= 360] *)
Fixpoint normalize_down (fuel : nat) (value : float) : option float :=
  match fuel with
  | O => None
  | S fuel' =>
      if ltb 360 value then normalize_down fuel' (value - 360) else Some value
  end.

(** [while value < 0: value += 360] *)
Fixpoint normalize_up (fuel : nat) (value : float) : option float :=
  match fuel with
  | O => None
  | S fuel' =>
      if ltb value 0 then normalize_up fuel' (value + 360) else Some value
  end.

(** [@angle.setter], of [Object] and of [SimplePhysicsObject]: the value
    that reaches [self._angle = value]. *)
Definition angle_setter (fuel : nat) (value : float) : option float :=
  match normalize_down fuel value with
  | None => None
  | Some value => normalize_up fuel value
  end.

(** [CircularInfluence.update(delta)]: the strength after the call and the
    value returned. *)
Definition CircularInfluence_update (delta strength degrade limit : float)
  : float * bool :=
  if negb (eqb degrade 0) && ltb 0 strength
  then
    let strength := strength - degrade * delta in
    let strength := if ltb strength limit then 0 else strength in
    (strength, true)
  else (strength, false).

(** [obj.x*self.cell + self._half_cell] of [World2DGrid.draw_objects], with
    [_half_cell = cell/2]. *)
Definition drawn_at (cell v : float) : float := v * cell + cell / 2.

(** [Shape.translate(tx, ty)] *)
Definition translate (tx ty : float) (vertices : list float) : list float :=
  let res := map (fun v => (fst v + tx, snd v + ty))
                 (combine (shapes.every_other vertices)
                          (shapes.every_other (tl vertices))) in
  flat_map (fun v => [fst v; snd v]) res.

Definition Rect (w h x y : float) : list float :=
  let w := w / 2 in
  let h := h / 2 in
  let x1 := x - w in
  let y1 := y + h in
  let x2 := x + w in
  let y2 := y - h in
  [x1; y1; x2; y1; x2; y2; x1; y2].

(** [new_vertices] of [InfluenceMapDisplay.__init__], for the cell in
    column [x], row [y] of a map with this [sector]. *)
Definition new_vertices (sector x y : float) : list float :=
  translate (x * sector) (y * sector) (Rect sector sector (sector / 2) (sector / 2)).

End binary64.

(** ** Rounding facts *)

Section RoundFacts.

Lemma inject_Z_minus (a b : Z) : inject_Z (a - b) = inject_Z a - inject_Z b.
Proof.
  unfold Z.sub, Qminus. rewrite inject_Z_plus, inject_Z_opp. reflexivity.
Qed.

Lemma round_floor_bounds q :
  (Qfloor q <= Py.round q <= Qfloor q + 1)%Z.
Proof.
  unfold Py.round.
  destruct (Qcompare (q - inject_Z (Qfloor q)) (1 # 2));
    [destruct (Z.even (Qfloor q))| |]; lia.
Qed.

Lemma floor_spec q : inject_Z (Qfloor q) <= q /\ q < inject_Z (Qfloor q) + 1.
Proof.
  split; [apply Qfloor_le|].
  pose proof (Qlt_floor q) as H. rewrite inject_Z_plus in H. exact H.
Qed.

Lemma floor_lt_of_lt q (z : Z) : q < inject_Z z -> (Qfloor q < z)%Z.
Proof.
  intro H. destruct (floor_spec q) as [Hf _].
  apply Z.lt_nge. intro Hle. rewrite Zle_Qle in Hle. lra.
Qed.

Lemma floor_ge_of_ge q (z : Z) : inject_Z z <= q -> (z <= Qfloor q)%Z.
Proof.
  intro H. destruct (floor_spec q) as [_ Hc].
  apply Z.lt_succ_r. apply Z.lt_nge. intro Hle.
  unfold Z.succ in Hle. rewrite Zle_Qle, inject_Z_plus in Hle.
  change (inject_Z 1) with 1 in Hle. lra.
Qed.

Lemma round_inject_Z z : Py.round (inject_Z z) = z.
Proof.
  unfold Py.round. rewrite Qfloor_Z.
  assert (H : Qcompare (inject_Z z - inject_Z z) (1 # 2) = Lt).
  { apply (proj1 (Qlt_alt _ _)). lra. }
  rewrite H. reflexivity.
Qed.

(** Below the half-way point the value rounds down. *)
Lemma round_below q (z : Z) : q < inject_Z z - (1 # 2) -> (Py.round q < z)%Z.
Proof.
  intro H. destruct (floor_spec q) as [Hf Hc].
  assert (Hz : (Qfloor q < z)%Z) by (apply floor_lt_of_lt; lra).
  unfold Py.round. set (f := Qfloor q) in *.
  destruct (Z.eq_dec f (z - 1)) as [E|NE].
  - assert (Hd : Qcompare (q - inject_Z f) (1 # 2) = Lt).
    { apply (proj1 (Qlt_alt _ _)). rewrite E, inject_Z_minus. change (inject_Z 1) with 1. lra. }
    rewrite Hd. lia.
  - destruct (Qcompare (q - inject_Z f) (1 # 2)); [destruct (Z.even f)| |]; lia.
Qed.

(** Above the half-way point the value rounds up. *)
Lemma round_above q (z : Z) : inject_Z z - (1 # 2) < q -> (z <= Py.round q)%Z.
Proof.
  intro H. destruct (floor_spec q) as [Hf Hc].
  assert (Hz : (z - 1 <= Qfloor q)%Z).
  { apply Z.lt_succ_r. apply Z.lt_nge. intro Hle. unfold Z.succ in Hle.
    rewrite Zle_Qle, !inject_Z_plus, inject_Z_minus in Hle.
    change (inject_Z 1) with 1 in Hle. lra. }
  unfold Py.round. set (f := Qfloor q) in *.
  destruct (Z.eq_dec f (z - 1)) as [E|NE].
  - assert (Hd : Qcompare (q - inject_Z f) (1 # 2) = Gt).
    { apply (proj1 (Qgt_alt _ _)). rewrite E, inject_Z_minus. change (inject_Z 1) with 1. lra. }
    rewrite Hd. lia.
  - destruct (Qcompare (q - inject_Z f) (1 # 2)); [destruct (Z.even f)| |]; lia.
Qed.

(** Exactly half-way the even neighbour wins. *)
Lemma round_tie q (z : Z) :
  q == inject_Z z - (1 # 2) ->
  Py.round q = if Z.even z then z else (z - 1)%Z.
Proof.
  intro H.
  assert (Ef : Qfloor q = (z - 1)%Z).
  { apply Z.le_antisymm.
    - apply Z.lt_succ_r. unfold Z.succ. replace (z - 1 + 1)%Z with z by lia.
      apply floor_lt_of_lt. lra.
    - apply floor_ge_of_ge. rewrite inject_Z_minus. change (inject_Z 1) with 1. lra. }
  unfold Py.round. rewrite Ef.
  assert (Hd : Qcompare (q - inject_Z (z - 1)) (1 # 2) = Eq).
  { apply (proj1 (Qeq_alt _ _)). rewrite inject_Z_minus. change (inject_Z 1) with 1. lra. }
  rewrite Hd. replace (z - 1 + 1)%Z with z by lia.
  rewrite Z.even_sub. simpl. destruct (Z.even z); reflexivity.
Qed.

Lemma round_mono_lower q (z : Z) : inject_Z z <= q -> (z <= Py.round q)%Z.
Proof. intro H. apply round_above. lra. Qed.

Lemma round_mono_upper q (z : Z) : q <= inject_Z z -> (Py.round q <= z)%Z.
Proof.
  intro H. apply Z.lt_succ_r. apply round_below.
  unfold Z.succ. rewrite inject_Z_plus. change (inject_Z 1) with 1. lra.
Qed.

(** From [-1/2] upwards the rounded value is not negative: the tie at
    [-1/2] goes to [0]. *)
Lemma round_nonneg q : - (1 # 2) <= q -> (0 <= Py.round q)%Z.
Proof.
  intro H. destruct (Qlt_le_dec (- (1 # 2)) q) as [Hlt|Hle].
  - apply round_above. change (inject_Z 0) with 0. lra.
  - rewrite (round_tie q 0); [simpl; lia|]. change (inject_Z 0) with 0. lra.
Qed.

(** The window that the toroidal wrap leaves alone: its values round into
    [0 .. w], and to [w] itself exactly at the upper end when [w] is even. *)
Lemma round_in_wrap_window v (w : Z) :
  - (1 # 2) <= v <= inject_Z w - (1 # 2) ->
  (0 <= Py.round v <= w)%Z /\
  (Py.round v = w <-> Z.even w = true /\ v == inject_Z w - (1 # 2)).
Proof.
  intros [Hlo Hhi]. pose proof (round_nonneg v Hlo) as H0.
  destruct (Qlt_le_dec v (inject_Z w - (1 # 2))) as [Hlt|Hge].
  - pose proof (round_below v w Hlt) as Hb. split; [lia|].
    split; [lia|]. intros [_ E]. rewrite E in Hlt.
    exfalso. exact (Qlt_irrefl _ Hlt).
  - assert (E : v == inject_Z w - (1 # 2)) by (apply Qle_antisym; assumption).
    rewrite (round_tie v w E) in *. destruct (Z.even w) eqn:Ev.
    + split; [lia|]. split; [intros _; split; [reflexivity|exact E]|reflexivity].
    + split; [lia|]. split; [lia|]. intros [D _]. discriminate D.
Qed.

End RoundFacts.

(** ** Python lists *)

Section PyLists.

Context {A : Type}.

Lemma index_in_range len (i : Z) :
  (0 <= i < Z.of_nat len)%Z -> Py.index len i = Some (Z.to_nat i).
Proof.
  intros [H0 H1]. unfold Py.index.
  destruct (Z.leb_spec 0 i); [|lia].
  destruct (Z.ltb_spec i (Z.of_nat len)); [reflexivity|lia].
Qed.

Lemma index_Some len (i : Z) n :
  Py.index len i = Some n -> (n < len)%nat.
Proof.
  unfold Py.index.
  destruct (Z.leb_spec 0 i).
  - destruct (Z.ltb_spec i (Z.of_nat len)); [|discriminate].
    intro E. injection E as <-. lia.
  - destruct (Z.leb_spec 0 (i + Z.of_nat len)); [|discriminate].
    intro E. injection E as <-. lia.
Qed.

(** An index that is not negative and is accepted is a position. *)
Lemma index_nonneg len (i : Z) n :
  (0 <= i)%Z -> Py.index len i = Some n -> n = Z.to_nat i /\ (i < Z.of_nat len)%Z.
Proof.
  intro H0. unfold Py.index.
  destruct (Z.leb_spec 0 i); [|lia].
  destruct (Z.ltb_spec i (Z.of_nat len)); [|discriminate].
  intro E. injection E as <-. split; [reflexivity|assumption].
Qed.

Lemma getitem_in_range (l : list A) (i : Z) :
  (0 <= i < Z.of_nat (length l))%Z ->
  Py.getitem l i = nth_error l (Z.to_nat i).
Proof. intro H. unfold Py.getitem. rewrite index_in_range by exact H. reflexivity. Qed.

Lemma setitem_in_range (l : list A) (i : Z) v :
  (0 <= i < Z.of_nat (length l))%Z ->
  Py.setitem l i v = Some (Py.set_nth l (Z.to_nat i) v).
Proof. intro H. unfold Py.setitem. rewrite index_in_range by exact H. reflexivity. Qed.

Lemma getitem_Some_setitem (l : list A) (i : Z) v w :
  Py.getitem l i = Some v -> exists n, Py.index (length l) i = Some n /\
                                      Py.setitem l i w = Some (Py.set_nth l n w).
Proof.
  unfold Py.getitem, Py.setitem.
  destruct (Py.index (length l) i) as [n|]; [|discriminate].
  intros _. exists n. split; reflexivity.
Qed.

Lemma set_nth_length (l : list A) n v : length (Py.set_nth l n v) = length l.
Proof.
  revert n. induction l as [|h t IH]; intros [|n]; simpl; try reflexivity.
  rewrite IH. reflexivity.
Qed.

Lemma nth_error_set_nth_same (l : list A) n v :
  (n < length l)%nat -> nth_error (Py.set_nth l n v) n = Some v.
Proof.
  revert n. induction l as [|h t IH]; intros [|n] H; simpl in *; try lia.
  - reflexivity.
  - apply IH. lia.
Qed.

Lemma nth_error_set_nth_other (l : list A) n k v :
  k <> n -> nth_error (Py.set_nth l n v) k = nth_error l k.
Proof.
  revert n k. induction l as [|h t IH]; intros [|n] [|k] H; simpl; try reflexivity.
  - congruence.
  - apply IH. congruence.
Qed.

Lemma nth_set_nth_same (l : list A) n v d :
  (n < length l)%nat -> nth n (Py.set_nth l n v) d = v.
Proof.
  intro H. apply nth_error_nth. apply nth_error_set_nth_same. exact H.
Qed.

Lemma nth_set_nth_other (l : list A) n k v d :
  k <> n -> nth k (Py.set_nth l n v) d = nth k l d.
Proof.
  revert n k. induction l as [|h t IH]; intros [|n] [|k] H; simpl; try reflexivity.
  - congruence.
  - apply IH. congruence.
Qed.

Lemma nth_error_to_nth (l : list A) n v d : nth_error l n = Some v -> nth n l d = v.
Proof. apply nth_error_nth. Qed.

End PyLists.

Lemma range_In (n z : Z) : In z (Py.range n) <-> (0 <= z < n)%Z.
Proof.
  unfold Py.range. rewrite in_map_iff. split.
  - intros (k & <- & Hk). apply in_seq in Hk. lia.
  - intro H. exists (Z.to_nat z). split; [lia|]. apply in_seq. lia.
Qed.

(** ** Lists of identifiers *)

Section IdLists.

Lemma contains_In l v : contains l v = true <-> In v l.
Proof.
  unfold contains. rewrite existsb_exists. split.
  - intros (w & Hw & E). apply Nat.eqb_eq in E. subst. exact Hw.
  - intro H. exists v. split; [exact H|apply Nat.eqb_refl].
Qed.

Lemma contains_false l v : contains l v = false <-> ~ In v l.
Proof.
  rewrite <- contains_In. destruct (contains l v); split; congruence.
Qed.

Lemma remove_first_incl v l : incl (remove_first v l) l.
Proof.
  induction l as [|h t IH]; simpl; [apply incl_refl|].
  destruct (Nat.eqb v h).
  - apply incl_tl, incl_refl.
  - intros w [<-|Hw]; [left; reflexivity|right; apply IH; exact Hw].
Qed.

Lemma remove_first_In v l w :
  NoDup l -> (In w (remove_first v l) <-> In w l /\ w <> v).
Proof.
  induction l as [|h t IH]; intro Hnd; simpl.
  - tauto.
  - inversion Hnd as [|? ? Hh Ht]; subst.
    destruct (Nat.eqb_spec v h) as [->|NE].
    + split.
      * intro Hw. split; [right; exact Hw|]. intros ->. contradiction.
      * intros [[<-|Hw] NE]; [congruence|exact Hw].
    + simpl. rewrite (IH Ht). split.
      * intros [<-|[Hw NE']]; [split; [left; reflexivity|congruence]|].
        split; [right; exact Hw|exact NE'].
      * intros [[<-|Hw] NE']; [left; reflexivity|right; split; assumption].
Qed.

Lemma remove_first_NoDup v l : NoDup l -> NoDup (remove_first v l).
Proof.
  induction l as [|h t IH]; intro Hnd; simpl; [constructor|].
  inversion Hnd as [|? ? Hh Ht]; subst.
  destruct (Nat.eqb v h); [exact Ht|].
  constructor; [|apply IH; exact Ht].
  intro Hin. apply Hh. apply (remove_first_incl v t). exact Hin.
Qed.

Lemma NoDup_snoc (l : list nat) v : NoDup l -> ~ In v l -> NoDup (l ++ [v]).
Proof.
  intros Hnd Hv. induction l as [|h t IH]; simpl.
  - constructor; [intros []|constructor].
  - inversion Hnd as [|? ? Hh Ht]; subst. constructor.
    + intro Hin. apply in_app_or in Hin as [Hin|[->|[]]]; [contradiction|].
      apply Hv. left. reflexivity.
    + apply IH; [exact Ht|]. intro Hin. apply Hv. right. exact Hin.
Qed.

End IdLists.

(** ** Laws of the effects *)

Section EffectLaws.

Context {S : Type}.

Lemma andThen_Return (f g : M S) s s' :
  f s = Return s' -> (f ;; g) s = g s'.
Proof. unfold andThen. intros ->. reflexivity. Qed.

Lemma andThen_Raise (f g : M S) s e s' :
  f s = Raise e s' -> (f ;; g) s = Raise e s'.
Proof. unfold andThen. intros ->. reflexivity. Qed.

Lemma andThen_returns (f g : M S) s s'' :
  (f ;; g) s = Return s'' -> exists s', f s = Return s' /\ g s' = Return s''.
Proof.
  unfold andThen. destruct (f s) as [s'|e s'] eqn:E; [|discriminate].
  intro H. exists s'. split; [reflexivity|exact H].
Qed.


(** Partial correctness: what holds when an operation returns. *)
Definition hoare (P : S -> Prop) (f : M S) (Q : S -> Prop) : Prop :=
  forall s s', P s -> f s = Return s' -> Q s'.

Lemma hoare_andThen (P Q R : S -> Prop) (f g : M S) :
  hoare P f Q -> hoare Q g R -> hoare P (f ;; g) R.
Proof.
  intros Hf Hg s s'' HP H. apply andThen_returns in H as (s' & H1 & H2).
  eapply Hg; [eapply Hf|]; eassumption.
Qed.

Lemma hoare_weaken (P P' Q Q' : S -> Prop) (f : M S) :
  hoare P' f Q' -> (forall s, P s -> P' s) -> (forall s, Q' s -> Q s) ->
  hoare P f Q.
Proof. intros H HP HQ s s' Hs E. apply HQ. eapply H; [apply HP|]; eassumption. Qed.

Lemma hoare_pass (P : S -> Prop) : hoare P pass P.
Proof. intros s s' HP E. injection E as <-. exact HP. Qed.

(** A loop keeps what each of its turns keeps. *)
Lemma hoare_for_each {A} (I : S -> Prop) (l : list A) (body : A -> M S) :
  (forall a, In a l -> hoare I (body a) I) ->
  hoare I (for_each l body) I.
Proof.
  induction l as [|a l IH]; intro Hb; simpl.
  - apply hoare_pass.
  - eapply hoare_andThen.
    + apply Hb. left. reflexivity.
    + apply IH. intros a' Ha'. apply Hb. right. exact Ha'.
Qed.

(** A loop establishes, for the elements it has gone through, what each
    turn establishes for its element and every later turn keeps. *)
Lemma hoare_for_each_done {A} (I : S -> Prop) (D : A -> S -> Prop)
      (l : list A) (body : A -> M S) :
  (forall a, In a l -> hoare I (body a) (fun s => I s /\ D a s)) ->
  (forall a b, In a l -> In b l -> hoare (fun s => I s /\ D b s) (body a) (D b)) ->
  hoare I (for_each l body) (fun s => I s /\ forall a, In a l -> D a s).
Proof.
  intros Hest Hkeep.
  assert (G : forall done todo, (forall a, In a done -> In a l) ->
                                (forall a, In a todo -> In a l) ->
            hoare (fun s => I s /\ forall a, In a done -> D a s)
                  (for_each todo body)
                  (fun s => I s /\ forall a, In a (done ++ todo) -> D a s)).
  { intros done todo. revert done.
    induction todo as [|a todo IH]; intros done Hd Ht; simpl.
    - rewrite app_nil_r. apply hoare_pass.
    - eapply hoare_andThen with
        (Q := fun s => I s /\ forall b, In b (done ++ [a]) -> D b s).
      + intros s s' [HI HD] E. split.
        * exact (proj1 (Hest a (Ht a (or_introl eq_refl)) s s' HI E)).
        * intros b Hb. apply in_app_or in Hb as [Hb|[<-|[]]].
          -- eapply (Hkeep a b); [apply Ht; left; reflexivity|apply Hd; exact Hb| |exact E].
             split; [exact HI|apply HD; exact Hb].
          -- exact (proj2 (Hest a (Ht a (or_introl eq_refl)) s s' HI E)).
      + eapply hoare_weaken.
        * apply (IH (done ++ [a])).
          -- intros b Hb. apply in_app_or in Hb as [Hb|[<-|[]]];
               [apply Hd; exact Hb|apply Ht; left; reflexivity].
          -- intros b Hb. apply Ht. right. exact Hb.
        * intros s H. exact H.
        * intros s [HI HD]. split; [exact HI|].
          intros b Hb. apply HD. rewrite <- app_assoc. exact Hb. }
  eapply hoare_weaken.
  - apply (G [] l); [intros a []|intros a Ha; exact Ha].
  - intros s HI. split; [exact HI|intros a []].
  - intros s H. exact H.
Qed.

(** Frame properties: a relation between the state before and the state
    reached, whether the operation returns or raises. *)
Definition keeps (R : S -> S -> Prop) (f : M S) : Prop :=
  forall s, R s (final (f s)).

Lemma keeps_andThen (R : S -> S -> Prop) (f g : M S) :
  (forall a b c, R a b -> R b c -> R a c) ->
  keeps R f -> keeps R g -> keeps R (f ;; g).
Proof.
  intros Ht Hf Hg s. unfold andThen.
  specialize (Hf s). destruct (f s) as [s'|e s']; simpl in *.
  - eapply Ht; [exact Hf|apply Hg].
  - exact Hf.
Qed.

Lemma keeps_for_each {A} (R : S -> S -> Prop) (l : list A) (body : A -> M S) :
  (forall a, R a a) -> (forall a b c, R a b -> R b c -> R a c) ->
  (forall a, keeps R (body a)) -> keeps R (for_each l body).
Proof.
  intros Hr Ht Hb. induction l as [|a l IH]; simpl.
  - intro s. apply Hr.
  - apply keeps_andThen; [exact Ht|apply Hb|exact IH].
Qed.

Lemma keeps_Return (R : S -> S -> Prop) (f : M S) s s' :
  keeps R f -> f s = Return s' -> R s s'.
Proof. intros H E. specialize (H s). rewrite E in H. exact H. Qed.

End EffectLaws.

(** ** Total correctness *)

Section TotalLaws.

Context {S : Type}.

(** The operation returns, in a state that satisfies [Q]. *)
Definition total (P : S -> Prop) (f : M S) (Q : S -> Prop) : Prop :=
  forall s, P s -> exists s', f s = Return s' /\ Q s'.

Lemma total_hoare (P Q : S -> Prop) (f : M S) : total P f Q -> hoare P f Q.
Proof.
  intros H s s' HP E. destruct (H s HP) as (s'' & E' & HQ).
  rewrite E in E'. injection E' as <-. exact HQ.
Qed.

Lemma total_andThen (P Q R : S -> Prop) (f g : M S) :
  total P f Q -> total Q g R -> total P (f ;; g) R.
Proof.
  intros Hf Hg s HP. destruct (Hf s HP) as (s' & E & HQ).
  destruct (Hg s' HQ) as (s'' & E' & HR).
  exists s''. split; [|exact HR].
  rewrite (andThen_Return f g s s' E). exact E'.
Qed.

Lemma total_for_each {A} (I : S -> Prop) (l : list A) (body : A -> M S) :
  (forall a, In a l -> total I (body a) I) ->
  total I (for_each l body) I.
Proof.
  induction l as [|a l IH]; intro Hb; simpl.
  - intros s HI. exists s. split; [reflexivity|exact HI].
  - eapply total_andThen.
    + apply Hb. left. reflexivity.
    + apply IH. intros a' Ha'. apply Hb. right. exact Ha'.
Qed.

Lemma total_conj (P Q Q' : S -> Prop) (f : M S) :
  total P f Q -> hoare P f Q' -> total P f (fun s => Q s /\ Q' s).
Proof.
  intros Ht Hh s HP. destruct (Ht s HP) as (s' & E & HQ).
  exists s'. split; [exact E|]. split; [exact HQ|]. eapply Hh; eassumption.
Qed.

End TotalLaws.

(** ** Sample worlds *)

Section Samples.

Import core.

(** Users' methods that do nothing, as the base classes define them. *)
Definition idle {U X} : Behaviour U X :=
  mkBehaviour (fun _ _ s => heap s) (fun _ _ s => (heap s, []))
              (fun _ _ s => heap s) (fun _ _ s => heap s).

(** Objects that drift to the right by [delta] on every tick, agents that
    step their body one cell to the right and return one action. *)
Definition drifting {X} : Behaviour unit X :=
  mkBehaviour
    (fun _ _ s => heap s)
    (fun a _ s => (match _body (agt s a) with
                   | Some b => set_obj b (translate 1 0 (obj s b)) (heap s)
                   | None => heap s
                   end, [7%nat]))
    (fun _ _ s => heap s)
    (fun o delta s => set_obj o (translate delta 0 (obj s o)) (heap s)).

Definition start {X} (h : Heap unit) (w : World) (e : X) : State unit X :=
  mkState h (fun _ => [("sight"%string, 5%nat)]) w e [] [].

(** One agent, alive, whose body is object 0, and a free object 1. *)
Definition one_agent_heap : Heap unit :=
  body_setter 0%nat (Some 0%nat)
    (mkHeap (fun _ => Object__init__ 0 0 0) (fun _ => Agent__init__) tt).

Definition one_agent_world (paused : bool) : World :=
  mkWorld [0%nat] [] [0%nat; 1%nat] paused.

(** Two agents without a body, both killed. *)
Definition two_dead : State unit unit :=
  start (mkHeap (fun _ => Object__init__ 0 0 0)
                (fun _ => mkAgent false None true true) tt)
        (mkWorld [0%nat; 1%nat] [] [] false) tt.

(** An empty grid world, as constructed and then started. *)
Definition empty_grid (width height : Z) (tor : bool) : State unit World2DGrid :=
  start (mkHeap (fun _ => Object__init__ 0 0 0) (fun _ => Agent__init__) tt)
        (set_paused false (fst (World2DGrid__init__ width height tor)))
        (snd (World2DGrid__init__ width height tor)).

(** The same with object 0 standing at [(3/2, 0)], not yet added. *)
Definition torus_with_edge_object : State unit World2DGrid :=
  with_heap (set_obj 0%nat (Object__init__ (3 # 2) 0 0) (heap (empty_grid 2 2 true)))
            (empty_grid 2 2 true).

End Samples.

(** ** Angles *)

Section Angles.

Import core.

Lemma normalize_down_unfold v :
  normalize_down v = if Py.ltb 360 v then normalize_down (v - 360) else v.
Proof.
  funelim (normalize_down v).
  - rewrite e. reflexivity.
  - rewrite e. reflexivity.
Qed.

Lemma normalize_up_unfold v :
  normalize_up v = if Py.ltb v 0 then normalize_up (v + 360) else v.
Proof.
  funelim (normalize_up v).
  - rewrite e. reflexivity.
  - rewrite e. reflexivity.
Qed.

Lemma normalize_down_le v : normalize_down v <= 360.
Proof.
  funelim (normalize_down v).
  - assumption.
  - exact (Py.ltb_false_inv _ _ e).
Qed.

Lemma normalize_up_ge v : 0 <= normalize_up v.
Proof.
  funelim (normalize_up v).
  - assumption.
  - exact (Py.ltb_false_inv _ _ e).
Qed.

Lemma normalize_up_le v : v <= 360 -> normalize_up v <= 360.
Proof.
  funelim (normalize_up v); intro Hv.
  - apply H. pose proof (Py.ltb_true_inv _ _ e). lra.
  - exact Hv.
Qed.

Lemma normalize_range v : 0 <= normalize v <= 360.
Proof.
  unfold normalize. split.
  - apply normalize_up_ge.
  - apply normalize_up_le, normalize_down_le.
Qed.

(** A value already in range is stored as it is. *)
Lemma normalize_id v : 0 <= v <= 360 -> normalize v = v.
Proof.
  intros [H0 H1]. unfold normalize.
  rewrite (normalize_down_unfold v).
  replace (Py.ltb 360 v) with false by (symmetry; apply Py.ltb_false; exact H1).
  rewrite (normalize_up_unfold v).
  replace (Py.ltb v 0) with false by (symmetry; apply Py.ltb_false; exact H0).
  reflexivity.
Qed.

Example normalize_725 : normalize 725 = 5.
Proof. reflexivity. Qed.

Example normalize_minus_90 : normalize (-90) = 270.
Proof. reflexivity. Qed.

Example normalize_360 : normalize 360 = 360.
Proof. reflexivity. Qed.

(** What the two loops do to a value above 360 and to a value below 0:
    whole turns are taken off, or added, until the value is in range. *)
Lemma normalize_down_spec v :
  (v <= 360 -> normalize_down v = v) /\
  (360 < v ->
   0 < normalize_down v <= 360 /\
   exists k : Z, (0 < k)%Z /\ normalize_down v == v - 360 * inject_Z k).
Proof.
  funelim (normalize_down v).
  - pose proof (Py.ltb_true_inv _ _ e) as Hlt. destruct H as [Hid Hturn]. split; [lra|].
    intros _. destruct (Qlt_le_dec 360 (value - 360)) as [Hgt|Hle].
    + destruct (Hturn Hgt) as [Hr (k & Hk & Ek)]. split; [exact Hr|].
      exists (k + 1)%Z. split; [lia|]. rewrite Ek, inject_Z_plus. ring.
    + rewrite (Hid Hle). split; [lra|].
      exists 1%Z. split; [lia|]. ring.
  - pose proof (Py.ltb_false_inv _ _ e) as Hge. split; [reflexivity|lra].
Qed.

Lemma normalize_up_spec v :
  (0 <= v -> normalize_up v = v) /\
  (v < 0 ->
   0 <= normalize_up v < 360 /\
   exists k : Z, (0 < k)%Z /\ normalize_up v == v + 360 * inject_Z k).
Proof.
  funelim (normalize_up v).
  - pose proof (Py.ltb_true_inv _ _ e) as Hlt. destruct H as [Hid Hturn]. split; [lra|].
    intros _. destruct (Qlt_le_dec (value + 360) 0) as [Hneg|Hpos].
    + destruct (Hturn Hneg) as [Hr (k & Hk & Ek)]. split; [exact Hr|].
      exists (k + 1)%Z. split; [lia|]. rewrite Ek, inject_Z_plus. ring.
    + rewrite (Hid Hpos). split; [lra|].
      exists 1%Z. split; [lia|]. ring.
  - pose proof (Py.ltb_false_inv _ _ e) as Hge. split; [reflexivity|lra].
Qed.

(** [stored] is [value] brought into range by whole turns: a value in
    range as it is, a value above 360 less turns and then positive, a value
    below 0 plus turns and then below 360. *)
Definition turned_into_range (value stored : Q) : Prop :=
  0 <= stored <= 360 /\
  (0 <= value <= 360 -> stored = value) /\
  (360 < value ->
   0 < stored /\ exists k : Z, (0 < k)%Z /\ stored == value - 360 * inject_Z k) /\
  (value < 0 ->
   stored < 360 /\ exists k : Z, (0 < k)%Z /\ stored == value + 360 * inject_Z k).

Lemma normalize_turns v : turned_into_range v (normalize v).
Proof.
  split; [apply normalize_range|]. split; [apply normalize_id|]. split.
  - intro Hv. unfold normalize.
    destruct (proj2 (normalize_down_spec v) Hv) as [[H0 H1] Hk].
    rewrite (proj1 (normalize_up_spec _) (Qlt_le_weak _ _ H0)).
    split; assumption.
  - intro Hv. unfold normalize.
    rewrite (proj1 (normalize_down_spec v)) by lra.
    destruct (proj2 (normalize_up_spec v) Hv) as [[H0 H1] Hk].
    split; assumption.
Qed.

(** C9.  In exact arithmetic every assignment through the [angle] setter,
    of [Object] and of [SimplePhysicsObject], directly, through [rotate] or
    through [SimplePhysicsObject.update] with a nonzero angular velocity,
    returns and stores the assigned value brought into range by whole turns
    of 360: a value in [[0, 360]] is stored as it is, a value above 360 is
    stored less a positive number of turns and is then in [(0, 360]], a
    value below 0 is stored plus a positive number of turns and is then in
    [[0, 360)]; so [0 <= angle <= 360] holds afterwards.  The setter changes
    no other attribute of an [Object]; that of a [SimplePhysicsObject]
    recomputes the two velocity components for the new angle and changes
    nothing else. *)
Theorem angle_normalized :
  (forall value o,
      turned_into_range value (angle (angle_setter value o)) /\
      angle_setter value o
      = mkObject (x o) (y o) (angle (angle_setter value o))
                 (_is_body o) (_agent o) (scale o)) /\
  (forall a o,
      turned_into_range (angle o + a) (angle (rotate a o)) /\
      rotate a o
      = mkObject (x o) (y o) (angle (rotate a o))
                 (_is_body o) (_agent o) (scale o)) /\
  (forall cos sin pi value o,
      let o' := objects.angle_setter cos sin pi value o in
      turned_into_range value (objects.angle o') /\
      o' = objects.mkSimplePhysicsObject
             (mkObject (x (objects.base o)) (y (objects.base o)) (objects.angle o')
                       (_is_body (objects.base o)) (_agent (objects.base o))
                       (scale (objects.base o)))
             (objects._vel o)
             (objects._vel o * cos (objects.angle o' * objects.DEG2RAD pi))
             (objects._vel o * sin (objects.angle o' * objects.DEG2RAD pi))
             (objects._ang_vel o)) /\
  (forall cos sin pi a o,
      objects.rotate cos sin pi a o
      = objects.angle_setter cos sin pi (objects.angle o + a) o /\
      turned_into_range (objects.angle o + a)
                        (objects.angle (objects.rotate cos sin pi a o))) /\
  (forall cos sin pi delta o,
      ~ objects._ang_vel o == 0 ->
      turned_into_range (objects.angle o + objects._ang_vel o * delta)
                        (objects.angle (objects.update cos sin pi delta o))).
Proof.
  split; [|split; [|split; [|split]]].
  - intros value o. split; [apply normalize_turns|reflexivity].
  - intros a o. split; [apply normalize_turns|reflexivity].
  - intros cos sin pi value o. split; [apply normalize_turns|reflexivity].
  - intros cos sin pi a o. split; [reflexivity|apply normalize_turns].
  - intros cos sin pi delta o Hv. unfold objects.update.
    destruct (Qeq_bool (objects._ang_vel o) 0) eqn:E.
    + apply Qeq_bool_iff in E. contradiction.
    + apply normalize_turns.
Qed.

(** A spinning object, turned by 400 degrees in one step, ends at 40. *)
Definition spinning : objects.SimplePhysicsObject :=
  objects.ang_velocity_setter 400 (objects.SimplePhysicsObject__init__ 0 0 0).

Lemma angle_normalized_witness :
  ~ objects._ang_vel spinning == 0 /\
  turned_into_range
    (objects.angle spinning + objects._ang_vel spinning * 1)
    (objects.angle
       (objects.update (fun _ => 1) (fun _ => 0) (355 # 113) 1 spinning)).
Proof.
  assert (H : ~ objects._ang_vel spinning == 0) by (intro H; discriminate H).
  split; [exact H|].
  exact (proj2 (proj2 (proj2 (proj2 angle_normalized)))
           (fun _ => 1) (fun _ => 0) (355 # 113) 1 spinning H).
Defined.

Example spinning_angle :
  objects.angle (objects.update (fun _ => 1) (fun _ => 0) (355 # 113) 1 spinning) == 40.
Proof. vm_compute. reflexivity. Qed.

End Angles.

(** ** The angle setter on floats *)

Section FloatAngles.

Import PrimFloat.

Lemma normalize_down_stuck fuel : binary64.normalize_down fuel 1e20%float = None.
Proof.
  induction fuel as [|fuel IH]; [reflexivity|].
  cbn [binary64.normalize_down].
  change (ltb 360 1e20) with true. cbv iota.
  change (sub 1e20 360) with 1e20%float. exact IH.
Qed.

Lemma normalize_up_stuck fuel : binary64.normalize_up fuel (-1e20)%float = None.
Proof.
  induction fuel as [|fuel IH]; [reflexivity|].
  cbn [binary64.normalize_up].
  change (ltb (-1e20) 0) with true. cbv iota.
  change (add (-1e20) 360) with (-1e20)%float. exact IH.
Qed.

(** C9, as stated for any finite value, fails on floats.  At [1e20]
    subtracting 360 yields [1e20] again, which is above 360: the first loop
    of the setter has not ended after any number of passes, and nothing is
    stored.  At [-1e20] the second loop does the same.  The same setter
    stores 5 for 725 and 270 for -90 within three passes. *)
Lemma angle_setter_never_returns :
  (sub 1e20 360 = 1e20%float /\ ltb 360 1e20 = true /\
   forall fuel, binary64.angle_setter fuel 1e20%float = None) /\
  (add (-1e20) 360 = (-1e20)%float /\ ltb (-1e20) 0 = true /\
   forall fuel, binary64.angle_setter fuel (-1e20)%float = None) /\
  binary64.angle_setter 3 725%float = Some 5%float /\
  binary64.angle_setter 3 (-90)%float = Some 270%float.
Proof.
  split; [|split; [|split; reflexivity]].
  - split; [reflexivity|]. split; [reflexivity|].
    intro fuel. unfold binary64.angle_setter.
    rewrite normalize_down_stuck. reflexivity.
  - split; [reflexivity|]. split; [reflexivity|].
    intro fuel. unfold binary64.angle_setter.
    destruct fuel as [|fuel]; [reflexivity|].
    cbn [binary64.normalize_down].
    change (ltb 360 (-1e20)) with false. cbv iota.
    apply normalize_up_stuck.
Qed.

End FloatAngles.

(** ** Bodies and agents *)

Section Bodies.

Import core.

(** The flag and the back-reference of an object agree. *)
Definition flag_agrees (o : Object) : Prop :=
  is_body o = true <-> agent o <> None.

Lemma agent_setter_flag v o : flag_agrees (agent_setter v o).
Proof.
  unfold flag_agrees. destruct v; simpl; split; intro H; congruence.
Qed.

(** C10.  The [body] setter of an agent, given a body, makes the body
    refer back to the agent and sets its [is_body] flag; assigning [None] to
    the body's [agent] clears both; [is_body] is true exactly when [agent]
    is not [None], from construction on and through both setters. *)
Theorem body_back_reference :
  (forall U (h : Heap U) a b,
      let h' := body_setter a (Some b) h in
      _body (agts h' a) = Some b /\
      agent (objs h' b) = Some a /\ is_body (objs h' b) = true) /\
  (forall o, agent (agent_setter None o) = None /\
             is_body (agent_setter None o) = false) /\
  (forall x0 y0 a0, flag_agrees (Object__init__ x0 y0 a0)) /\
  (forall v o, flag_agrees (agent_setter v o)) /\
  (forall U (h : Heap U) a v,
      (forall o, flag_agrees (objs h o)) ->
      forall o, flag_agrees (objs (body_setter a v h) o)).
Proof.
  split; [|split; [|split; [|split]]].
  - intros U h a b. simpl. unfold upd. rewrite !Nat.eqb_refl. simpl. auto.
  - intro o. split; reflexivity.
  - intros x0 y0 a0. unfold flag_agrees. simpl. split; intro H; congruence.
  - apply agent_setter_flag.
  - intros U h a v Hh o. unfold body_setter. destruct v as [b|].
    + unfold set_obj, objs at 1, upd at 1.
      destruct (Nat.eqb o b); [apply agent_setter_flag|apply Hh].
    + apply Hh.
Qed.

Definition fresh_heap : Heap unit :=
  mkHeap (fun _ => Object__init__ 0 0 0) (fun _ => Agent__init__) tt.

Lemma body_back_reference_witness :
  (forall o, flag_agrees (objs fresh_heap o)) /\
  forall o, flag_agrees (objs (body_setter 0%nat (Some 3%nat) fresh_heap) o).
Proof.
  assert (H : forall o, flag_agrees (objs fresh_heap o)).
  { intro o. unfold flag_agrees. simpl. split; intro E; congruence. }
  split; [exact H|].
  exact (proj2 (proj2 (proj2 (proj2 body_back_reference)))
           unit fresh_heap 0%nat (Some 3%nat) H).
Defined.

Example body_of_fresh_agent :
  let h := body_setter 0%nat (Some 3%nat) fresh_heap in
  _body (agts h 0%nat) = Some 3%nat /\
  agent (objs h 3%nat) = Some 0%nat /\
  is_body (objs h 3%nat) = true /\
  is_body (objs h 2%nat) = false.
Proof. repeat split. Qed.

End Bodies.

(** ** Pausing *)

Section Pausing.

Import core.

(** C4.  While [paused] is true, [update] of [World], [World2D] and
    [World2DGrid] returns with the whole state as it was, for any [delta]
    and whatever the agents and objects would do; when it is false nothing
    else stands between the call and the three phases of the tick. *)
Theorem paused_update_is_noop :
  (forall U X (B : Behaviour U X) delta (s : State U X),
      paused (self s) = true -> World_update B delta s = Return s) /\
  (forall U (B : Behaviour U World2D) delta s,
      paused (self s) = true -> World2D_update B delta s = Return s) /\
  (forall U (B : Behaviour U World2DGrid) delta s,
      paused (self s) = true -> World2DGrid_update B delta s = Return s) /\
  (forall U X (B : Behaviour U X) delta (s : State U X),
      paused (self s) = false ->
      World_update B delta s =
      (World_process_agents B delta ;; World_update_objects B delta ;;
       World__remove_dead_agents World_remove_object) s) /\
  (forall U (B : Behaviour U World2D) delta s,
      paused (self s) = false ->
      World2D_update B delta s =
      (World_process_agents B delta ;; World2D_update_objects B delta ;;
       World__remove_dead_agents World_remove_object) s) /\
  (forall U (B : Behaviour U World2DGrid) delta s,
      paused (self s) = false ->
      World2DGrid_update B delta s =
      (World2DGrid_process_agents B delta ;; World2DGrid_update_objects B delta ;;
       World__remove_dead_agents World2DGrid_remove_object) s).
Proof.
  repeat split; intros;
    unfold World_update, World2D_update, World2DGrid_update;
    rewrite H; reflexivity.
Qed.

(** A world of each class, paused, whose agent and objects would move. *)
Definition paused_world : State unit unit :=
  start one_agent_heap (one_agent_world true) tt.

Definition paused_world2D : State unit World2D :=
  start one_agent_heap (one_agent_world true) (mkWorld2D 10 10).

Definition paused_grid : State unit World2DGrid :=
  start one_agent_heap (one_agent_world true) (snd (World2DGrid__init__ 3 3 false)).

Lemma paused_update_is_noop_witness :
  World_update drifting 1 paused_world = Return paused_world /\
  World2D_update drifting 1 paused_world2D = Return paused_world2D /\
  World2DGrid_update drifting 1 paused_grid = Return paused_grid.
Proof.
  split; [|split].
  - apply (proj1 paused_update_is_noop). reflexivity.
  - apply (proj1 (proj2 paused_update_is_noop)). reflexivity.
  - apply (proj1 (proj2 (proj2 paused_update_is_noop))). reflexivity.
Defined.

(** The same world, not paused, does move. *)
Example unpaused_update_moves :
  let r := World2D_update drifting 1
             (start one_agent_heap (one_agent_world false) (mkWorld2D 10 10)) in
  raised r = None /\
  x (obj (final r) 0%nat) == 2 /\ x (obj (final r) 1%nat) == 1.
Proof. vm_compute. repeat split. Qed.

(** The calls of one tick of that world, in order. *)
Example unpaused_update_calls :
  calls (final (World_update drifting 1
                  (start one_agent_heap (one_agent_world false) tt)))
  = [Agent_update_called 0%nat 1; Perception_update_called 5%nat 0%nat;
     Agent__think_called 0%nat 1; Action_execute_called 7%nat 0%nat;
     Object_update_called 0%nat 1; Object_update_called 1%nat 1].
Proof. vm_compute. reflexivity. Qed.

End Pausing.

(** ** Influence maps *)

Section InfluenceMaps.

Import influence.

Variable math_sqrt : Q -> Q.

(** The array has [map_height] rows of [map_width] values, as the
    constructor builds it. *)
Definition well_formed (m : InfluenceMap) : Prop :=
  length (_imap m) = Z.to_nat (map_height m) /\
  Forall (fun row => length row = Z.to_nat (map_width m)) (_imap m).

Lemma InfluenceMap__init__well_formed w h sec mx m :
  InfluenceMap__init__ w h sec mx = Some m -> well_formed m.
Proof.
  unfold InfluenceMap__init__.
  destruct (Py.floordiv w sec) as [mw|]; [|discriminate].
  destruct (Py.floordiv h sec) as [mh|]; [|discriminate].
  intro E. injection E as <-. split; simpl.
  - unfold Py.range. rewrite !length_map, length_seq. reflexivity.
  - apply Forall_forall. intros row Hrow. apply in_map_iff in Hrow as (z & <- & _).
    apply repeat_length.
Qed.

(** The value at row [r], column [c] of the array. *)
Definition cell (m : InfluenceMap) (r c : nat) : Q :=
  nth c (nth r (_imap m) []) 0.

(** The centre of the sector of index [k] along one axis. *)
Definition centre (m : InfluenceMap) (k : Z) : Q :=
  inject_Z k * sector m + sector m / 2.

(** The value of one emitter at a point, where it has one. *)
Definition value_at (i : Influence) (px py : Q) : Q :=
  match Influence_get_value math_sqrt i px py with
  | Some v => v
  | None => 0
  end.

(** The sum, over the emitters of a list, of their values at a point. *)
Fixpoint total_influence (l : list Influence) (px py : Q) : Q :=
  match l with
  | [] => 0
  | i :: l' => value_at i px py + total_influence l' px py
  end.

Lemma accumulate_total l px py a :
  (forall i, In i l -> Influence_get_value math_sqrt i px py <> None) ->
  exists a', accumulate math_sqrt l px py a = Some a' /\
             a' == a + total_influence l px py.
Proof.
  revert a. induction l as [|i l IH]; intros a Hdef; simpl.
  - exists a. split; [reflexivity|ring].
  - unfold value_at.
    destruct (Influence_get_value math_sqrt i px py) as [v|] eqn:E.
    + destruct (IH (a + v)) as (a' & Ha & Heq).
      { intros j Hj. apply Hdef. right. exact Hj. }
      exists a'. split; [exact Ha|]. rewrite Heq. ring.
    + exfalso. apply (Hdef i); [left; reflexivity|exact E].
Qed.

(** Capping as [update] writes it agrees with the minimum. *)
Lemma cap_is_min a t mx :
  a == t -> (if Py.ltb mx a then mx else a) == Qmin t mx.
Proof.
  intro E. destruct (Py.ltb mx a) eqn:L.
  - apply Py.ltb_true_inv in L. symmetry. apply Q.min_r. rewrite <- E.
    apply Qlt_le_weak. exact L.
  - apply Py.ltb_false_inv in L. rewrite E. symmetry. apply Q.min_l.
    rewrite <- E. exact L.
Qed.

(** Everything but the array and the [dirty] flag. *)
Definition same_setup (m m' : InfluenceMap) : Prop :=
  width m' = width m /\ height m' = height m /\
  map_width m' = map_width m /\ map_height m' = map_height m /\
  sector m' = sector m /\ maximum m' = maximum m /\ _ilist m' = _ilist m.

Lemma same_setup_refl m : same_setup m m.
Proof. repeat split. Qed.

Lemma same_setup_trans a b c : same_setup a b -> same_setup b c -> same_setup a c.
Proof.
  unfold same_setup. intros (?&?&?&?&?&?&?) (?&?&?&?&?&?&?).
  repeat split; congruence.
Qed.

Section OneUpdate.

Variable m0 : InfluenceMap.

Hypothesis emitters_defined :
  forall i, In i (_ilist m0) -> forall px py,
      Influence_get_value math_sqrt i px py <> None.

(** What [update] leaves at row [cy], column [cx]. *)
Definition written (cy cx : Z) : Q :=
  let a := match accumulate math_sqrt (_ilist m0) (centre m0 cx) (centre m0 cy) 0 with
           | Some a => a
           | None => 0
           end in
  if Py.ltb (maximum m0) a then maximum m0 else a.

Lemma written_spec cy cx :
  written cy cx ==
  Qmin (total_influence (_ilist m0) (centre m0 cx) (centre m0 cy)) (maximum m0).
Proof.
  unfold written.
  destruct (accumulate_total (_ilist m0) (centre m0 cx) (centre m0 cy) 0)
    as (a & Ha & Heq).
  { intros i Hi. apply emitters_defined. exact Hi. }
  rewrite Ha. apply cap_is_min. rewrite Heq. ring.
Qed.

Definition during (s : State) : Prop :=
  same_setup m0 (self s) /\ well_formed (self s).

Lemma update_cell_effect cy cx s :
  during s ->
  (0 <= cy < map_height m0)%Z -> (0 <= cx < map_width m0)%Z ->
  exists s', update_cell math_sqrt cy cx s = Return s' /\
             during s' /\
             forall r c, cell (self s') r c =
                         if Nat.eqb r (Z.to_nat cy) && Nat.eqb c (Z.to_nat cx)
                         then written cy cx else cell (self s) r c.
Proof.
  intros [Hset [Hlen Hrows]] Hcy Hcx.
  destruct Hset as (Hw & Hh & Hmw & Hmh & Hsec & Hmax & Hil).
  unfold update_cell.
  destruct (accumulate_total (_ilist m0) (centre m0 cx) (centre m0 cy) 0)
    as (a & Ha & _).
  { intros i Hi. apply emitters_defined. exact Hi. }
  unfold centre in Ha. rewrite Hil, Hsec, Ha, Hmax.
  assert (Hcy' : (0 <= cy < Z.of_nat (length (_imap (self s))))%Z) by lia.
  rewrite getitem_in_range by exact Hcy'.
  destruct (nth_error (_imap (self s)) (Z.to_nat cy)) as [row|] eqn:Erow.
  2:{ apply nth_error_None in Erow. lia. }
  assert (Hrow : length row = Z.to_nat (map_width (self s))).
  { apply nth_error_In in Erow. rewrite Forall_forall in Hrows.
    apply Hrows. exact Erow. }
  rewrite setitem_in_range by lia.
  rewrite setitem_in_range by exact Hcy'.
  eexists. split; [reflexivity|]. split; [split|].
  - repeat split; simpl; assumption.
  - split; simpl.
    + rewrite set_nth_length. exact Hlen.
    + apply Forall_forall. intros row' Hin.
      apply In_nth_error in Hin as (k & Hk).
      destruct (Nat.eq_dec k (Z.to_nat cy)) as [->|NE].
      * rewrite nth_error_set_nth_same in Hk by lia.
        injection Hk as <-. rewrite set_nth_length. exact Hrow.
      * rewrite nth_error_set_nth_other in Hk by exact NE.
        apply nth_error_In in Hk. rewrite Forall_forall in Hrows.
        apply Hrows. exact Hk.
  - intros r c. unfold cell. simpl.
    destruct (Nat.eqb_spec r (Z.to_nat cy)) as [->|NE]; simpl.
    + rewrite nth_set_nth_same by lia.
      destruct (Nat.eqb_spec c (Z.to_nat cx)) as [->|NE'].
      * rewrite nth_set_nth_same by lia.
        unfold written, centre. rewrite Ha. reflexivity.
      * rewrite nth_set_nth_other by exact NE'.
        rewrite (nth_error_to_nth _ _ _ [] Erow). reflexivity.
    + rewrite nth_set_nth_other by exact NE. reflexivity.
Qed.

Definition row_written (cy : Z) (s : State) : Prop :=
  forall cx, (0 <= cx < map_width m0)%Z ->
             cell (self s) (Z.to_nat cy) (Z.to_nat cx) = written cy cx.

(** One turn of the outer loop: the inner loop over the columns. *)
Definition update_row (cy : Z) : M State :=
  fun s => for_each (Py.range (map_width (self s)))
             (fun cx => update_cell math_sqrt cy cx) s.

Lemma update_row_total cy :
  (0 <= cy < map_height m0)%Z -> total during (update_row cy) during.
Proof.
  intros Hcy s Hs. unfold update_row.
  replace (map_width (self s)) with (map_width m0)
    by (symmetry; apply (proj1 Hs)).
  revert s Hs. apply total_for_each. intros cx Hcx s Hs.
  apply range_In in Hcx.
  destruct (update_cell_effect cy cx s Hs Hcy Hcx) as (s' & E & Hd & _).
  exists s'. split; assumption.
Qed.

Lemma update_row_writes cy :
  (0 <= cy < map_height m0)%Z ->
  hoare during (update_row cy) (fun s => during s /\ row_written cy s).
Proof.
  intros Hcy s s' Hs. unfold update_row.
  replace (map_width (self s)) with (map_width m0)
    by (symmetry; apply (proj1 Hs)).
  intro E.
  pose proof (hoare_for_each_done during
                (fun cx s => cell (self s) (Z.to_nat cy) (Z.to_nat cx) = written cy cx)
                (Py.range (map_width m0))
                (fun cx => update_cell math_sqrt cy cx)) as H.
  destruct (H) with (s := s) (s' := s') as [Hd Hall]; try assumption.
  - intros cx Hcx t t' Ht Et. apply range_In in Hcx.
    destruct (update_cell_effect cy cx t Ht Hcy Hcx) as (t'' & E' & Hd & Hc).
    rewrite Et in E'. injection E' as <-. split; [exact Hd|].
    rewrite Hc, !Nat.eqb_refl. reflexivity.
  - intros a b Ha Hb t t' [Ht Hb'] Et. apply range_In in Ha. apply range_In in Hb.
    destruct (update_cell_effect cy a t Ht Hcy Ha) as (t'' & E' & Hd & Hc).
    rewrite Et in E'. injection E' as <-.
    rewrite Hc, Nat.eqb_refl. simpl.
    destruct (Nat.eqb_spec (Z.to_nat b) (Z.to_nat a)) as [Eab|NE].
    + replace b with a by lia. reflexivity.
    + exact Hb'.
  - split; [exact Hd|]. intros cx Hcx. apply Hall. apply range_In. exact Hcx.
Qed.

Lemma update_row_keeps cy b :
  (0 <= cy < map_height m0)%Z -> (0 <= b < map_height m0)%Z -> cy <> b ->
  hoare (fun s => during s /\ row_written b s) (update_row cy) (row_written b).
Proof.
  intros Hcy Hb NE s s' [Hs Hw]. unfold update_row.
  replace (map_width (self s)) with (map_width m0)
    by (symmetry; apply (proj1 Hs)).
  intro E.
  assert (G : hoare (fun s => during s /\ row_written b s)
                    (for_each (Py.range (map_width m0))
                              (fun cx => update_cell math_sqrt cy cx))
                    (fun s => during s /\ row_written b s)).
  { apply hoare_for_each. intros cx Hcx t t' [Ht Hbt] Et. apply range_In in Hcx.
    destruct (update_cell_effect cy cx t Ht Hcy Hcx) as (t'' & E' & Hd & Hc).
    rewrite Et in E'. injection E' as <-. split; [exact Hd|].
    intros c Hc'. rewrite Hc.
    destruct (Nat.eqb_spec (Z.to_nat b) (Z.to_nat cy)) as [Eq|_]; [lia|].
    simpl. apply Hbt. exact Hc'. }
  exact (proj2 (G s s' (conj Hs Hw) E)).
Qed.

Lemma update_rows_total :
  total during
    (for_each (Py.range (map_height m0)) update_row)
    (fun s => during s /\
              forall cy, (0 <= cy < map_height m0)%Z -> row_written cy s).
Proof.
  apply total_conj with (Q := during)
                        (Q' := fun s => forall cy, (0 <= cy < map_height m0)%Z ->
                                                   row_written cy s).
  - apply total_for_each. intros cy Hcy. apply update_row_total.
    apply range_In. exact Hcy.
  - pose proof (hoare_for_each_done during row_written
                  (Py.range (map_height m0)) update_row) as H.
    intros s s' Hs E.
    destruct H with (s := s) (s' := s') as [_ Hall]; try assumption.
    + intros cy Hcy. apply update_row_writes. apply range_In. exact Hcy.
    + intros a b Ha Hb. apply range_In in Ha. apply range_In in Hb.
      destruct (Z.eq_dec a b) as [->|NE].
      * intros t t' [Ht _] Et. exact (proj2 (update_row_writes b Hb t t' Ht Et)).
      * apply update_row_keeps; assumption.
    + intros cy Hcy. apply Hall. apply range_In. exact Hcy.
Qed.

End OneUpdate.

Lemma get_grid_value_cell m cy cx :
  well_formed m ->
  (0 <= cy < map_height m)%Z -> (0 <= cx < map_width m)%Z ->
  get_grid_value m cx cy = inr (cell m (Z.to_nat cy) (Z.to_nat cx)).
Proof.
  intros [Hlen Hrows] Hcy Hcx. unfold get_grid_value, cell.
  rewrite getitem_in_range by lia.
  destruct (nth_error (_imap m) (Z.to_nat cy)) as [row|] eqn:Erow.
  2:{ apply nth_error_None in Erow. lia. }
  assert (Hrow : length row = Z.to_nat (map_width m)).
  { apply nth_error_In in Erow. rewrite Forall_forall in Hrows.
    apply Hrows. exact Erow. }
  rewrite getitem_in_range by lia.
  destruct (nth_error row (Z.to_nat cx)) as [v|] eqn:Ev.
  2:{ apply nth_error_None in Ev. lia. }
  rewrite (nth_error_to_nth _ _ _ [] Erow), (nth_error_to_nth _ _ _ 0 Ev).
  reflexivity.
Qed.

(** C7.  After [update] every cell [[y][x]] of the array holds the sum,
    over the emitters placed on the map, of their values at the centre
    [(x*sector + sector/2, y*sector + sector/2)] of the cell, capped above at
    the map's [maximum]; [update] returns whenever the array has the shape
    the constructor gave it and every emitter has a value everywhere. *)
Theorem influence_map_update_cells :
  forall s,
    well_formed (self s) ->
    (forall i, In i (_ilist (self s)) -> forall px py,
          Influence_get_value math_sqrt i px py <> None) ->
    exists s',
      update math_sqrt s = Return s' /\
      forall cy cx,
        (0 <= cy < map_height (self s))%Z -> (0 <= cx < map_width (self s))%Z ->
        exists v,
          get_grid_value (self s') cx cy = inr v /\
          v == Qmin (total_influence (_ilist (self s))
                       (inject_Z cx * sector (self s) + sector (self s) / 2)
                       (inject_Z cy * sector (self s) + sector (self s) / 2))
                    (maximum (self s)).
Proof.
  intros s Hwf Hdef.
  destruct (update_rows_total (self s) Hdef s) as (s' & E & [Hset Hwf'] & Hw).
  { split; [apply same_setup_refl|exact Hwf]. }
  exists (mkState (with_dirty (Some true) (self s')) (stdout s')). split.
  - unfold update.
    erewrite andThen_Return; [reflexivity|].
    destruct Hset as (_ & _ & _ & Hmh & _). exact E.
  - intros cy cx Hcy Hcx.
    exists (written (self s) cy cx). split.
    + destruct Hset as (_ & _ & Hmw & Hmh & _).
      rewrite get_grid_value_cell.
      * unfold cell. simpl. f_equal. apply (Hw cy Hcy cx Hcx).
      * destruct Hwf' as [H1 H2]. split; simpl; assumption.
      * simpl. lia.
      * simpl. lia.
    + apply written_spec. exact Hdef.
Qed.

(** [update] changes the array and the flag only, returning or not. *)
Lemma update_cell_keeps_setup cy cx :
  keeps (fun s s' => same_setup (self s) (self s') /\ stdout s' = stdout s)
        (update_cell math_sqrt cy cx).
Proof.
  intro s. unfold update_cell.
  destruct (accumulate _ _ _ _ _); [|split; [apply same_setup_refl|reflexivity]].
  destruct (Py.getitem _ _); [|split; [apply same_setup_refl|reflexivity]].
  destruct (Py.setitem _ _ _); [|split; [apply same_setup_refl|reflexivity]].
  destruct (Py.setitem _ _ _); [|split; [apply same_setup_refl|reflexivity]].
  simpl. repeat split.
Qed.

Lemma update_keeps_setup :
  keeps (fun s s' => same_setup (self s) (self s') /\ stdout s' = stdout s)
        (update math_sqrt).
Proof.
  assert (Hr : forall a : State, same_setup (self a) (self a) /\ stdout a = stdout a).
  { intro a. split; [apply same_setup_refl|reflexivity]. }
  assert (Ht : forall a b c : State,
             same_setup (self a) (self b) /\ stdout b = stdout a ->
             same_setup (self b) (self c) /\ stdout c = stdout b ->
             same_setup (self a) (self c) /\ stdout c = stdout a).
  { intros a b c [H1 H2] [H3 H4]. split; [|congruence].
    eapply same_setup_trans; eassumption. }
  unfold update. apply keeps_andThen; [exact Ht| |].
  - intro s. apply (keeps_for_each _ _ _ Hr Ht). intros cy t.
    apply (keeps_for_each _ _ _ Hr Ht). intro cx. apply update_cell_keeps_setup.
  - intro s. simpl. repeat split.
Qed.

(** C8.  [get_value] returns 0 at every point on or outside the boundary
    of the map, whatever the array holds, while [place] accepts an emitter
    that lies on the boundary. *)
Theorem get_value_zero_on_boundary :
  (forall m px py,
      px <= 0 \/ width m <= px \/ py <= 0 \/ height m <= py ->
      get_value m px py = inr 0 /\
      forall g, get_value (with_imap g m) px py = inr 0) /\
  (forall c upd s,
      0 <= x c <= width (self s) -> 0 <= y c <= height (self s) ->
      _ilist (self (final (place math_sqrt (Circular c) upd s)))
      = _ilist (self s) ++ [Circular c] /\
      stdout (final (place math_sqrt (Circular c) upd s)) = stdout s).
Proof.
  split.
  - intros m px py H.
    assert (G : forall g, get_value (with_imap g m) px py = inr 0).
    { intro g. unfold get_value. simpl.
      destruct H as [H|[H|[H|H]]].
      - rewrite (Py.ltb_false _ _ H). reflexivity.
      - rewrite (Py.ltb_false _ _ H), andb_false_r. reflexivity.
      - rewrite (Py.ltb_false _ _ H), andb_false_r. reflexivity.
      - rewrite (Py.ltb_false _ _ H), !andb_false_r. reflexivity. }
    split; [|exact G].
    specialize (G (_imap m)). unfold get_value in *. simpl in G.
    destruct (Py.ltb 0 px && Py.ltb px (width m) &&
              (Py.ltb 0 py && Py.ltb py (height m))); [|reflexivity].
    destruct (Py.floordiv px (sector m)), (Py.floordiv py (sector m));
      try discriminate G; exact G.
  - intros c upd s [Hx0 Hx1] [Hy0 Hy1]. unfold place.
    rewrite (Py.leb_true _ _ Hx0), (Py.leb_true _ _ Hx1),
            (Py.leb_true _ _ Hy0), (Py.leb_true _ _ Hy1). simpl.
    unfold andThen, on_self. destruct upd.
    + pose proof (update_keeps_setup
                    (mkState (with_ilist (_ilist (self s) ++ [Circular c]) (self s))
                             (stdout s))) as [Hset Hout].
      destruct Hset as (_ & _ & _ & _ & _ & _ & Hil).
      split; [exact Hil|exact Hout].
    + split; reflexivity.
Qed.

End InfluenceMaps.

Section InfluenceSamples.

Import influence.

(** A stand-in for [math.sqrt] on the sample maps. *)
Definition sample_sqrt (q : Q) : Q := inject_Z (Z.sqrt (Qfloor q)).

(** An emitter of strength 1 and radius 2 in the corner [(0, 4)]. *)
Definition corner_emitter : CircularInfluence :=
  mkCircularInfluence 0 4 1 2 (2 / 3) (1 / 2) true (1 # 1000) 0 linear_diffuse_f.

(** A 4 x 4 map of sector 2, as constructed, with the emitter listed. *)
Definition sample_map : InfluenceMap :=
  mkInfluenceMap 4 4 2 2 2 1 (Some true) [[0; 0]; [0; 0]] [Circular corner_emitter].

Example sample_map_constructed :
  option_map (with_ilist [Circular corner_emitter]) (InfluenceMap__init__ 4 4 2 1)
  = Some sample_map.
Proof. reflexivity. Qed.

Lemma influence_map_update_cells_witness :
  well_formed sample_map /\
  exists s',
    update sample_sqrt (mkState sample_map []) = Return s' /\
    forall cy cx,
      (0 <= cy < 2)%Z -> (0 <= cx < 2)%Z ->
      exists v,
        get_grid_value (self s') cx cy = inr v /\
        v == Qmin (total_influence sample_sqrt [Circular corner_emitter]
                     (inject_Z cx * 2 + 2 / 2) (inject_Z cy * 2 + 2 / 2)) 1.
Proof.
  assert (Hwf : well_formed sample_map).
  { split; [reflexivity|]. repeat constructor. }
  split; [exact Hwf|].
  apply (influence_map_update_cells sample_sqrt (mkState sample_map []) Hwf).
  intros i [<-|[]] px py. discriminate.
Defined.

Example sample_map_updated :
  let r := update sample_sqrt (mkState sample_map []) in
  raised r = None /\
  get_grid_value (self (final r)) 0 1 = inr (1 # 2) /\
  get_grid_value (self (final r)) 1 0 = inr 0.
Proof. vm_compute. repeat split. Qed.

Lemma get_value_zero_on_boundary_witness :
  (0 <= 0 \/ width sample_map <= 0 \/ 4 <= 0 \/ height sample_map <= 4) /\
  get_value sample_map 0 4 = inr 0 /\
  (0 <= x corner_emitter <= width sample_map /\
   0 <= y corner_emitter <= height sample_map) /\
  _ilist (self (final (place sample_sqrt (Circular corner_emitter) true
                         (mkState (with_ilist [] sample_map) []))))
  = [Circular corner_emitter].
Proof.
  assert (H1 : 0 <= 0 \/ width sample_map <= 0 \/ 4 <= 0 \/ height sample_map <= 4).
  { left. apply Qle_refl. }
  assert (H2 : 0 <= x corner_emitter <= width sample_map).
  { split; unfold Qle; simpl; lia. }
  assert (H3 : 0 <= y corner_emitter <= height sample_map).
  { split; unfold Qle; simpl; lia. }
  split; [exact H1|]. split; [|split; [split; assumption|]].
  - exact (proj1 (proj1 (get_value_zero_on_boundary sample_sqrt) sample_map 0 4 H1)).
  - exact (proj1 (proj2 (get_value_zero_on_boundary sample_sqrt) corner_emitter true
                    (mkState (with_ilist [] sample_map) []) H2 H3)).
Defined.

End InfluenceSamples.

(** ** Misuse of the removal operations *)

Section Removal.

Import core.

Context {U X : Type}.

Definition remove_object_warning : string :=
  "Trying to remove an object that is not present in the             world, or is the body of an agent!".

Definition remove_agent_warning : string :=
  "Warning: Trying to remove an agent that is not in the list.".

(** What [print] does: one more line on the console, nothing else. *)
Lemma print_effect msg (s : State U X) :
  exists s', print msg s = Return s' /\
             stdout s' = stdout s ++ [msg] /\
             heap s' = heap s /\ self s' = self s /\ ext s' = ext s.
Proof. eexists. split; [reflexivity|]. repeat split. Qed.

(** [World.remove_object] of an absent object or of a body only warns. *)
Lemma World_remove_object_misuse o (s : State U X) :
  is_body (obj s o) = true \/ contains (_objects (self s)) o = false ->
  World_remove_object o s = print remove_object_warning s.
Proof.
  intro H. unfold World_remove_object.
  destruct H as [H|H]; rewrite H; [reflexivity|].
  rewrite andb_false_r. reflexivity.
Qed.

(** [World._remove_agent] of an agent that is not in the world only warns. *)
Lemma World__remove_agent_misuse a (s : State U X) :
  contains (_agents (self s)) a = false ->
  World__remove_agent a s = print remove_agent_warning s.
Proof. intro H. unfold World__remove_agent. rewrite H. reflexivity. Qed.

End Removal.

Section GridRemoval.

Import core.

Context {U : Type}.

(** [World2DGrid.remove_object] of a body only warns. *)
Lemma World2DGrid_remove_object_body o (s : State U World2DGrid) :
  is_body (obj s o) = true ->
  World2DGrid_remove_object o s = print remove_object_warning s.
Proof.
  intro H. unfold World2DGrid_remove_object, andThen.
  rewrite World_remove_object_misuse by (left; exact H).
  unfold obj in *. simpl. rewrite H. reflexivity.
Qed.

(** [World2DGrid.remove_object] of an object that is in no list warns and
    then raises, from the cell's [remove]. *)
Lemma World2DGrid_remove_object_absent o (s : State U World2DGrid) row c :
  is_body (obj s o) = false ->
  contains (_objects (self s)) o = false ->
  Py.getitem (_grid (ext s)) (Py.round (y (obj s o))) = Some row ->
  Py.getitem row (Py.round (x (obj s o))) = Some c ->
  contains c o = false ->
  exists s', World2DGrid_remove_object o s = Raise ValueError s' /\
             print remove_object_warning s = Return s'.
Proof.
  intros Hb Hin Hrow Hc Hno. eexists. split; [|reflexivity].
  unfold World2DGrid_remove_object, andThen.
  rewrite World_remove_object_misuse by (right; exact Hin).
  unfold obj in *. simpl. rewrite Hb. simpl.
  unfold grid_remove. simpl. rewrite Hrow, Hc, Hno. reflexivity.
Qed.

End GridRemoval.

Section RemovalFailure.

Import core.

(** C3.  [World2DGrid.remove_object], called on a 1 x 1 grid world with an
    object that was never added, prints the warning and then raises
    [ValueError]; the lists and the grid are as they were. *)
Theorem grid_remove_absent_object_raises :
  let r := World2DGrid_remove_object 0%nat (empty_grid 1 1 false) in
  raised r = Some ValueError /\
  stdout (final r) = [remove_object_warning] /\
  self (final r) = self (empty_grid 1 1 false) /\
  ext (final r) = ext (empty_grid 1 1 false).
Proof. vm_compute. repeat split. Qed.

End RemovalFailure.

(** ** What the operations of [World] leave alone *)

Section WorldFrames.

Import core.

Context {U X : Type}.
Variable B : Behaviour U X.

(** The part of the state that the bounds and the grid index depend on:
    where every object is, which objects the world holds, and the attributes
    of the world's subclass. *)
Definition same_view (s s' : State U X) : Prop :=
  (forall o, x (obj s' o) = x (obj s o) /\ y (obj s' o) = y (obj s o)) /\
  _objects (self s') = _objects (self s) /\
  ext s' = ext s.

Lemma same_view_refl s : same_view s s.
Proof. repeat split. Qed.

Lemma same_view_trans a b c : same_view a b -> same_view b c -> same_view a c.
Proof.
  intros (H1 & H2 & H3) (H4 & H5 & H6). split; [|split; congruence].
  intro o. destruct (H1 o), (H4 o). split; congruence.
Qed.




Lemma keeps_hoare (R : State U X -> State U X -> Prop) (I : State U X -> Prop) f :
  keeps R f -> (forall s s', R s s' -> I s -> I s') -> hoare I f I.
Proof.
  intros Hk Hr s s' HI E. apply (Hr s s'); [|exact HI].
  exact (keeps_Return R f s s' Hk E).
Qed.

Lemma called_view e : keeps same_view (called (U:=U) (X:=X) e).
Proof. intro s. repeat split. Qed.

Lemma print_view msg : keeps same_view (print (U:=U) (X:=X) msg).
Proof. intro s. repeat split. Qed.

Lemma modify_agt_view a f : keeps same_view (modify_agt (U:=U) (X:=X) a f).
Proof. intro s. repeat split. Qed.

Lemma World__remove_agent_view a : keeps same_view (World__remove_agent (U:=U) (X:=X) a).
Proof.
  intro s. unfold World__remove_agent.
  destruct (contains (_agents (self s)) a); repeat split.
Qed.

Lemma agent_setter_xy v o :
  x (agent_setter v o) = x o /\ y (agent_setter v o) = y o.
Proof. destruct v; split; reflexivity. Qed.

Lemma modify_obj_agent_view b v :
  keeps same_view (modify_obj (U:=U) (X:=X) b (agent_setter v)).
Proof.
  intro s. split; [|split; reflexivity].
  intro o. unfold modify_obj, obj. simpl. unfold upd.
  destruct (Nat.eqb o b) eqn:E; [|split; reflexivity].
  apply Nat.eqb_eq in E. subst. apply agent_setter_xy.
Qed.

(** [_remove_dead_agents] keeps whatever depends on the view only and is
    kept by the [remove_object] it calls. *)
Lemma remove_dead_hoare (I : State U X -> Prop) remove_object :
  (forall s s', same_view s s' -> I s -> I s') ->
  (forall o, hoare I (remove_object o) I) ->
  hoare I (World__remove_dead_agents remove_object) I.
Proof.
  intros Hv Hr. unfold World__remove_dead_agents.
  apply hoare_andThen with (Q := I).
  - intros s s' HI E. eapply (hoare_for_each I); [|exact HI|exact E].
    intros a _.
    apply hoare_andThen with (Q := I).
    + apply (keeps_hoare same_view); [apply World__remove_agent_view|exact Hv].
    + clear s s' HI E. intros t t' HI E. cbv beta zeta in E.
      destruct (_body (agt t a)) as [b|].
      * assert (G : hoare I
                  (run (fun s1 => body_setter a None (heap s1)) ;;
                   modify_obj b (agent_setter None) ;;
                   fun s1 => if negb (keep_body_on_death (agt s1 a))
                             then remove_object b s1 else Return s1) I).
        { apply hoare_andThen with (Q := I);
            [apply (keeps_hoare same_view); [intro u; repeat split|exact Hv]|].
          apply hoare_andThen with (Q := I);
            [apply (keeps_hoare same_view); [apply modify_obj_agent_view|exact Hv]|].
          intros u u' Hu Eu.
          destruct (negb (keep_body_on_death (agt u a))).
          - exact (Hr b u u' Hu Eu).
          - injection Eu as <-. exact Hu. }
        exact (G t t' HI E).
      * unfold andThen, run in E. discriminate E.
  - intros s s' HI E. injection E as <-. eapply Hv; [|exact HI]. repeat split.
Qed.



End WorldFrames.

(** ** The calls of a tick *)

Section Ticks.

Import core.

Context {U X : Type}.
Variable B : Behaviour U X.

(** The agents whose [update] a record of calls shows, in order. *)
Definition updated (l : list event) : list aid :=
  flat_map (fun e => match e with
                     | Agent_update_called a _ => [a]
                     | _ => []
                     end) l.

Lemma updated_app l1 l2 : updated (l1 ++ l2) = updated l1 ++ updated l2.
Proof. apply flat_map_app. Qed.

(** No method of the users changes an attribute of an agent: nobody is
    killed and no body is exchanged during the tick. *)
Definition agents_untouched : Prop :=
  (forall p a s a', agts (Perception_update B p a s) a' = agt s a') /\
  (forall a delta s a', agts (fst (Agent__think B a delta s)) a' = agt s a') /\
  (forall action a s a', agts (Action_execute B action a s) a' = agt s a') /\
  (forall o delta s a', agts (Object_update B o delta s) a' = agt s a').

(** A loop of calls to users' methods: it returns, records its calls in
    order and leaves the world's containers alone. *)
Lemma calling_loop {A} (ev : A -> event) (H : A -> State U X -> Heap U)
      (l : list A) (s : State U X) :
  exists s',
    for_each l (fun v => called (ev v) ;; run (H v)) s = Return s' /\
    calls s' = calls s ++ map ev l /\
    self s' = self s /\ ext s' = ext s /\
    _perceptions s' = _perceptions s /\ stdout s' = stdout s /\
    ((forall v t a', agts (H v t) a' = agt t a') ->
     forall a', agt s' a' = agt s a').
Proof.
  revert s. induction l as [|v l IH]; intro s; simpl.
  - exists s. split; [reflexivity|]. rewrite app_nil_r. repeat split.
  - unfold andThen at 1. unfold andThen at 1. simpl.
    destruct (IH (with_heap
                    (H v (mkState (heap s) (_perceptions s) (self s) (ext s)
                                  (stdout s) (calls s ++ [ev v])))
                    (mkState (heap s) (_perceptions s) (self s) (ext s)
                             (stdout s) (calls s ++ [ev v]))))
      as (s' & E & Hc & Hs & He & Hp & Ho & Ha).
    exists s'. split; [exact E|]. simpl in *.
    split; [rewrite Hc, <- app_assoc; reflexivity|].
    repeat (split; [assumption|]).
    intros Hun a'. rewrite (Ha Hun a'). unfold agt. simpl. apply Hun.
Qed.

(** [Agent.update] refreshes every perception, in the order of the table,
    then thinks, then executes the actions that [_think] returned, in
    order. *)
Lemma Agent_update_calls a delta (s : State U X) :
  exists s' t,
    Agent_update B a delta s = Return s' /\
    calls s' = calls s
               ++ Agent_update_called a delta
               :: map (fun p => Perception_update_called p a)
                      (map snd (_perceptions s a))
               ++ Agent__think_called a delta
               :: map (fun action => Action_execute_called action a)
                      (snd (Agent__think B a delta t)) /\
    self s' = self s /\ ext s' = ext s /\
    (agents_untouched -> forall a', agt s' a' = agt s a').
Proof.
  unfold Agent_update, Agent__update_perceptions.
  set (s0 := mkState (heap s) (_perceptions s) (self s) (ext s) (stdout s)
                     (calls s ++ [Agent_update_called a delta])).
  destruct (calling_loop (fun p => Perception_update_called p a)
              (fun p => Perception_update B p a) (map snd (_perceptions s a)) s0)
    as (s1 & E1 & C1 & S1 & X1 & P1 & O1 & A1).
  set (s2 := mkState (heap s1) (_perceptions s1) (self s1) (ext s1) (stdout s1)
                     (calls s1 ++ [Agent__think_called a delta])).
  set (s3 := with_heap (fst (Agent__think B a delta s2)) s2).
  destruct (calling_loop (fun action => Action_execute_called action a)
              (fun action => Action_execute B action a)
              (snd (Agent__think B a delta s2)) s3)
    as (s4 & E4 & C4 & S4 & X4 & P4 & O4 & A4).
  exists s4, s2. split.
  - unfold andThen at 1. simpl. fold s0.
    unfold andThen at 1. change (_perceptions s0 a) with (_perceptions s a).
    rewrite E1. unfold andThen at 1. simpl. fold s2.
    unfold andThen at 1. unfold run at 1. fold s3.
    destruct (snd (Agent__think B a delta s2)) as [|act acts] eqn:Eacts.
    + simpl in E4. exact E4.
    + exact E4.
  - split.
    + rewrite C4. simpl. rewrite C1. simpl.
      rewrite <- !app_assoc. reflexivity.
    + split; [rewrite S4; simpl; rewrite S1; reflexivity|].
      split; [rewrite X4; simpl; rewrite X1; reflexivity|].
      intros (Hp & Ht & Hact & _) a'.
      rewrite (A4 (fun v t a' => Hact v a t a') a').
      unfold agt at 1. simpl. rewrite (Ht a delta s2 a').
      unfold agt at 1. simpl. fold (agt s1 a').
      rewrite (A1 (fun v t a' => Hp v a t a') a'). reflexivity.
Qed.

Lemma updated_map_other {A} (ev : A -> event) (l : list A) :
  (forall v, updated [ev v] = []) -> updated (map ev l) = [].
Proof.
  intro H. induction l as [|v l IH]; [reflexivity|].
  change (map ev (v :: l)) with ([ev v] ++ map ev l).
  rewrite updated_app, H, IH. reflexivity.
Qed.

(** The first phase of the tick updates every agent that is alive, once
    and in order, and lists the dead ones. *)
Lemma World_process_agents_calls delta (s : State U X) :
  agents_untouched ->
  exists s',
    World_process_agents B delta s = Return s' /\
    updated (calls s') =
      updated (calls s)
      ++ filter (fun a => negb (is_dead (agt s a))) (_agents (self s)) /\
    _dead_agents (self s') =
      _dead_agents (self s)
      ++ filter (fun a => is_dead (agt s a)) (_agents (self s)) /\
    _agents (self s') = _agents (self s) /\
    _objects (self s') = _objects (self s) /\
    paused (self s') = paused (self s) /\
    forall a, agt s' a = agt s a.
Proof.
  intro Hun. unfold World_process_agents.
  assert (G : forall l t,
             exists s',
               for_each l
                 (fun a s0 =>
                    if negb (is_dead (agt s0 a))
                    then Agent_update B a delta s0
                    else Return (with_self (set__dead_agents
                                              (_dead_agents (self s0) ++ [a])
                                              (self s0)) s0)) t = Return s' /\
               updated (calls s') =
                 updated (calls t) ++ filter (fun a => negb (is_dead (agt t a))) l /\
               _dead_agents (self s') =
                 _dead_agents (self t) ++ filter (fun a => is_dead (agt t a)) l /\
               _agents (self s') = _agents (self t) /\
               _objects (self s') = _objects (self t) /\
               paused (self s') = paused (self t) /\
               forall a, agt s' a = agt t a).
  { induction l as [|a l IH]; intro t; simpl.
    - exists t. rewrite !app_nil_r. repeat split.
    - unfold andThen. destruct (is_dead (agt t a)) eqn:Ed; simpl.
      + destruct (IH (with_self (set__dead_agents (_dead_agents (self t) ++ [a])
                                                  (self t)) t))
          as (s' & E & Hu & Hd & Hag & Hob & Hpa & Ha).
        exists s'. split; [exact E|]. simpl in *.
        split; [exact Hu|]. split; [rewrite Hd, <- app_assoc; reflexivity|].
        repeat (split; [assumption|]). exact Ha.
      + destruct (Agent_update_calls a delta t) as (t1 & t2 & E1 & C1 & S1 & X1 & A1).
        rewrite E1. destruct (IH t1) as (s' & E & Hu & Hd & Hag & Hob & Hpa & Ha).
        exists s'. split; [exact E|].
        assert (Hf : forall f : Agent -> bool,
                   filter (fun a0 => f (agt t1 a0)) l = filter (fun a0 => f (agt t a0)) l).
        { intro f. apply filter_ext. intro a0. rewrite (A1 Hun a0). reflexivity. }
        split.
        { rewrite Hu, C1, updated_app.
          rewrite (Hf (fun g => negb (is_dead g))).
          change (Agent_update_called a delta :: ?r)
            with ([Agent_update_called a delta] ++ r).
          simpl. rewrite updated_app.
          rewrite (updated_map_other (fun p => Perception_update_called p a))
            by reflexivity.
          simpl.
          rewrite (updated_map_other (fun action => Action_execute_called action a))
            by reflexivity.
          rewrite <- app_assoc. reflexivity. }
        split; [rewrite Hd, S1, (Hf is_dead); reflexivity|].
        rewrite S1 in Hag, Hob, Hpa.
        repeat (split; [assumption|]).
        intro a0. rewrite Ha. apply (A1 Hun). }
  apply (G (_agents (self s)) s).
Qed.

End Ticks.

(** ** The removal of the dead agents *)

Section TickRemoval.

Import core.

Context {U X : Type}.
Variable B : Behaviour U X.

Lemma remove_first_filter v l :
  NoDup l -> remove_first v l = filter (fun w => negb (Nat.eqb w v)) l.
Proof.
  induction l as [|h t IH]; intro Hnd; simpl; [reflexivity|].
  inversion Hnd as [|? ? Hh Ht]; subst.
  rewrite (Nat.eqb_sym h v). destruct (Nat.eqb_spec v h) as [->|NE]; simpl.
  - symmetry. clear IH Ht Hnd. induction t as [|k t IHt]; simpl; [reflexivity|].
    destruct (Nat.eqb_spec k h) as [->|NE]; simpl.
    + exfalso. apply Hh. left. reflexivity.
    + f_equal. apply IHt. intro Hin. apply Hh. right. exact Hin.
  - f_equal. apply IH. exact Ht.
Qed.

Lemma filter_twice {A} (f g : A -> bool) l :
  filter f (filter g l) = filter (fun v => g v && f v) l.
Proof.
  induction l as [|h t IH]; simpl; [reflexivity|].
  destruct (g h); simpl; [destruct (f h); simpl|]; rewrite IH; reflexivity.
Qed.

(** One turn of the loop of [_remove_dead_agents] for an agent that has a
    body. *)
Lemma remove_dead_turn a (t : State U X) :
  _body (agt t a) <> None ->
  exists t',
    (World__remove_agent a ;;
     fun s0 =>
       (run (fun s1 => body_setter a None (heap s1)) ;;
        match _body (agt s0 a) with
        | None => fun s1 => Raise AttributeError s1
        | Some b =>
            modify_obj b (agent_setter None) ;;
            fun s1 => if negb (keep_body_on_death (agt s1 a))
                      then World_remove_object b s1 else Return s1
        end) s0) t = Return t' /\
    _agents (self t') = remove_first a (_agents (self t)) /\
    _dead_agents (self t') = _dead_agents (self t) /\
    calls t' = calls t /\
    (forall a', a' <> a -> _body (agt t' a') = _body (agt t a')) /\
    _body (agt t' a) = None.
Proof.
  intro Hb.
  assert (Hrf : contains (_agents (self t)) a = false ->
                remove_first a (_agents (self t)) = _agents (self t)).
  { intro Hc. apply contains_false in Hc.
    induction (_agents (self t)) as [|h l IH]; simpl; [reflexivity|].
    destruct (Nat.eqb_spec a h) as [->|NE].
    - exfalso. apply Hc. left. reflexivity.
    - f_equal. apply IH. intro Hin. apply Hc. right. exact Hin. }
  unfold andThen, World__remove_agent, run, modify_agt, modify_obj, print,
    World_remove_object, andThen.
  destruct (contains (_agents (self t)) a) eqn:Ec; simpl;
    unfold agt in *; simpl; unfold upd; rewrite ?Nat.eqb_refl; simpl;
    destruct (_body (agts (heap t) a)) as [b|] eqn:Eb; try congruence;
    simpl; unfold agt, obj; simpl; unfold upd; rewrite ?Nat.eqb_refl; simpl;
    destruct (keep_body_on_death (agts (heap t) a)); simpl;
    try destruct (contains (_objects (self t)) b); simpl;
    (eexists; split; [reflexivity|]); simpl;
    rewrite ?Hrf by reflexivity;
    (split; [reflexivity|]); (split; [reflexivity|]); (split; [reflexivity|]);
    (split; [|cbv [upd]; rewrite ?Nat.eqb_refl; reflexivity]);
    intros a' NE; apply Nat.eqb_neq in NE; cbv [upd]; rewrite ?NE; reflexivity.
Qed.

Lemma World__remove_dead_agents_removes (s : State U X) :
  NoDup (_dead_agents (self s)) -> NoDup (_agents (self s)) ->
  (forall a, In a (_dead_agents (self s)) -> _body (agt s a) <> None) ->
  exists s',
    World__remove_dead_agents World_remove_object s = Return s' /\
    _agents (self s') =
      filter (fun a => negb (contains (_dead_agents (self s)) a)) (_agents (self s)) /\
    _dead_agents (self s') = [] /\
    calls s' = calls s.
Proof.
  intros HndD HndA Hbodies.
  assert (G : forall D (t : State U X),
             NoDup D -> NoDup (_agents (self t)) ->
             (forall a, In a D -> _body (agt t a) <> None) ->
             exists s',
               for_each D
                 (fun a =>
                    World__remove_agent a ;;
                    fun s0 =>
                      (run (fun s1 => body_setter a None (heap s1)) ;;
                       match _body (agt s0 a) with
                       | None => fun s1 => Raise AttributeError s1
                       | Some b =>
                           modify_obj b (agent_setter None) ;;
                           fun s1 => if negb (keep_body_on_death (agt s1 a))
                                     then World_remove_object b s1 else Return s1
                       end) s0) t = Return s' /\
               _agents (self s') =
                 filter (fun a => negb (contains D a)) (_agents (self t)) /\
               calls s' = calls t).
  { induction D as [|a D IH]; intros t HD HA Hb.
    - exists t. split; [reflexivity|]. split; [|reflexivity].
      simpl. symmetry. apply forallb_filter_id. apply forallb_forall.
      intros; reflexivity.
    - inversion HD as [|? ? Ha HD']; subst.
      destruct (remove_dead_turn a t (Hb a (or_introl eq_refl)))
        as (t1 & E1 & A1 & _ & C1 & Hoth & _).
      destruct (IH t1 HD') as (s' & E & Hag & Hc).
      { rewrite A1. apply remove_first_NoDup. exact HA. }
      { intros a' Ha'. rewrite Hoth.
        - apply Hb. right. exact Ha'.
        - intros ->. contradiction. }
      exists s'. split.
      + change (for_each (a :: D) ?body t) with ((body a ;; for_each D body) t).
        erewrite andThen_Return; [exact E|exact E1].
      + split; [|congruence].
        rewrite Hag, A1, (remove_first_filter a _ HA), filter_twice.
        apply filter_ext. intro v. unfold contains. simpl.
        rewrite negb_orb. reflexivity. }
  destruct (G (_dead_agents (self s)) s HndD HndA Hbodies) as (s' & E & Hag & Hc).
  eexists. split.
  - unfold World__remove_dead_agents. unfold andThen at 1. rewrite E. reflexivity.
  - simpl. repeat split; assumption.
Qed.

Lemma World_update_objects_calls delta (s : State U X) :
  exists s',
    World_update_objects B delta s = Return s' /\
    updated (calls s') = updated (calls s) /\
    self s' = self s /\
    (agents_untouched B -> forall a, agt s' a = agt s a).
Proof.
  unfold World_update_objects.
  destruct (calling_loop (fun o => Object_update_called o delta)
              (fun o => Object_update B o delta) (_objects (self s)) s)
    as (s' & E & C & S & _ & _ & _ & A).
  exists s'. split; [exact E|]. split; [|split; [exact S|]].
  - rewrite C, updated_app, (updated_map_other (fun o => Object_update_called o delta))
      by reflexivity.
    apply app_nil_r.
  - intros (_ & _ & _ & Ho). apply A. intros v t a'. apply Ho.
Qed.

(** A tick of [World] in which nobody tampers with the agents and every
    dead agent has a body: it returns, the agents alive have been updated
    once each, in order, and they are the agents left in the world. *)
Lemma World_update_tick delta (s : State U X) :
  paused (self s) = false ->
  agents_untouched B ->
  NoDup (_agents (self s)) -> _dead_agents (self s) = [] ->
  (forall a, In a (_agents (self s)) -> is_dead (agt s a) = true ->
             _body (agt s a) <> None) ->
  exists s',
    World_update B delta s = Return s' /\
    updated (calls s') =
      updated (calls s)
      ++ filter (fun a => negb (is_dead (agt s a))) (_agents (self s)) /\
    _agents (self s') =
      filter (fun a => negb (is_dead (agt s a))) (_agents (self s)) /\
    _dead_agents (self s') = [].
Proof.
  intros Hp Hun Hnd Hd Hbodies.
  destruct (World_process_agents_calls B delta s Hun)
    as (s1 & E1 & U1 & D1 & A1 & _ & _ & G1).
  destruct (World_update_objects_calls delta s1) as (s2 & E2 & U2 & S2 & G2).
  rewrite Hd in D1. simpl in D1.
  destruct (World__remove_dead_agents_removes s2) as (s3 & E3 & A3 & D3 & C3).
  { rewrite S2, D1. apply NoDup_filter. exact Hnd. }
  { rewrite S2, A1. exact Hnd. }
  { intros a Ha. rewrite S2, D1 in Ha. apply filter_In in Ha as [Ha Hdead].
    rewrite (G2 Hun a), (G1 a). apply Hbodies; assumption. }
  exists s3. split.
  - unfold World_update. rewrite Hp. simpl.
    rewrite (andThen_Return _ _ _ _ E1), (andThen_Return _ _ _ _ E2). exact E3.
  - split; [rewrite C3, U2, U1; reflexivity|]. split; [|exact D3].
    rewrite A3, S2, D1, A1.
    clear - Hnd. induction (_agents (self s)) as [|h l IH]; [reflexivity|].
    assert (Hc : forall v, In v (h :: l) ->
                 contains (filter (fun a => is_dead (agt s a)) (h :: l)) v
                 = is_dead (agt s v)).
    { intros v Hv. destruct (is_dead (agt s v)) eqn:Ed.
      - apply contains_In. apply filter_In. split; assumption.
      - apply contains_false. intro Hin. apply filter_In in Hin as [_ Hin].
        congruence. }
    apply filter_ext_in. intros v Hv. rewrite (Hc v Hv). reflexivity.
Qed.

End TickRemoval.

Section TickFailure.

Import core.

(** C6.  [World.update] on an unpaused world whose two agents are dead and
    have no body raises [AttributeError] while removing the first: the
    second stays in the world and the list of dead agents is not cleared. *)
Theorem dead_bodyless_agents_break_update :
  let r := World_update idle 1 two_dead in
  raised r = Some AttributeError /\
  _agents (self (final r)) = [1%nat] /\
  _dead_agents (self (final r)) = [0%nat; 1%nat] /\
  calls (final r) = [].
Proof. vm_compute. repeat split. Qed.

End TickFailure.

(** ** Bounds of the continuous world *)

(** Case analysis on the comparisons that guard the assignments. *)
Ltac case_ltb :=
  repeat match goal with
         | |- context [Py.ltb ?a ?b] =>
             let C := fresh "C" in
             destruct (Py.ltb a b) eqn:C;
             [apply Py.ltb_true_inv in C|apply Py.ltb_false_inv in C];
             simpl
         end.

Section Bounds2D.

Import core.

Context {U : Type}.
Variable B : Behaviour U World2D.

(** [Object.update] of one object moves no other object. *)
Definition objects_local {X} (B : Behaviour U X) : Prop :=
  forall o delta s o',
    o' <> o ->
    x (objs (Object_update B o delta s) o') = x (obj s o') /\
    y (objs (Object_update B o delta s) o') = y (obj s o').


(** One guarded assignment to an attribute of object [o]. *)
Lemma guarded_modify {X} (c : State U X -> bool) (f : State U X -> Object -> Object)
      o (s : State U X) :
  exists s',
    (if c s then modify_obj o (f s) s else Return s) = Return s' /\
    obj s' o = (if c s then f s (obj s o) else obj s o) /\
    (forall o', o' <> o -> obj s' o' = obj s o') /\
    self s' = self s /\ ext s' = ext s.
Proof.
  destruct (c s).
  - eexists. split; [reflexivity|]. unfold obj. simpl. unfold upd.
    rewrite Nat.eqb_refl. repeat split.
    intros o' NE. apply Nat.eqb_neq in NE. rewrite NE. reflexivity.
  - exists s. repeat split.
Qed.







End Bounds2D.

(** ** The grid and its cells *)

Section GridCells.

Import core.

Context {U : Type}.

(** The cell in row [r], column [c]. *)
Definition cell_at (g : list (list (list oid))) (r c : nat) : list oid :=
  nth c (nth r g []) [].

(** The grid has [_height] rows of [_width] cells, as the constructor
    builds it. *)
Definition grid_shape (w : World2DGrid) : Prop :=
  length (_grid w) = Z.to_nat (_height w) /\
  Forall (fun row => length row = Z.to_nat (_width w)) (_grid w).

Lemma World2DGrid__init__shape width height tor :
  grid_shape (snd (World2DGrid__init__ width height tor)).
Proof.
  split; simpl.
  - unfold Py.range. rewrite !length_map, length_seq. reflexivity.
  - apply Forall_forall. intros row Hrow. apply in_map_iff in Hrow as (z & <- & _).
    unfold Py.range. rewrite !length_map, length_seq. reflexivity.
Qed.

Lemma grid_shape_row w n :
  grid_shape w -> (n < length (_grid w))%nat ->
  length (nth n (_grid w) []) = Z.to_nat (_width w).
Proof.
  intros [_ Hrows] Hn. rewrite Forall_forall in Hrows. apply Hrows.
  apply nth_In. exact Hn.
Qed.

Lemma getitem_position {A} (l : list A) (i : Z) v (d : A) :
  Py.getitem l i = Some v ->
  exists n, Py.index (length l) i = Some n /\ (n < length l)%nat /\ nth n l d = v.
Proof.
  unfold Py.getitem. destruct (Py.index (length l) i) as [n|] eqn:E; [|discriminate].
  intro H. exists n. split; [reflexivity|]. split.
  - exact (index_Some _ _ _ E).
  - apply nth_error_nth. exact H.
Qed.

Lemma cell_at_store g n m c' r c0 :
  (n < length g)%nat -> (m < length (nth n g []))%nat ->
  cell_at (Py.set_nth g n (Py.set_nth (nth n g []) m c')) r c0
  = if Nat.eqb r n && Nat.eqb c0 m then c' else cell_at g r c0.
Proof.
  intros Hn Hm. unfold cell_at.
  destruct (Nat.eqb_spec r n) as [->|NE]; simpl.
  - rewrite nth_set_nth_same by exact Hn.
    destruct (Nat.eqb_spec c0 m) as [->|NE'].
    + apply nth_set_nth_same. exact Hm.
    + apply nth_set_nth_other. exact NE'.
  - rewrite nth_set_nth_other by exact NE. reflexivity.
Qed.

(** Only the cells of the grid differ. *)
Definition same_but_cells (s s' : State U World2DGrid) : Prop :=
  heap s' = heap s /\ self s' = self s /\
  _width (ext s') = _width (ext s) /\ _height (ext s') = _height (ext s) /\
  _tor (ext s') = _tor (ext s).

Lemma same_but_cells_refl s : same_but_cells s s.
Proof. repeat split. Qed.

Lemma same_but_cells_trans a b c :
  same_but_cells a b -> same_but_cells b c -> same_but_cells a c.
Proof. intros (?&?&?&?&?) (?&?&?&?&?). repeat split; congruence. Qed.

(** What a successful access to [_grid[ry][rx]] followed by a store does. *)
Lemma grid_store_effect ry rx c' (s : State U World2DGrid) row c :
  grid_shape (ext s) ->
  Py.getitem (_grid (ext s)) ry = Some row ->
  Py.getitem row rx = Some c ->
  exists n m s',
    grid_store ry rx c' s = Return s' /\
    Py.index (length (_grid (ext s))) ry = Some n /\
    Py.index (Z.to_nat (_width (ext s))) rx = Some m /\
    (n < Z.to_nat (_height (ext s)))%nat /\ (m < Z.to_nat (_width (ext s)))%nat /\
    cell_at (_grid (ext s)) n m = c /\
    same_but_cells s s' /\ grid_shape (ext s') /\
    forall r c0, cell_at (_grid (ext s')) r c0
                 = if Nat.eqb r n && Nat.eqb c0 m then c' else cell_at (_grid (ext s)) r c0.
Proof.
  intros Hshape Hrow Hc.
  destruct (getitem_position _ _ _ [] Hrow) as (n & In & Hn & En).
  destruct (getitem_position _ _ _ [] Hc) as (m & Im & Hm & Em).
  pose proof (grid_shape_row _ n Hshape Hn) as Hlen. rewrite En in Hlen.
  exists n, m. unfold grid_store. rewrite Hrow.
  unfold Py.setitem. rewrite Im, In.
  eexists. split; [reflexivity|].
  destruct Hshape as [Hh Hrows].
  split; [reflexivity|]. split; [rewrite <- Hlen; exact Im|].
  split; [lia|]. split; [lia|]. split; [unfold cell_at; rewrite En; exact Em|].
  split; [repeat split|]. split.
  - split; simpl.
    + rewrite set_nth_length. exact Hh.
    + apply Forall_forall. intros row' Hin.
      apply In_nth_error in Hin as (k & Hk).
      destruct (Nat.eq_dec k n) as [->|NE].
      * rewrite nth_error_set_nth_same in Hk by exact Hn.
        injection Hk as <-. rewrite set_nth_length. exact Hlen.
      * rewrite nth_error_set_nth_other in Hk by exact NE.
        apply nth_error_In in Hk. rewrite Forall_forall in Hrows.
        apply Hrows. exact Hk.
  - intros r c0. simpl. rewrite <- En. apply cell_at_store; [exact Hn|].
    rewrite En. exact Hm.
Qed.

Lemma grid_store_keeps ry rx c' : keeps same_but_cells (grid_store (U:=U) ry rx c').
Proof.
  intro s. unfold grid_store.
  destruct (Py.getitem _ _); [|apply same_but_cells_refl].
  destruct (Py.setitem _ _ _); [|apply same_but_cells_refl].
  destruct (Py.setitem _ _ _); [|apply same_but_cells_refl].
  repeat split.
Qed.


Lemma grid_append_keeps ry rx o : keeps same_but_cells (grid_append (U:=U) ry rx o).
Proof.
  intro s. unfold grid_append.
  destruct (Py.getitem _ _); [|apply same_but_cells_refl].
  destruct (Py.getitem _ _); [|apply same_but_cells_refl].
  apply grid_store_keeps.
Qed.

(** An access that succeeds shows that the grid is not empty. *)
Lemma grid_access_sizes (s : State U World2DGrid) ry rx row c :
  grid_shape (ext s) ->
  Py.getitem (_grid (ext s)) ry = Some row ->
  Py.getitem row rx = Some c ->
  (1 <= _width (ext s))%Z /\ (1 <= _height (ext s))%Z.
Proof.
  intros Hshape Hrow Hc.
  destruct (getitem_position _ _ _ [] Hrow) as (n & In & Hn & En).
  destruct (getitem_position _ _ _ [] Hc) as (m & Im & Hm & Em).
  pose proof (grid_shape_row _ n Hshape Hn) as Hlen. rewrite En in Hlen.
  destruct Hshape as [Hh _]. lia.
Qed.

End GridCells.

(** ** The index of the grid world *)

Section GridIndex.

Import core.

Context {U : Type}.

Definition on_grid (w : World2DGrid) (o : Object) : Prop :=
  (0 <= Py.round (x o) < _width w)%Z /\ (0 <= Py.round (y o) < _height w)%Z.

(** The object's rounded coordinates are row [r], column [c]. *)
Definition stands_at (o : Object) (r c : nat) : Prop :=
  Z.of_nat r = Py.round (y o) /\ Z.of_nat c = Py.round (x o).

(** The correspondence between the object list and the cells: every listed
    object stands on the grid and occurs in the cell of its rounded
    coordinates and in no other. *)
Definition indexed (s : State U World2DGrid) : Prop :=
  forall o, In o (_objects (self s)) ->
    on_grid (ext s) (obj s o) /\
    forall r c, (r < Z.to_nat (_height (ext s)))%nat ->
                (c < Z.to_nat (_width (ext s)))%nat ->
                (In o (cell_at (_grid (ext s)) r c) <-> stands_at (obj s o) r c).

(** The cells hold the objects of [L], each once, in the cell of its
    rounded coordinates, and nothing else. *)
Definition cells_hold (L : oid -> Prop) (s : State U World2DGrid) : Prop :=
  grid_shape (ext s) /\
  forall r c, (r < Z.to_nat (_height (ext s)))%nat ->
              (c < Z.to_nat (_width (ext s)))%nat ->
              NoDup (cell_at (_grid (ext s)) r c) /\
              forall o, In o (cell_at (_grid (ext s)) r c) <->
                        L o /\ stands_at (obj s o) r c.

Definition listed (s : State U World2DGrid) (o : oid) : Prop :=
  In o (_objects (self s)).

(** The invariant of the grid world: no object is listed twice, every
    listed object stands on the grid, and the cells hold the listed
    objects. *)
Definition grid_inv (s : State U World2DGrid) : Prop :=
  NoDup (_objects (self s)) /\
  (forall o, listed s o -> on_grid (ext s) (obj s o)) /\
  cells_hold (listed s) s.

(** The same while object [b] is lifted off the grid. *)
Definition grid_inv_but (b : oid) (s : State U World2DGrid) : Prop :=
  NoDup (_objects (self s)) /\
  (forall o, listed s o -> o <> b -> on_grid (ext s) (obj s o)) /\
  listed s b /\
  cells_hold (fun o => listed s o /\ o <> b) s.

Lemma grid_inv_indexed s : grid_inv s -> indexed s.
Proof.
  intros (_ & Hon & _ & Hcells) o Ho. split; [apply Hon; exact Ho|].
  intros r c Hr Hc. destruct (Hcells r c Hr Hc) as [_ Hin].
  rewrite Hin. unfold listed. tauto.
Qed.

Lemma cells_hold_ext (L L' : oid -> Prop) s :
  (forall o, L o <-> L' o) -> cells_hold L s -> cells_hold L' s.
Proof.
  intros HL [Hshape Hcells]. split; [exact Hshape|].
  intros r c Hr Hc. destruct (Hcells r c Hr Hc) as [Hnd Hin].
  split; [exact Hnd|]. intro o. rewrite Hin, HL. reflexivity.
Qed.

(** The cells do not depend on where the objects outside [L] are, nor on
    anything but the coordinates. *)
Lemma cells_hold_frame (L : oid -> Prop) s s' :
  ext s' = ext s ->
  (forall o, L o -> x (obj s' o) = x (obj s o) /\ y (obj s' o) = y (obj s o)) ->
  cells_hold L s -> cells_hold L s'.
Proof.
  intros Hext Hxy [Hshape Hcells]. rewrite <- Hext in Hshape, Hcells.
  split; [exact Hshape|].
  intros r c Hr Hc. destruct (Hcells r c Hr Hc) as [Hnd Hin].
  split; [exact Hnd|]. intro o. rewrite Hin. unfold stands_at.
  split; intros [HL Hst]; (split; [exact HL|]);
    destruct (Hxy o HL) as [Ex Ey]; rewrite Ex, Ey in *; exact Hst.
Qed.

Lemma stands_at_unique o r c r' c' :
  stands_at o r c -> stands_at o r' c' -> r = r' /\ c = c'.
Proof. unfold stands_at. intros [? ?] [? ?]. lia. Qed.

(** [_grid[round(o.y)][round(o.x)].remove(o)], when it returns, has found
    the object where the index says it is. *)
Lemma grid_remove_effect (L : oid -> Prop) o (s s' : State U World2DGrid) :
  cells_hold L s ->
  grid_remove (Py.round (y (obj s o))) (Py.round (x (obj s o))) o s = Return s' ->
  L o /\ on_grid (ext s) (obj s o) /\ same_but_cells s s' /\
  cells_hold (fun o' => L o' /\ o' <> o) s'.
Proof.
  intros [Hshape Hcells] E. unfold grid_remove in E.
  destruct (Py.getitem (_grid (ext s)) _) as [row|] eqn:Erow; [|discriminate].
  destruct (Py.getitem row _) as [c|] eqn:Ec; [|discriminate].
  destruct (contains c o) eqn:Eo; [|discriminate].
  destruct (grid_store_effect _ _ (remove_first o c) s row c Hshape Erow Ec)
    as (n & m & s'' & Es & In & Im & Hn & Hm & Hcell & Hsame & Hshape' & Hnew).
  rewrite E in Es. injection Es as <-.
  destruct (Hcells n m Hn Hm) as [Hnd Hin]. rewrite Hcell in Hnd, Hin.
  apply contains_In in Eo. apply Hin in Eo as [HL Hst].
  destruct Hsame as (Hheap & Hself & Hw & Hh & Ht).
  split; [exact HL|]. split.
  { destruct Hst as [Hr Hc]. unfold on_grid. lia. }
  split; [repeat split; assumption|].
  split; [exact Hshape'|].
  intros r c0 Hr Hc0. rewrite Hw in Hc0. rewrite Hh in Hr.
  rewrite Hnew. unfold obj. rewrite Hheap. fold (obj s).
  destruct (Nat.eqb_spec r n) as [->|NEr]; simpl.
  - destruct (Nat.eqb_spec c0 m) as [->|NEc].
    + split; [apply remove_first_NoDup; exact Hnd|].
      intro o'. rewrite (remove_first_In _ _ _ Hnd), Hin. tauto.
    + destruct (Hcells n c0 Hr Hc0) as [Hnd' Hin']. split; [exact Hnd'|].
      intro o'. rewrite Hin'. split; [|tauto].
      intros [HL' Hst']. split; [|exact Hst']. split; [exact HL'|].
      intros ->. destruct (stands_at_unique _ _ _ _ _ Hst Hst'). congruence.
  - destruct (Hcells r c0 Hr Hc0) as [Hnd' Hin']. split; [exact Hnd'|].
    intro o'. rewrite Hin'. split; [|tauto].
    intros [HL' Hst']. split; [|exact Hst']. split; [exact HL'|].
    intros ->. destruct (stands_at_unique _ _ _ _ _ Hst Hst'). congruence.
Qed.

(** [_grid[round(o.y)][round(o.x)].append(o)], when it returns from
    coordinates that do not round below zero, has put the object into the
    cell of its rounded coordinates. *)
Lemma grid_append_effect (L : oid -> Prop) o (s s' : State U World2DGrid) :
  cells_hold L s -> ~ L o ->
  (0 <= Py.round (x (obj s o)))%Z -> (0 <= Py.round (y (obj s o)))%Z ->
  grid_append (Py.round (y (obj s o))) (Py.round (x (obj s o))) o s = Return s' ->
  on_grid (ext s) (obj s o) /\ same_but_cells s s' /\
  cells_hold (fun o' => L o' \/ o' = o) s'.
Proof.
  intros [Hshape Hcells] HnL Hx Hy E. unfold grid_append in E.
  destruct (Py.getitem (_grid (ext s)) _) as [row|] eqn:Erow; [|discriminate].
  destruct (Py.getitem row _) as [c|] eqn:Ec; [|discriminate].
  destruct (grid_store_effect _ _ (c ++ [o]) s row c Hshape Erow Ec)
    as (n & m & s'' & Es & In & Im & Hn & Hm & Hcell & Hsame & Hshape' & Hnew).
  rewrite E in Es. injection Es as <-.
  destruct (index_nonneg _ _ _ Hy In) as [-> Hylt].
  destruct (index_nonneg _ _ _ Hx Im) as [-> Hxlt].
  assert (Hst : stands_at (obj s o) (Z.to_nat (Py.round (y (obj s o))))
                          (Z.to_nat (Py.round (x (obj s o))))).
  { unfold stands_at. lia. }
  destruct (Hcells _ _ Hn Hm) as [Hnd Hin]. rewrite Hcell in Hnd, Hin.
  destruct Hsame as (Hheap & Hself & Hw & Hh & Ht).
  split.
  { destruct Hshape as [Hlen _]. unfold on_grid. lia. }
  split; [repeat split; assumption|].
  split; [exact Hshape'|].
  intros r c0 Hr Hc0. rewrite Hw in Hc0. rewrite Hh in Hr.
  rewrite Hnew.
  assert (Hobj : forall o', obj s' o' = obj s o')
    by (intro o'; unfold obj; rewrite Hheap; reflexivity).
  destruct (Nat.eqb_spec r (Z.to_nat (Py.round (y (obj s o))))) as [->|NEr]; simpl.
  - destruct (Nat.eqb_spec c0 (Z.to_nat (Py.round (x (obj s o))))) as [->|NEc].
    + split.
      * apply NoDup_snoc; [exact Hnd|]. intro Ho. apply Hin in Ho. tauto.
      * intro o'. rewrite Hobj, in_app_iff, Hin. simpl. split.
        -- intros [[HL' Hst']|[<-|[]]]; [tauto|]. split; [right; reflexivity|exact Hst].
        -- intros [[HL' | ->] Hst']; [left; split; assumption|right; left; reflexivity].
    + destruct (Hcells _ c0 Hr Hc0) as [Hnd' Hin']. split; [exact Hnd'|].
      intro o'. rewrite Hobj, Hin'. split; [tauto|].
      intros [[HL' | ->] Hst']; [tauto|].
      destruct (stands_at_unique _ _ _ _ _ Hst Hst'). congruence.
  - destruct (Hcells r c0 Hr Hc0) as [Hnd' Hin']. split; [exact Hnd'|].
    intro o'. rewrite Hobj, Hin'. split; [tauto|].
    intros [[HL' | ->] Hst']; [tauto|].
    destruct (stands_at_unique _ _ _ _ _ Hst Hst'). congruence.
Qed.

End GridIndex.

(** ** The bounds check of the grid world *)

Section GridBounds.

Import core.

Context {U : Type}.

(** One arm of the toroidal wrap, on the coordinate that [get] reads and
    [set] writes. *)
Lemma guarded_wrap (lim : Z) (get : Object -> Q) (set : Q -> Object -> Object)
      o (s s' : State U World2DGrid) :
  (if Py.ltb (inject_Z lim - (1 # 2)) (get (obj s o))
      || Py.ltb (get (obj s o)) (- (1 # 2))
   then match Py.mod_ (Py.round (get (obj s o))) lim with
        | Some m => modify_obj o (set (inject_Z m)) s
        | None => Raise ZeroDivisionError s
        end
   else Return s) = Return s' ->
  (forall o', o' <> o -> obj s' o' = obj s o') /\
  self s' = self s /\ ext s' = ext s /\
  ((obj s' o = obj s o /\ - (1 # 2) <= get (obj s o) <= inject_Z lim - (1 # 2)) \/
   (exists m, obj s' o = set (inject_Z m) (obj s o) /\
              ((1 <= lim)%Z -> (0 <= m < lim)%Z) /\
              (inject_Z lim - (1 # 2) < get (obj s o) \/
               get (obj s o) < - (1 # 2)))).
Proof.
  destruct (Py.ltb (inject_Z lim - (1 # 2)) (get (obj s o))) eqn:C1; simpl.
  2: destruct (Py.ltb (get (obj s o)) (- (1 # 2))) eqn:C2.
  3:{ intro E. injection E as <-. repeat split. left. split; [reflexivity|].
      apply Py.ltb_false_inv in C1. apply Py.ltb_false_inv in C2.
      split; assumption. }
  all: unfold Py.mod_; destruct (lim =? 0)%Z eqn:Ez; [discriminate|];
    intro E; injection E as <-; unfold obj; simpl; unfold upd;
    rewrite Nat.eqb_refl; split;
    [intros o' NE; apply Nat.eqb_neq in NE; rewrite NE; reflexivity|];
    split; [reflexivity|]; split; [reflexivity|]; right;
    eexists; split; [reflexivity|]; split;
    [intro Hl; apply Z.mod_pos_bound; lia|].
  - left. apply Py.ltb_true_inv. exact C1.
  - right. apply Py.ltb_true_inv. exact C2.
Qed.

Lemma World2DGrid_check_bounds_effect o (s s' : State U World2DGrid) :
  World2DGrid_check_bounds o s = Return s' ->
  (forall o', o' <> o -> obj s' o' = obj s o') /\
  self s' = self s /\ ext s' = ext s /\
  ((1 <= _width (ext s))%Z -> (1 <= _height (ext s))%Z ->
   (0 <= Py.round (x (obj s' o)))%Z /\ (0 <= Py.round (y (obj s' o)))%Z) /\
  (_tor (ext s) = false ->
   (1 <= _width (ext s))%Z -> (1 <= _height (ext s))%Z ->
   0 <= x (obj s' o) <= inject_Z (_width (ext s) - 1) /\
   0 <= y (obj s' o) <= inject_Z (_height (ext s) - 1)).
Proof.
  unfold World2DGrid_check_bounds. destruct (_tor (ext s)) eqn:Etor; simpl.
  - (* toroidal *)
    intro E. apply andThen_returns in E as (s1 & E1 & E2).
    apply guarded_wrap with (get := x) (set := set_x) in E1
      as (F1 & S1 & X1 & C1).
    apply guarded_wrap with (get := y) (set := set_y) in E2
      as (F2 & S2 & X2 & C2).
    split; [intros o' NE; rewrite F2, F1 by exact NE; reflexivity|].
    split; [congruence|]. split; [congruence|]. split; [|discriminate].
    intros Hw Hh. rewrite X1 in C2. split.
    + assert (Ex : x (obj s' o) = x (obj s1 o)).
      { destruct C2 as [[-> _]|(m & -> & _)]; reflexivity. }
      rewrite Ex. destruct C1 as [[-> [Hlo _]]|(m & -> & Hm & _)].
      * apply round_nonneg. exact Hlo.
      * simpl. rewrite round_inject_Z. apply Hm. exact Hw.
    + destruct C2 as [[-> [Hlo _]]|(m & -> & Hm & _)].
      * apply round_nonneg. exact Hlo.
      * simpl. rewrite round_inject_Z. apply Hm. exact Hh.
  - (* closed *)
    intro E.
    destruct (guarded_modify
                (fun s => Py.ltb (inject_Z (_width (ext s) - 1)) (x (obj s o)))
                (fun s => set_x (inject_Z (_width (ext s) - 1))) o s)
      as (s1 & E1 & O1 & F1 & S1 & X1).
    destruct (guarded_modify
                (fun s => Py.ltb (inject_Z (_height (ext s) - 1)) (y (obj s o)))
                (fun s => set_y (inject_Z (_height (ext s) - 1))) o s1)
      as (s2 & E2 & O2 & F2 & S2 & X2).
    destruct (guarded_modify (fun s => Py.ltb (x (obj s o)) 0)
                (fun s => set_x 0) o s2)
      as (s3 & E3 & O3 & F3 & S3 & X3).
    destruct (guarded_modify (fun s => Py.ltb (y (obj s o)) 0)
                (fun s => set_y 0) o s3)
      as (s4 & E4 & O4 & F4 & S4 & X4).
    rewrite (andThen_Return _ _ _ _ E1), (andThen_Return _ _ _ _ E2),
            (andThen_Return _ _ _ _ E3), E4 in E.
    injection E as <-.
    split; [intros o' NE; rewrite F4, F3, F2, F1 by exact NE; reflexivity|].
    split; [congruence|]. split; [congruence|].
    assert (G : (1 <= _width (ext s))%Z -> (1 <= _height (ext s))%Z ->
                0 <= x (obj s4 o) <= inject_Z (_width (ext s) - 1) /\
                0 <= y (obj s4 o) <= inject_Z (_height (ext s) - 1)).
    { intros Hw Hh.
      assert (Hw' : 0 <= inject_Z (_width (ext s) - 1)).
      { change 0 with (inject_Z 0). rewrite <- Zle_Qle. lia. }
      assert (Hh' : 0 <= inject_Z (_height (ext s) - 1)).
      { change 0 with (inject_Z 0). rewrite <- Zle_Qle. lia. }
      clear E1 E2 E3 E4 F1 F2 F3 F4.
      rewrite O4, O3, O2, X1, O1. clear O1 O2 O3 O4.
      revert Hw' Hh'.
      generalize (inject_Z (_width (ext s) - 1)) (inject_Z (_height (ext s) - 1)).
      intros qw qh Hw' Hh'.
      case_ltb; simpl in *; repeat split; lra. }
    split.
    + intros Hw Hh. destruct (G Hw Hh) as [[Hx _] [Hy _]].
      split; apply round_mono_lower; assumption.
    + intros _. exact G.
Qed.

(** What the toroidal wrap achieves: the rounded coordinates are never
    negative and never beyond the size of the grid, and they equal the size,
    one past the last index, exactly when the size is even and the
    coordinate is the size less one half. *)
Lemma toroidal_wrap_rounds o (s s' : State U World2DGrid) :
  _tor (ext s) = true ->
  (1 <= _width (ext s))%Z -> (1 <= _height (ext s))%Z ->
  World2DGrid_check_bounds o s = Return s' ->
  ((0 <= Py.round (x (obj s' o)) <= _width (ext s))%Z /\
   (Py.round (x (obj s' o)) = _width (ext s) <->
    Z.even (_width (ext s)) = true /\
    x (obj s o) == inject_Z (_width (ext s)) - (1 # 2))) /\
  ((0 <= Py.round (y (obj s' o)) <= _height (ext s))%Z /\
   (Py.round (y (obj s' o)) = _height (ext s) <->
    Z.even (_height (ext s)) = true /\
    y (obj s o) == inject_Z (_height (ext s)) - (1 # 2))).
Proof.
  intros Etor Hw Hh. unfold World2DGrid_check_bounds. rewrite Etor. simpl.
  intro E. apply andThen_returns in E as (s1 & E1 & E2).
  apply guarded_wrap with (get := x) (set := set_x) in E1
    as (F1 & S1 & X1 & C1).
  apply guarded_wrap with (get := y) (set := set_y) in E2
    as (F2 & S2 & X2 & C2).
  rewrite X1 in C2.
  assert (Ex : x (obj s' o) = x (obj s1 o)).
  { destruct C2 as [[-> _]|(m & -> & _)]; reflexivity. }
  assert (Ey : y (obj s1 o) = y (obj s o)).
  { destruct C1 as [[-> _]|(m & -> & _)]; reflexivity. }
  split.
  - rewrite Ex. destruct C1 as [[-> Hwin]|(m & -> & Hm & Hout)].
    + apply round_in_wrap_window. exact Hwin.
    + simpl. rewrite round_inject_Z. specialize (Hm Hw). split; [lia|].
      split; [lia|]. intros [_ E]. exfalso. rewrite E in Hout.
      assert (Hpos : 1 <= inject_Z (_width (ext s))).
      { change 1 with (inject_Z 1). rewrite <- Zle_Qle. exact Hw. }
      destruct Hout as [Hout|Hout]; lra.
  - rewrite <- Ey. destruct C2 as [[-> Hwin]|(m & -> & Hm & Hout)].
    + apply round_in_wrap_window. exact Hwin.
    + simpl. rewrite round_inject_Z. specialize (Hm Hh). split; [lia|].
      split; [lia|]. intros [_ E]. exfalso. rewrite E in Hout.
      assert (Hpos : 1 <= inject_Z (_height (ext s))).
      { change 1 with (inject_Z 1). rewrite <- Zle_Qle. exact Hh. }
      destruct Hout as [Hout|Hout]; lra.
Qed.

End GridBounds.

Section ToroidalEdge.

Import core.

(** C2.  On a toroidal 2 x 2 grid an object at [x = 3/2] is not wrapped,
    rounds to column 2 and makes [add_object] raise [IndexError]: the object
    is in the object list and in no cell. *)
Theorem toroidal_edge_out_of_bounds :
  let r := World2DGrid_add_object 0%nat torus_with_edge_object in
  raised r = Some IndexError /\
  Py.round (x (obj (final r) 0%nat)) = _width (ext (final r)) /\
  _objects (self (final r)) = [0%nat] /\
  _grid (ext (final r)) = [[[]; []]; [[]; []]].
Proof. vm_compute. repeat split. Qed.

(** The same in [update]: an object standing at [x = 1/2] on that grid
    drifts to [x = 3/2] and cannot be put back. *)
Definition torus_with_object : State unit World2DGrid :=
  final (World2DGrid_add_object 0%nat
           (with_heap (set_obj 0%nat (Object__init__ (1 # 2) 0 0)
                               (heap (empty_grid 2 2 true)))
                      (empty_grid 2 2 true))).

Example toroidal_edge_in_update :
  _grid (ext torus_with_object) = [[[0%nat]; []]; [[]; []]] /\
  raised (World2DGrid_update drifting 1 torus_with_object) = Some IndexError /\
  _grid (ext (final (World2DGrid_update drifting 1 torus_with_object)))
  = [[[]; []]; [[]; []]].
Proof. vm_compute. repeat split. Qed.

(** An odd width has no such edge: [5/2] rounds to 2. *)
Example toroidal_edge_odd_width :
  raised (World2DGrid_add_object 0%nat
            (with_heap (set_obj 0%nat (Object__init__ (5 # 2) 0 0)
                                (heap (empty_grid 3 3 true)))
                       (empty_grid 3 3 true))) = None.
Proof. vm_compute. reflexivity. Qed.

End ToroidalEdge.

(** ** The operations of the grid world keep the index *)

Section GridOperations.

Import core.

Context {U : Type}.

Lemma grid_append_sizes ry rx o (s s' : State U World2DGrid) :
  grid_shape (ext s) -> grid_append ry rx o s = Return s' ->
  (1 <= _width (ext s))%Z /\ (1 <= _height (ext s))%Z.
Proof.
  intros Hshape E. unfold grid_append in E.
  destruct (Py.getitem (_grid (ext s)) ry) as [row|] eqn:Erow; [|discriminate].
  destruct (Py.getitem row rx) as [c|] eqn:Ec; [|discriminate].
  exact (grid_access_sizes s ry rx row c Hshape Erow Ec).
Qed.

Lemma grid_remove_sizes ry rx o (s s' : State U World2DGrid) :
  grid_shape (ext s) -> grid_remove ry rx o s = Return s' ->
  (1 <= _width (ext s))%Z /\ (1 <= _height (ext s))%Z.
Proof.
  intros Hshape E. unfold grid_remove in E.
  destruct (Py.getitem (_grid (ext s)) ry) as [row|] eqn:Erow; [|discriminate].
  destruct (Py.getitem row rx) as [c|] eqn:Ec; [|discriminate].
  exact (grid_access_sizes s ry rx row c Hshape Erow Ec).
Qed.

Lemma on_grid_same (s s' : State U World2DGrid) o :
  _width (ext s') = _width (ext s) -> _height (ext s') = _height (ext s) ->
  x (obj s' o) = x (obj s o) -> y (obj s' o) = y (obj s o) ->
  on_grid (ext s) (obj s o) -> on_grid (ext s') (obj s' o).
Proof. unfold on_grid. intros -> -> -> ->. tauto. Qed.

(** Putting the lifted object back completes the invariant. *)
Lemma grid_append_restores b (s s' : State U World2DGrid) :
  grid_inv_but b s ->
  (0 <= Py.round (x (obj s b)))%Z -> (0 <= Py.round (y (obj s b)))%Z ->
  grid_append (Py.round (y (obj s b))) (Py.round (x (obj s b))) b s = Return s' ->
  grid_inv s'.
Proof.
  intros (Hnd & Hon & Hb & Hcells) Hx Hy E.
  destruct (grid_append_effect _ b s s' Hcells) as (Hgb & Hsame & Hcells');
    [tauto|exact Hx|exact Hy|exact E|].
  destruct Hsame as (Hheap & Hself & Hw & Hh & _).
  assert (Hobj : forall o, obj s' o = obj s o)
    by (intro o; unfold obj; rewrite Hheap; reflexivity).
  assert (Hl : forall o, listed s' o <-> listed s o)
    by (intro o; unfold listed; rewrite Hself; reflexivity).
  split; [rewrite Hself; exact Hnd|]. split.
  - intros o Ho. apply Hl in Ho.
    apply (on_grid_same s s'); try assumption; try (rewrite Hobj; reflexivity).
    destruct (Nat.eq_dec o b) as [->|NE]; [exact Hgb|apply Hon; assumption].
  - apply cells_hold_ext with (L := fun o' => (listed s o' /\ o' <> b) \/ o' = b);
      [|exact Hcells'].
    intro o. rewrite Hl. destruct (Nat.eq_dec o b) as [->|NE]; tauto.
Qed.

(** Lifting a listed object off the grid. *)
Lemma grid_remove_lifts b (s s' : State U World2DGrid) :
  grid_inv s ->
  grid_remove (Py.round (y (obj s b))) (Py.round (x (obj s b))) b s = Return s' ->
  grid_inv_but b s' /\ on_grid (ext s') (obj s' b) /\ same_but_cells s s'.
Proof.
  intros (Hnd & Hon & Hcells) E.
  destruct (grid_remove_effect _ b s s' Hcells E) as (Hb & Hgb & Hsame & Hcells').
  split; [|split; [|exact Hsame]].
  2:{ destruct Hsame as (Hheap & _ & Hw & Hh & _).
      apply (on_grid_same s s'); try assumption; unfold obj; rewrite Hheap; reflexivity. }
  destruct Hsame as (Hheap & Hself & Hw & Hh & _).
  assert (Hobj : forall o, obj s' o = obj s o)
    by (intro o; unfold obj; rewrite Hheap; reflexivity).
  assert (Hl : forall o, listed s' o <-> listed s o)
    by (intro o; unfold listed; rewrite Hself; reflexivity).
  split; [rewrite Hself; exact Hnd|]. split; [|split].
  - intros o Ho _. apply Hl in Ho.
    apply (on_grid_same s s'); try assumption; try (rewrite Hobj; reflexivity).
    apply Hon. exact Ho.
  - apply Hl. exact Hb.
  - apply cells_hold_ext with (L := fun o' => listed s o' /\ o' <> b);
      [|exact Hcells'].
    intro o. rewrite Hl. reflexivity.
Qed.

(** While an object is lifted, it may be moved. *)
Lemma grid_inv_but_frame b (s s' : State U World2DGrid) :
  ext s' = ext s -> _objects (self s') = _objects (self s) ->
  (forall o, o <> b -> x (obj s' o) = x (obj s o) /\ y (obj s' o) = y (obj s o)) ->
  grid_inv_but b s -> grid_inv_but b s'.
Proof.
  intros Hext Hobjs Hxy (Hnd & Hon & Hb & Hcells).
  assert (Hl : forall o, listed s' o <-> listed s o)
    by (intro o; unfold listed; rewrite Hobjs; reflexivity).
  split; [rewrite Hobjs; exact Hnd|]. split; [|split].
  - intros o Ho NE. apply Hl in Ho. destruct (Hxy o NE) as [Ex Ey].
    apply (on_grid_same s s'); try assumption; try (rewrite Hext; reflexivity).
    apply Hon; assumption.
  - apply Hl. exact Hb.
  - apply cells_hold_ext with (L := fun o' => listed s o' /\ o' <> b).
    + intro o. rewrite Hl. reflexivity.
    + apply (cells_hold_frame _ s s' Hext); [|exact Hcells].
      intros o [_ NE]. apply Hxy. exact NE.
Qed.

Lemma grid_inv_view (s s' : State U World2DGrid) :
  same_view s s' -> grid_inv s -> grid_inv s'.
Proof.
  intros (Hxy & Hobjs & Hext) (Hnd & Hon & Hcells).
  assert (Hl : forall o, listed s' o <-> listed s o)
    by (intro o; unfold listed; rewrite Hobjs; reflexivity).
  split; [rewrite Hobjs; exact Hnd|]. split.
  - intros o Ho. apply Hl in Ho. destruct (Hxy o) as [Ex Ey].
    apply (on_grid_same s s'); try assumption; try (rewrite Hext; reflexivity).
    apply Hon. exact Ho.
  - apply cells_hold_ext with (L := listed s).
    + intro o. rewrite Hl. reflexivity.
    + apply (cells_hold_frame _ s s' Hext); [|exact Hcells].
      intros o _. apply Hxy.
Qed.

(** [add_object] of an object that the world does not hold yet. *)
Lemma World2DGrid_add_object_inv o (s s' : State U World2DGrid) :
  grid_inv s -> ~ listed s o ->
  World2DGrid_add_object o s = Return s' ->
  grid_inv s'.
Proof.
  intros (Hnd & Hon & Hcells) Hno E. unfold World2DGrid_add_object in E.
  apply andThen_returns in E as (s1 & E1 & E).
  apply andThen_returns in E as (s2 & E2 & E3).
  apply World2DGrid_check_bounds_effect in E1 as (F1 & S1 & X1 & Hpos & _).
  unfold World_add_object in E2. injection E2 as <-.
  set (s2 := with_self (set__objects (_objects (self s1) ++ [o]) (self s1)) s1) in *.
  assert (Hshape : grid_shape (ext s2)) by (simpl; rewrite X1; apply Hcells).
  destruct (grid_append_sizes _ _ _ _ _ Hshape E3) as [Hw Hh].
  simpl in Hw, Hh. rewrite X1 in Hw, Hh. destruct (Hpos Hw Hh) as [Hx Hy].
  apply (grid_append_restores o s2 s'); [|exact Hx|exact Hy|exact E3].
  assert (Hxy : forall o', o' <> o -> obj s2 o' = obj s o').
  { intros o' NE. unfold s2, obj. simpl. apply F1. exact NE. }
  assert (Hl : forall o', listed s2 o' <-> listed s o' \/ o' = o).
  { intro o'. unfold listed, s2. simpl. rewrite S1, in_app_iff. simpl.
    split; [intros [H|[H|[]]]; [left; exact H|right; symmetry; exact H]|].
    intros [H|H]; [left; exact H|right; left; symmetry; exact H]. }
  split; [|split; [|split]].
  - simpl. rewrite S1. apply NoDup_snoc; assumption.
  - intros o' Ho' NE. apply Hl in Ho' as [Ho'|]; [|contradiction].
    apply (on_grid_same s s2); simpl; try (rewrite X1; reflexivity);
      try (rewrite (Hxy o' NE); reflexivity).
    apply Hon. exact Ho'.
  - apply Hl. right. reflexivity.
  - apply cells_hold_ext with (L := listed s).
    + intro o'. rewrite Hl. split; [|tauto].
      intro Ho'. split; [left; exact Ho'|]. intros ->. contradiction.
    + apply (cells_hold_frame _ s s2); [simpl; exact X1| |exact Hcells].
      intros o' Ho'. rewrite Hxy; [split; reflexivity|].
      intros ->. contradiction.
Qed.

(** [remove_object] *)
Lemma World2DGrid_remove_object_inv o (s s' : State U World2DGrid) :
  grid_inv s ->
  World2DGrid_remove_object o s = Return s' ->
  grid_inv s'.
Proof.
  intros Hinv E. unfold World2DGrid_remove_object in E.
  apply andThen_returns in E as (s1 & E1 & E2).
  unfold World_remove_object in E1.
  destruct (is_body (obj s o)) eqn:Eb; simpl in E1.
  - injection E1 as <-. unfold obj in *. simpl in E2. rewrite Eb in E2.
    injection E2 as <-. apply (grid_inv_view s); [repeat split|exact Hinv].
  - destruct (contains (_objects (self s)) o) eqn:Ein.
    + injection E1 as <-. unfold obj in E2. simpl in E2.
      change (objs (heap s) o) with (obj s o) in E2.
      rewrite Eb in E2. simpl in E2.
      destruct Hinv as (Hnd & Hon & Hcells).
      set (s1 := with_self (set__objects (remove_first o (_objects (self s))) (self s)) s) in *.
      assert (Hcells1 : cells_hold (listed s) s1).
      { apply (cells_hold_frame _ s s1); [reflexivity| |exact Hcells].
        intros o' _. split; reflexivity. }
      destruct (grid_remove_effect _ o s1 s' Hcells1 E2)
        as (_ & _ & Hsame & Hcells').
      destruct Hsame as (Hheap & Hself & Hw & Hh & _).
      assert (Hobj : forall o', obj s' o' = obj s o')
        by (intro o'; unfold obj; rewrite Hheap; reflexivity).
      assert (Hl : forall o', listed s' o' <-> listed s o' /\ o' <> o).
      { intro o'. unfold listed. rewrite Hself. simpl.
        apply remove_first_In. exact Hnd. }
      split; [rewrite Hself; simpl; apply remove_first_NoDup; exact Hnd|]. split.
      * intros o' Ho'. apply Hl in Ho' as [Ho' _].
        apply (on_grid_same s s'); try assumption; try (rewrite Hobj; reflexivity).
        apply Hon. exact Ho'.
      * apply cells_hold_ext with (L := fun o' => listed s o' /\ o' <> o);
          [|exact Hcells'].
        intro o'. rewrite Hl. reflexivity.
    + injection E1 as <-. unfold obj in E2. simpl in E2.
      change (objs (heap s) o) with (obj s o) in E2.
      rewrite Eb in E2. simpl in E2. exfalso.
      destruct Hinv as (Hnd & Hon & Hcells).
      set (s1 := mkState (heap s) (_perceptions s) (self s) (ext s)
                         (stdout s ++ _) (calls s)) in *.
      assert (Hcells1 : cells_hold (listed s) s1).
      { apply (cells_hold_frame _ s s1); [reflexivity| |exact Hcells].
        intros o' _. split; reflexivity. }
      destruct (grid_remove_effect _ o s1 s' Hcells1 E2) as (Ho & _).
      apply contains_false in Ein. contradiction.
Qed.

End GridOperations.

(** ** A tick of the grid world keeps the index *)

Section GridTicks.

Import core.

Context {U : Type}.
Variable B : Behaviour U World2DGrid.

(** A method called on behalf of agent [a] is tame when it leaves the
    agent's [body] reference alone, moves no object but that body, and
    leaves the body on the grid if it was there. *)
Definition tame (a : aid) (H : State U World2DGrid -> Heap U) : Prop :=
  forall s,
    _body (agts (H s) a) = _body (agt s a) /\
    (forall o, Some o <> _body (agt s a) ->
               x (objs (H s) o) = x (obj s o) /\ y (objs (H s) o) = y (obj s o)) /\
    (forall b, _body (agt s a) = Some b ->
               on_grid (ext s) (obj s b) -> on_grid (ext s) (objs (H s) b)).

Definition agents_tame : Prop :=
  forall a,
    (forall p, tame a (Perception_update B p a)) /\
    (forall delta, tame a (fun s => fst (Agent__think B a delta s))) /\
    (forall action, tame a (Action_execute B action a)).

Section OneAgent.

Variables (a : aid) (b : oid).

(** The state of affairs while the body [b] of agent [a] is lifted. *)
Definition lifted (t : State U World2DGrid) : Prop :=
  grid_inv_but b t /\ _body (agt t a) = Some b /\ on_grid (ext t) (obj t b).

Lemma called_lifted e : hoare lifted (called e) lifted.
Proof.
  intros t t' (Hinv & Hb & Hon) E. injection E as <-.
  split; [|split; [exact Hb|exact Hon]].
  apply (grid_inv_but_frame b t); [reflexivity|reflexivity| |exact Hinv].
  intros o _. split; reflexivity.
Qed.

Lemma run_lifted H : tame a H -> hoare lifted (run H) lifted.
Proof.
  intros Ht t t' (Hinv & Hb & Hon) E. injection E as <-.
  destruct (Ht t) as (Hbody & Hxy & Hstay). split; [|split].
  - apply (grid_inv_but_frame b t); [reflexivity|reflexivity| |exact Hinv].
    intros o NE. apply Hxy. rewrite Hb. congruence.
  - unfold agt in *. simpl. rewrite Hbody. exact Hb.
  - simpl. apply Hstay; assumption.
Qed.

Lemma Agent_update_lifted delta :
  agents_tame -> hoare lifted (Agent_update B a delta) lifted.
Proof.
  intro Htame. destruct (Htame a) as (Hp & Hthink & Hact).
  unfold Agent_update.
  apply hoare_andThen with (Q := lifted); [apply called_lifted|].
  apply hoare_andThen with (Q := lifted).
  { intros t t' HJ E. unfold Agent__update_perceptions in E.
    eapply (hoare_for_each lifted); [|exact HJ|exact E].
    intros p _. apply hoare_andThen with (Q := lifted); [apply called_lifted|].
    apply run_lifted, Hp. }
  apply hoare_andThen with (Q := lifted); [apply called_lifted|].
  intros t t' HJ E. cbv beta zeta in E.
  apply andThen_returns in E as (t1 & E1 & E2).
  pose proof (run_lifted _ (Hthink delta) t t1 HJ E1) as H1.
  destruct (snd (Agent__think B a delta t)) as [|act acts].
  - injection E2 as <-. exact H1.
  - eapply (hoare_for_each lifted); [|exact H1|exact E2].
    intros action _.
    apply hoare_andThen with (Q := lifted); [apply called_lifted|].
    apply run_lifted, Hact.
Qed.

End OneAgent.

Lemma World2DGrid_process_agents_inv delta :
  agents_tame ->
  hoare grid_inv (World2DGrid_process_agents B delta) grid_inv.
Proof.
  intros Htame s s' Hinv E. unfold World2DGrid_process_agents in E.
  eapply (hoare_for_each grid_inv); [|exact Hinv|exact E].
  intros a _.
  apply hoare_andThen with (Q := grid_inv).
  - clear Hinv E. intros t t' Hinv E. destruct (negb (is_dead (agt t a))).
    + apply andThen_returns in E as (t1 & E1 & E).
      apply andThen_returns in E as (t2 & E2 & E3).
      destruct (_body (agt t a)) as [b|] eqn:Eb; [|discriminate].
      destruct (grid_remove_lifts b t t1 Hinv E1) as (Hbut & Hon & Hsame).
      assert (Eb1 : _body (agt t1 a) = Some b).
      { unfold agt. rewrite (proj1 Hsame). exact Eb. }
      destruct (Agent_update_lifted a b delta Htame t1 t2
                  (conj Hbut (conj Eb1 Hon)) E2)
        as (Hbut2 & Eb2 & [[Hx _] [Hy _]]).
      rewrite Eb2 in E3.
      exact (grid_append_restores b t2 t' Hbut2 Hx Hy E3).
    + injection E as <-. exact Hinv.
  - clear Hinv E. intros t t' Hinv E. destruct (is_dead (agt t a)); injection E as <-.
    + apply (grid_inv_view t); [repeat split|exact Hinv].
    + exact Hinv.
Qed.

Lemma World2DGrid_update_objects_inv delta :
  objects_local B ->
  hoare grid_inv (World2DGrid_update_objects B delta) grid_inv.
Proof.
  intros Hloc s s' Hinv E. unfold World2DGrid_update_objects in E.
  eapply (hoare_for_each grid_inv); [|exact Hinv|exact E].
  intros o _. clear Hinv E. intros t t' Hinv E.
  apply andThen_returns in E as (t1 & E1 & E).
  apply andThen_returns in E as (t2 & E2 & E).
  apply andThen_returns in E as (t3 & E3 & E).
  apply andThen_returns in E as (t4 & E4 & E5).
  destruct (grid_remove_sizes _ _ _ _ _ (proj1 (proj2 (proj2 Hinv))) E1) as [Hw Hh].
  destruct (grid_remove_lifts o t t1 Hinv E1)
    as (Hbut & _ & Hheap & Hself & Hw1 & Hh1 & _).
  injection E2 as <-. injection E3 as <-.
  apply World2DGrid_check_bounds_effect in E4 as (F4 & S4 & X4 & Hpos & _).
  simpl in Hpos. rewrite Hw1, Hh1 in Hpos. destruct (Hpos Hw Hh) as [Hx Hy].
  apply (grid_append_restores o t4 t'); [|exact Hx|exact Hy|exact E5].
  apply (grid_inv_but_frame o t1); [rewrite X4; reflexivity|rewrite S4; reflexivity| |exact Hbut].
  intros o' NE. rewrite (F4 o' NE). unfold obj at 1 3. simpl.
  exact (Hloc o delta _ o' NE).
Qed.

(** An unpaused [update] *)
Lemma World2DGrid_update_inv delta :
  agents_tame -> objects_local B ->
  hoare grid_inv (World2DGrid_update B delta) grid_inv.
Proof.
  intros Htame Hloc s s' Hinv E. unfold World2DGrid_update in E.
  destruct (negb (paused (self s))); [|injection E as <-; exact Hinv].
  revert s s' Hinv E.
  apply hoare_andThen with (Q := grid_inv);
    [apply World2DGrid_process_agents_inv; exact Htame|].
  apply hoare_andThen with (Q := grid_inv);
    [apply World2DGrid_update_objects_inv; exact Hloc|].
  apply remove_dead_hoare.
  - apply grid_inv_view.
  - intros o s s'. apply World2DGrid_remove_object_inv.
Qed.

End GridTicks.

(** ** Bounds of the closed grid world *)

Section GridBoundsTick.

Import core.

Context {U : Type}.
Variable B : Behaviour U World2DGrid.














End GridBoundsTick.

(** ** Where the bounds check puts an object *)

(** Case analysis on the comparisons that guard the assignments, the
    innermost comparison first. *)
Ltac case_guard :=
  repeat match goal with
         | |- context [Py.ltb ?a ?b] =>
             lazymatch a with context [Py.ltb _ _] => fail | _ => idtac end;
             lazymatch b with context [Py.ltb _ _] => fail | _ => idtac end;
             let C := fresh "C" in
             destruct (Py.ltb a b) eqn:C;
             [apply Py.ltb_true_inv in C|apply Py.ltb_false_inv in C];
             simpl
         end.

Section Clamping2D.

Import core.

Context {U : Type}.
Variable B : Behaviour U World2D.

(** [v'] is [v] moved to the nearest point of [[lo, hi]]: a value in the
    interval as it is, a value below it to [lo], a value above it to [hi]. *)
Definition clamped (lo hi v v' : Q) : Prop :=
  (lo <= v <= hi -> v' = v) /\ (v < lo -> v' = lo) /\ (hi < v -> v' = hi).

(** Nothing but the position of the object differs. *)
Definition moved (o o' : Object) : Prop :=
  o' = mkObject (x o') (y o') (_angle o) (_is_body o) (_agent o) (scale o).


(** One turn of the loop of [World2D.update]. *)
Definition World2D_turn (delta : Q) (o : oid) : M (State U World2D) :=
  called (Object_update_called o delta) ;;
  run (Object_update B o delta) ;;
  World2D_check_bounds o.

(** The state in which [obj.update(delta)] of [o] has just returned, when
    the loop started in [s] and has gone through the objects [before]. *)
Definition World2D_updated (delta : Q) (before : list oid) (o : oid)
           (s : State U World2D) : State U World2D :=
  final ((called (Object_update_called o delta) ;;
          run (Object_update B o delta))
           (final (for_each before (World2D_turn delta) s))).







End Clamping2D.

Section ClampingGrid.

Import core.

Context {U : Type}.
Variable B : Behaviour U World2DGrid.

Lemma World2DGrid_check_bounds_clamps o (s : State U World2DGrid) :
  _tor (ext s) = false ->
  (1 <= _width (ext s))%Z -> (1 <= _height (ext s))%Z ->
  exists s',
    World2DGrid_check_bounds o s = Return s' /\
    clamped 0 (inject_Z (_width (ext s) - 1)) (x (obj s o)) (x (obj s' o)) /\
    clamped 0 (inject_Z (_height (ext s) - 1)) (y (obj s o)) (y (obj s' o)) /\
    moved (obj s o) (obj s' o) /\
    (forall o', o' <> o -> obj s' o' = obj s o') /\
    self s' = self s /\ ext s' = ext s.
Proof.
  intros Ht Hw Hh. unfold World2DGrid_check_bounds. rewrite Ht. simpl.
  destruct (guarded_modify
              (fun s => Py.ltb (inject_Z (_width (ext s) - 1)) (x (obj s o)))
              (fun s => set_x (inject_Z (_width (ext s) - 1))) o s)
    as (s1 & E1 & O1 & F1 & S1 & X1).
  destruct (guarded_modify
              (fun s => Py.ltb (inject_Z (_height (ext s) - 1)) (y (obj s o)))
              (fun s => set_y (inject_Z (_height (ext s) - 1))) o s1)
    as (s2 & E2 & O2 & F2 & S2 & X2).
  destruct (guarded_modify (fun s => Py.ltb (x (obj s o)) 0)
              (fun s => set_x 0) o s2)
    as (s3 & E3 & O3 & F3 & S3 & X3).
  destruct (guarded_modify (fun s => Py.ltb (y (obj s o)) 0)
              (fun s => set_y 0) o s3)
    as (s4 & E4 & O4 & F4 & S4 & X4).
  exists s4. split.
  { rewrite (andThen_Return _ _ _ _ E1), (andThen_Return _ _ _ _ E2),
            (andThen_Return _ _ _ _ E3). exact E4. }
  assert (Hw' : 0 <= inject_Z (_width (ext s) - 1)).
  { change 0 with (inject_Z 0). rewrite <- Zle_Qle. lia. }
  assert (Hh' : 0 <= inject_Z (_height (ext s) - 1)).
  { change 0 with (inject_Z 0). rewrite <- Zle_Qle. lia. }
  split; [|split; [|split; [|split; [|split; congruence]]]].
  4:{ intros o' NE. rewrite F4, F3, F2, F1 by exact NE. reflexivity. }
  all: clear E1 E2 E3 E4 F1 F2 F3 F4; unfold clamped, moved;
    rewrite O4, O3, O2, X1, O1; clear O1 O2 O3 O4;
    revert Hw' Hh';
    generalize (inject_Z (_width (ext s) - 1)) (inject_Z (_height (ext s) - 1));
    intros qw qh Hw' Hh';
    destruct (obj s o) as [x0 y0 a0 b0 g0 c0]; simpl in *;
    simpl; case_guard; repeat split; intros; try reflexivity; exfalso; lra.
Qed.









End ClampingGrid.

(** ** Sample grid worlds *)

Section GridSamples.

Import core.

(** Agents that carry their body back to the corner [(0, 0)] when they
    think; objects that drift to the right by [delta]. *)
Definition homing : Behaviour unit World2DGrid :=
  mkBehaviour
    (fun _ _ s => heap s)
    (fun a _ s => (match _body (agt s a) with
                   | Some b => set_obj b (move_to 0 0 (obj s b)) (heap s)
                   | None => heap s
                   end, [7%nat]))
    (fun _ _ s => heap s)
    (fun o delta s => set_obj o (translate delta 0 (obj s o)) (heap s)).

(** Agents whose action pushes object 1 one cell to the right. *)
Definition pushing : Behaviour unit World2DGrid :=
  mkBehaviour
    (fun _ _ s => heap s)
    (fun _ _ s => (heap s, [7%nat]))
    (fun _ _ s => set_obj 1%nat (translate 1 0 (obj s 1%nat)) (heap s))
    (fun _ _ s => heap s).

(** Agents that step one cell to the left when they think. *)
Definition leaving : Behaviour unit World2DGrid :=
  mkBehaviour
    (fun _ _ s => heap s)
    (fun a _ s => (match _body (agt s a) with
                   | Some b => set_obj b (translate (-1) 0 (obj s b)) (heap s)
                   | None => heap s
                   end, []))
    (fun _ _ s => heap s)
    (fun _ _ s => heap s).

Lemma homing_tame : agents_tame homing.
Proof.
  intro a. split; [|split].
  - intros p s. split; [reflexivity|]. split; [intros; split; reflexivity|].
    intros b _ H. exact H.
  - intros delta s. simpl. destruct (_body (agt s a)) as [b|] eqn:Eb.
    + split; [exact Eb|]. split.
      * intros o NE. unfold obj. simpl. unfold upd.
        destruct (Nat.eqb_spec o b) as [->|_]; [congruence|split; reflexivity].
      * intros b' E [[H0 Hw] [H1 Hh]]. injection E as <-.
        simpl. unfold upd. rewrite Nat.eqb_refl. unfold on_grid. simpl.
        change (Py.round 0) with 0%Z. lia.
    + split; [exact Eb|]. split; [intros; split; reflexivity|].
      intros b' E. discriminate E.
  - intros act s. split; [reflexivity|]. split; [intros; split; reflexivity|].
    intros b _ H. exact H.
Qed.

Lemma homing_local : objects_local homing.
Proof.
  intros o delta s o' NE. unfold obj. simpl. unfold upd.
  apply Nat.eqb_neq in NE. rewrite NE. split; reflexivity.
Qed.


(** Agent 0 with body 0 standing at [(1, 1)]; object 1 at [(2, 0)]. *)
Definition grid_heap : Heap unit :=
  body_setter 0%nat (Some 0%nat)
    (mkHeap (fun o => if Nat.eqb o 1 then Object__init__ 2 0 0
                      else Object__init__ 1 1 0)
            (fun _ => Agent__init__) tt).

(** A closed grid of 3 columns and 2 rows, running, its agent registered
    and nothing added yet. *)
Definition grid_start : State unit World2DGrid :=
  start grid_heap (mkWorld [0%nat] [] [] false) (snd (World2DGrid__init__ 3 2 false)).

Definition grid_with_body : State unit World2DGrid :=
  final (World2DGrid_add_object 0%nat grid_start).

Definition grid_populated : State unit World2DGrid :=
  final (World2DGrid_add_object 1%nat grid_with_body).

(** The populated world after the first phase of a tick, after a whole
    tick, and after the removal of object 1 that follows. *)
Definition grid_processed : State unit World2DGrid :=
  final (World2DGrid_process_agents homing 1 grid_populated).

Definition grid_ticked : State unit World2DGrid :=
  final (World2DGrid_update homing 1 grid_populated).

Definition grid_relieved : State unit World2DGrid :=
  final (World2DGrid_remove_object 1%nat grid_ticked).

(** [add_agent] puts the body of an agent on the grid. *)
Example grid_add_agent :
  _grid (ext (final (World2DGrid_add_agent 0%nat
                       (start grid_heap (mkWorld [] [] [] false)
                              (snd (World2DGrid__init__ 3 2 false))))))
  = [[[]; []; []]; [[]; [0%nat]; []]].
Proof. vm_compute. reflexivity. Qed.

Example grid_populated_cells :
  _objects (self grid_populated) = [0%nat; 1%nat] /\
  _grid (ext grid_populated) = [[[]; []; [1%nat]]; [[]; [0%nat]; []]].
Proof. vm_compute. split; reflexivity. Qed.

(** Everything at [(0, 0)]: agent 0 with body 0, and object 1. *)
Definition corner_heap : Heap unit :=
  body_setter 0%nat (Some 0%nat)
    (mkHeap (fun _ => Object__init__ 0 0 0) (fun _ => Agent__init__) tt).

Definition row_start (width : Z) : State unit World2DGrid :=
  start corner_heap (mkWorld [0%nat] [] [] false)
        (snd (World2DGrid__init__ width 1 false)).

(** A row of two cells holding the body and object 1. *)
Definition row_populated : State unit World2DGrid :=
  final (World2DGrid_add_object 1%nat
           (final (World2DGrid_add_object 0%nat (row_start 2)))).

(** A row of three cells, without agents, to which object 0 was added
    twice. *)
Definition row_doubled : State unit World2DGrid :=
  final (World2DGrid_add_object 0%nat
           (final (World2DGrid_add_object 0%nat
                     (start corner_heap (mkWorld [] [] [] false)
                            (snd (World2DGrid__init__ 3 1 false)))))).

End GridSamples.

(** ** The grid world: results *)

Section GridResults.

Import core.

Lemma cell_at_init width height r c :
  cell_at (_grid (snd (World2DGrid__init__ width height false))) r c = [] /\
  cell_at (_grid (snd (World2DGrid__init__ width height true))) r c = [].
Proof.
  assert (G : forall (l : list Z) k, nth k (map (fun _ : Z => @nil oid) l) [] = []).
  { induction l as [|h t IH]; intros [|k]; simpl; try reflexivity. apply IH. }
  assert (G' : forall (l : list Z) (row : list (list oid)) k,
             nth c (nth k (map (fun _ : Z => row) l) []) [] = nth c row [] \/
             nth c (nth k (map (fun _ : Z => row) l) []) [] = []).
  { induction l as [|h t IH]; intros row [|k]; simpl.
    - right. destruct c; reflexivity.
    - right. destruct c; reflexivity.
    - left. reflexivity.
    - apply IH. }
  unfold cell_at. simpl.
  split; destruct (G' (Py.range height) (map (fun _ : Z => []) (Py.range width)) r)
    as [E|E]; rewrite E; try reflexivity; apply G.
Qed.

(** A grid world as constructed, before any object is added, satisfies
    the invariant. *)
Lemma World2DGrid__init__inv {U} width height tor (s : State U World2DGrid) :
  _objects (self s) = [] ->
  ext s = snd (World2DGrid__init__ width height tor) ->
  grid_inv s.
Proof.
  intros Hobj Hext. unfold grid_inv, listed, cells_hold. rewrite Hobj, Hext.
  split; [constructor|]. split; [intros o []|].
  split; [apply World2DGrid__init__shape|].
  intros r c _ _.
  assert (E : cell_at (_grid (snd (World2DGrid__init__ width height tor))) r c = []).
  { destruct tor; apply cell_at_init. }
  rewrite E. split; [constructor|]. intro o. split; [intros []|intros [[] _]].
Qed.

Lemma grid_start_inv : grid_inv grid_start.
Proof. apply (World2DGrid__init__inv 3 2 false); reflexivity. Qed.

Lemma grid_populated_inv : grid_inv grid_populated.
Proof.
  apply (World2DGrid_add_object_inv 1%nat grid_with_body).
  - apply (World2DGrid_add_object_inv 0%nat grid_start).
    + exact grid_start_inv.
    + intros [].
    + vm_compute. reflexivity.
  - vm_compute. intros [E|[]]. discriminate E.
  - vm_compute. reflexivity.
Qed.

Lemma row_populated_inv : grid_inv row_populated.
Proof.
  apply (World2DGrid_add_object_inv 1%nat
           (final (World2DGrid_add_object 0%nat (row_start 2)))).
  - apply (World2DGrid_add_object_inv 0%nat (row_start 2)).
    + apply (World2DGrid__init__inv 2 1 false); reflexivity.
    + intros [].
    + vm_compute. reflexivity.
  - vm_compute. intros [E|[]]. discriminate E.
  - vm_compute. reflexivity.
Qed.

(** C1, as the code has it.  On a grid world whose object list has no
    duplicates and whose cells hold exactly the listed objects, each once and
    in the cell of its rounded coordinates, every listed object occurs in the
    cell of its rounded coordinates and in no other; a world as constructed
    is such a world; and the property still holds when [add_object] of an
    object not yet listed, [remove_object], [process_agents] or [update]
    returns, provided the methods called for an agent leave its body
    reference alone, move no other object and leave the body on the grid, and
    [Object.update] moves no other object. *)
Theorem grid_index_preserved :
  forall U (B : Behaviour U World2DGrid),
    (forall s : State U World2DGrid, grid_inv s -> indexed s) /\
    (forall width height tor (s : State U World2DGrid),
        _objects (self s) = [] ->
        ext s = snd (World2DGrid__init__ width height tor) -> grid_inv s) /\
    (forall o (s s' : State U World2DGrid),
        grid_inv s -> ~ listed s o ->
        World2DGrid_add_object o s = Return s' -> grid_inv s') /\
    (forall o (s s' : State U World2DGrid),
        grid_inv s -> World2DGrid_remove_object o s = Return s' -> grid_inv s') /\
    (forall delta s s',
        agents_tame B -> grid_inv s ->
        World2DGrid_process_agents B delta s = Return s' -> grid_inv s') /\
    (forall delta s s',
        agents_tame B -> objects_local B -> grid_inv s ->
        World2DGrid_update B delta s = Return s' -> grid_inv s').
Proof.
  intros U B. split; [|split; [|split; [|split; [|split]]]].
  - apply grid_inv_indexed.
  - intros width height tor s. apply World2DGrid__init__inv.
  - intros o s s'. apply World2DGrid_add_object_inv.
  - intros o s s'. apply World2DGrid_remove_object_inv.
  - intros delta s s' Ht Hinv E.
    exact (World2DGrid_process_agents_inv B delta Ht s s' Hinv E).
  - intros delta s s' Ht Hl Hinv E.
    exact (World2DGrid_update_inv B delta Ht Hl s s' Hinv E).
Qed.

(** The populated 3 x 2 world, ticked once and then relieved of object 1. *)
Lemma grid_index_preserved_witness :
  grid_inv grid_start /\ grid_inv grid_with_body /\ grid_inv grid_populated /\
  grid_inv grid_processed /\ grid_inv grid_ticked /\ grid_inv grid_relieved /\
  indexed grid_relieved.
Proof.
  destruct (grid_index_preserved unit homing)
    as (Hidx & Hinit & Hadd & Hrem & Hproc & Hupd).
  assert (H0 : grid_inv grid_start).
  { apply (Hinit 3%Z 2%Z false); reflexivity. }
  assert (H1 : grid_inv grid_with_body).
  { apply (Hadd 0%nat grid_start grid_with_body H0);
      [intros []|vm_compute; reflexivity]. }
  assert (H2 : grid_inv grid_populated).
  { apply (Hadd 1%nat grid_with_body grid_populated H1).
    - vm_compute. intros [E|[]]. discriminate E.
    - vm_compute. reflexivity. }
  assert (H3 : grid_inv grid_processed).
  { apply (Hproc 1 grid_populated grid_processed homing_tame H2).
    vm_compute. reflexivity. }
  assert (H4 : grid_inv grid_ticked).
  { apply (Hupd 1 grid_populated grid_ticked homing_tame homing_local H2).
    vm_compute. reflexivity. }
  assert (H5 : grid_inv grid_relieved).
  { apply (Hrem 1%nat grid_ticked grid_relieved H4). vm_compute. reflexivity. }
  exact (conj H0 (conj H1 (conj H2 (conj H3 (conj H4
           (conj H5 (Hidx grid_relieved H5))))))).
Defined.

Example grid_after_tick :
  _grid (ext grid_ticked) = [[[]; [0%nat]; [1%nat]]; [[]; []; []]] /\
  x (obj grid_ticked 1%nat) == 2 /\
  x (obj grid_ticked 0%nat) == 1 /\ y (obj grid_ticked 0%nat) == 0.
Proof. vm_compute. repeat split. Qed.

Lemma row_doubled_indexed : indexed row_doubled.
Proof.
  intros o Ho.
  assert (E : o = 0%nat).
  { vm_compute in Ho. destruct Ho as [<-|[<-|[]]]; reflexivity. }
  subst o. split.
  - split; vm_compute; (split; [discriminate|reflexivity]).
  - intros r c Hr Hc.
    destruct r as [|r]; [|vm_compute in Hr; lia].
    destruct c as [|[|[|c]]]; [| | |vm_compute in Hc; lia].
    + vm_compute. split; [intros _; split; reflexivity|intros _; left; reflexivity].
    + vm_compute. split; [intros []|intros [_ E]; discriminate E].
    + vm_compute. split; [intros []|intros [_ E]; discriminate E].
Qed.

(** C1, as stated, fails.  (1) On a row of two cells an agent's action
    pushes object 1 to the right: [process_agents] returns, and object 1 is
    still in the cell it left.  (2) An agent steps to the left of column 0:
    [process_agents] returns with the body at [x = -1], which no cell of the
    grid has as its index; the negative index has put it into the last
    column.  (3) An object added twice and drifting to the
    right is, after an [update], in the cell it started from and in the cell
    it reached. *)
Lemma grid_index_not_preserved :
  (indexed row_populated /\
   raised (World2DGrid_process_agents pushing 1 row_populated) = None /\
   ~ indexed (final (World2DGrid_process_agents pushing 1 row_populated))) /\
  (indexed row_populated /\
   raised (World2DGrid_process_agents leaving 1 row_populated) = None /\
   Py.round (x (obj (final (World2DGrid_process_agents leaving 1 row_populated))
                    0%nat)) = (-1)%Z /\
   In 0%nat (cell_at (_grid (ext (final (World2DGrid_process_agents
                                           leaving 1 row_populated)))) 0 1) /\
   ~ indexed (final (World2DGrid_process_agents leaving 1 row_populated))) /\
  (indexed row_doubled /\
   raised (World2DGrid_update homing 1 row_doubled) = None /\
   ~ indexed (final (World2DGrid_update homing 1 row_doubled))).
Proof.
  split; [|split].
  - split; [apply grid_inv_indexed, row_populated_inv|].
    split; [vm_compute; reflexivity|].
    intro H. destruct (H 1%nat) as [_ Hc]; [vm_compute; right; left; reflexivity|].
    destruct (Hc 0%nat 1%nat) as [_ Hin]; [vm_compute; lia|vm_compute; lia|].
    assert (E : In 1%nat (cell_at (_grid (ext (final (World2DGrid_process_agents
                                                      pushing 1 row_populated))))
                                  0 1)).
    { apply Hin. vm_compute. split; reflexivity. }
    vm_compute in E. exact E.
  - split; [apply grid_inv_indexed, row_populated_inv|].
    split; [vm_compute; reflexivity|].
    split; [vm_compute; reflexivity|].
    split; [vm_compute; left; reflexivity|].
    intro H. destruct (H 0%nat) as [[[Hx _] _] _]; [vm_compute; left; reflexivity|].
    vm_compute in Hx. apply Hx. reflexivity.
  - split; [exact row_doubled_indexed|].
    split; [vm_compute; reflexivity|].
    intro H. destruct (H 0%nat) as [_ Hc]; [vm_compute; left; reflexivity|].
    destruct (Hc 0%nat 0%nat) as [Hst _]; [vm_compute; lia|vm_compute; lia|].
    destruct Hst as [_ E]; [vm_compute; left; reflexivity|].
    vm_compute in E. discriminate E.
Qed.


(** A continuous world of size 10 x 10 whose object 1 starts at the right
    edge, and the populated grid, whose object 1 starts in the last column. *)
Definition edge_heap : Heap unit :=
  body_setter 0%nat (Some 0%nat)
    (mkHeap (fun o => if Nat.eqb o 1 then Object__init__ (19 # 2) 3 0
                      else Object__init__ 0 0 0)
            (fun _ => Agent__init__) tt).

Definition edge_world : State unit World2D :=
  start edge_heap (one_agent_world false) (mkWorld2D 10 10).

Definition edge_world_ticked : State unit World2D :=
  final (World2D_update drifting 1 edge_world).


(** Object 1 drifts from 19/2 to 21/2 and is put back on the edge; object
    0, the body that its agent has moved to 1, drifts to 2 and stays. *)
Example edge_world_clamped :
  x (obj (World2D_updated drifting 1 [0%nat] 1%nat
            (final (World_process_agents drifting 1 edge_world))) 1%nat) == 21 # 2 /\
  x (obj edge_world_ticked 1%nat) == 10 /\ x (obj edge_world_ticked 0%nat) == 2.
Proof. vm_compute. repeat split. Qed.




End GridResults.

(** ** Queries on the cells of a grid world *)

Section CellQueries.

Import core.

(** Inside the grid the cell at two indices is read without error. *)
Lemma grid_cell_in_range w (iy ix : Z) :
  grid_shape w ->
  (0 <= iy < _height w)%Z -> (0 <= ix < _width w)%Z ->
  grid_cell w iy ix = inr (cell_at (_grid w) (Z.to_nat iy) (Z.to_nat ix)).
Proof.
  intros [Hlen Hrows] Hy Hx. unfold grid_cell, cell_at.
  rewrite getitem_in_range by lia.
  destruct (nth_error (_grid w) (Z.to_nat iy)) as [row|] eqn:Erow.
  2:{ apply nth_error_None in Erow. lia. }
  assert (Hrow : length row = Z.to_nat (_width w)).
  { apply nth_error_In in Erow. rewrite Forall_forall in Hrows.
    apply Hrows. exact Erow. }
  rewrite getitem_in_range by lia.
  destruct (nth_error row (Z.to_nat ix)) as [c|] eqn:Ec.
  2:{ apply nth_error_None in Ec. lia. }
  rewrite (nth_error_to_nth _ _ _ [] Erow), (nth_error_to_nth _ _ _ [] Ec).
  reflexivity.
Qed.

(** The test of the first branch of the two neighbourhood loops. *)
Definition inside (w : World2DGrid) (c : Z * Z) : bool :=
  ((0 <=? fst c)%Z && (fst c <? _width w)%Z) &&
  ((0 <=? snd c)%Z && (snd c <? _height w)%Z).

Lemma inside_spec w c :
  inside w c = true <-> (0 <= fst c < _width w)%Z /\ (0 <= snd c < _height w)%Z.
Proof.
  unfold inside. rewrite !andb_true_iff, !Z.leb_le, !Z.ltb_lt. tauto.
Qed.

Definition shift (x y : Z) (d : Z * Z) : Z * Z := ((x + fst d)%Z, (y + snd d)%Z).

Definition wrap (w : World2DGrid) (c : Z * Z) : Z * Z :=
  ((fst c mod _width w)%Z, (snd c mod _height w)%Z).

(** In a world that is not toroidal the loop collects the shifted cells
    that lie inside the grid, in the order of the offsets. *)
Lemma get_neighbourhood_loop_closed w x y nhood result :
  _tor w = false ->
  get_neighbourhood_loop w x y nhood result
  = inr (result ++ filter (inside w) (map (shift x y) nhood)).
Proof.
  intro Ht. revert result.
  induction nhood as [|[dx dy] nhood IH]; intro result;
    cbn [get_neighbourhood_loop map filter].
  - rewrite app_nil_r. reflexivity.
  - rewrite Ht.
    change (negb false && ((0 <=? x + dx)%Z && (x + dx <? _width w)%Z) &&
            ((0 <=? y + dy)%Z && (y + dy <? _height w)%Z))
      with (inside w (shift x y (dx, dy))).
    destruct (inside w (shift x y (dx, dy))).
    + rewrite IH, <- app_assoc. reflexivity.
    + apply IH.
Qed.

(** In a toroidal world of nonzero sizes it collects one wrapped cell for
    every offset. *)
Lemma get_neighbourhood_loop_torus w x y nhood result :
  _tor w = true -> _width w <> 0%Z -> _height w <> 0%Z ->
  get_neighbourhood_loop w x y nhood result
  = inr (result ++ map (fun d => wrap w (shift x y d)) nhood).
Proof.
  intros Ht Hw Hh. revert result.
  induction nhood as [|[dx dy] nhood IH]; intro result; simpl.
  - rewrite app_nil_r. reflexivity.
  - rewrite Ht. simpl. unfold Py.mod_.
    destruct (Z.eqb_spec (_width w) 0) as [E|_]; [contradiction|].
    destruct (Z.eqb_spec (_height w) 0) as [E|_]; [contradiction|].
    rewrite IH, <- app_assoc. reflexivity.
Qed.

(** A toroidal world without columns or without rows has no neighbourhood
    to offer: the wrap divides by zero at the first offset. *)
Lemma get_neighbourhood_loop_degenerate w x y d nhood result :
  _tor w = true -> _width w = 0%Z \/ _height w = 0%Z ->
  get_neighbourhood_loop w x y (d :: nhood) result = inl ZeroDivisionError.
Proof.
  intros Ht H. destruct d as [dx dy]. simpl. rewrite Ht. simpl. unfold Py.mod_.
  destruct (Z.eqb_spec (_width w) 0) as [E|NW]; [reflexivity|].
  destruct (Z.eqb_spec (_height w) 0) as [E|NH]; [reflexivity|].
  destruct H; contradiction.
Qed.

Lemma wrap_inside w c :
  (0 < _width w)%Z -> (0 < _height w)%Z -> inside w (wrap w c) = true.
Proof.
  intros Hw Hh. apply inside_spec. unfold wrap. simpl.
  split; apply Z.mod_pos_bound; assumption.
Qed.

(** The cells that [get_neighbours] reads, without the error cases. *)
Lemma get_neighbours_loop_cells w x y nhood result cells0 cells :
  grid_shape w ->
  get_neighbourhood_loop w x y nhood cells0 = inr cells ->
  (forall c, In c cells -> inside w c = true) ->
  exists added,
    cells = cells0 ++ added /\
    get_neighbours_loop w x y nhood result
    = inr (result ++ flat_map (fun c => cell_at (_grid w) (Z.to_nat (snd c))
                                                 (Z.to_nat (fst c))) added).
Proof.
  intros Hs. revert result cells0.
  induction nhood as [|[dx dy] nhood IH]; intros result cells0 E Hin; simpl in *.
  - injection E as <-. exists []. rewrite !app_nil_r. split; reflexivity.
  - destruct (negb (_tor w) && ((0 <=? x + dx)%Z && (x + dx <? _width w)%Z) &&
              ((0 <=? y + dy)%Z && (y + dy <? _height w)%Z)) eqn:T.
    + destruct (IH (result ++ cell_at (_grid w) (Z.to_nat (y + dy)) (Z.to_nat (x + dx)))
                   (cells0 ++ [((x + dx)%Z, (y + dy)%Z)]) E Hin)
        as (added & -> & G).
      exists (((x + dx)%Z, (y + dy)%Z) :: added). split.
      * rewrite <- app_assoc. reflexivity.
      * rewrite !andb_true_iff, !Z.leb_le, !Z.ltb_lt in T.
        rewrite grid_cell_in_range by (try exact Hs; lia).
        rewrite G. simpl. rewrite <- app_assoc. reflexivity.
    + destruct (_tor w).
      * destruct (Py.mod_ (x + dx) (_width w)) as [x1|]; [|discriminate].
        destruct (Py.mod_ (y + dy) (_height w)) as [y1|]; [|discriminate].
        destruct (IH (result ++ cell_at (_grid w) (Z.to_nat y1) (Z.to_nat x1))
                     (cells0 ++ [(x1, y1)]) E Hin) as (added & -> & G).
        assert (Hc : inside w (x1, y1) = true).
        { apply Hin. rewrite <- app_assoc. apply in_or_app. right. left. reflexivity. }
        apply inside_spec in Hc. simpl in Hc.
        exists ((x1, y1) :: added). split.
        -- rewrite <- app_assoc. reflexivity.
        -- rewrite grid_cell_in_range by (try exact Hs; lia).
           rewrite G. simpl. rewrite <- app_assoc. reflexivity.
      * apply IH; assumption.
Qed.


(** Whenever the neighbourhood can be computed its cells lie inside the
    grid. *)
Lemma get_neighbourhood_inside l w px py :
  (_tor w = true -> (0 < _width w)%Z /\ (0 < _height w)%Z) ->
  exists cells,
    World2DGrid_get_neighbourhood l w px py = inr cells /\
    forall c, In c cells -> inside w c = true.
Proof.
  intro Hpos. unfold World2DGrid_get_neighbourhood.
  destruct (_tor w) eqn:Ht.
  - destruct (Hpos eq_refl) as [Hw Hh].
    rewrite get_neighbourhood_loop_torus by (try exact Ht; lia).
    eexists. split; [reflexivity|].
    intros c Hc. simpl in Hc. apply in_map_iff in Hc as (d & <- & _).
    apply wrap_inside; assumption.
  - rewrite get_neighbourhood_loop_closed by exact Ht.
    eexists. split; [reflexivity|].
    intros c Hc. simpl in Hc. apply filter_In in Hc. apply Hc.
Qed.

(** X1.  In a world that is not toroidal, or in a toroidal one with at
    least one column and one row, [get_neighbourhood] returns; every cell it
    returns lies inside the grid.  Without the torus the cells returned are
    the cells of the grid that one offset of the neighbourhood leads to from
    the rounded position; with it there is one cell for every offset,
    wrapped around the edges. *)
Theorem get_neighbourhood_in_grid l w px py :
  (_tor w = true -> (0 < _width w)%Z /\ (0 < _height w)%Z) ->
  exists cells,
    World2DGrid_get_neighbourhood l w px py = inr cells /\
    (forall c, In c cells ->
               (0 <= fst c < _width w)%Z /\ (0 <= snd c < _height w)%Z) /\
    (_tor w = false ->
     forall c, In c cells <->
               ((0 <= fst c < _width w)%Z /\ (0 <= snd c < _height w)%Z) /\
               In ((fst c - Py.round px)%Z, (snd c - Py.round py)%Z) (_nhood l)) /\
    (_tor w = true ->
     cells = map (fun d => (((Py.round px + fst d) mod _width w)%Z,
                            ((Py.round py + snd d) mod _height w)%Z)) (_nhood l)).
Proof.
  intro Hpos. unfold World2DGrid_get_neighbourhood.
  destruct (_tor w) eqn:Ht.
  - destruct (Hpos eq_refl) as [Hw Hh].
    rewrite get_neighbourhood_loop_torus by (try exact Ht; lia).
    eexists. split; [reflexivity|]. split; [|split; [discriminate|reflexivity]].
    intros c Hc. simpl in Hc. apply in_map_iff in Hc as (d & <- & _).
    apply inside_spec. apply wrap_inside; assumption.
  - rewrite get_neighbourhood_loop_closed by exact Ht.
    eexists. split; [reflexivity|].
    assert (G : forall c, In c (filter (inside w)
                                 (map (shift (Py.round px) (Py.round py)) (_nhood l))) <->
                          ((0 <= fst c < _width w)%Z /\ (0 <= snd c < _height w)%Z) /\
                          In ((fst c - Py.round px)%Z, (snd c - Py.round py)%Z) (_nhood l)).
    { intro c. rewrite filter_In, inside_spec, in_map_iff. split.
      - intros [(d & <- & Hd) Hin]. split; [exact Hin|].
        destruct d as [dx dy]. simpl.
        replace (Py.round px + dx - Py.round px)%Z with dx by lia.
        replace (Py.round py + dy - Py.round py)%Z with dy by lia. exact Hd.
      - intros [Hin Hd]. split; [|exact Hin].
        eexists. split; [|exact Hd]. destruct c as [cx cy]. unfold shift. simpl.
        f_equal; lia. }
    split; [|split; [intros _; exact G|discriminate]].
    intros c Hc. simpl in Hc. apply G in Hc. exact (proj1 Hc).
Qed.

(** Worlds of 3 columns and 2 rows with cells of size 20 and the Moore
    neighbourhood, asked for the neighbourhood of the cell [(0, 0)]. *)
Definition small_layout : Layout := World2DGrid__init__layout 20 moore.

Definition small_grid (tor : bool) : World2DGrid :=
  snd (World2DGrid__init__ 3 2 tor).

Lemma get_neighbourhood_in_grid_witness :
  exists cells,
    World2DGrid_get_neighbourhood small_layout (small_grid true) 0 0 = inr cells /\
    (forall c, In c cells -> (0 <= fst c < 3)%Z /\ (0 <= snd c < 2)%Z) /\
    length cells = 8%nat.
Proof.
  destruct (get_neighbourhood_in_grid small_layout (small_grid true) 0 0)
    as (cells & E & Hin & _ & Ht).
  { intros _. simpl. lia. }
  exists cells. split; [exact E|]. split; [exact Hin|].
  rewrite (Ht eq_refl). reflexivity.
Defined.

Example corner_neighbourhood :
  World2DGrid_get_neighbourhood small_layout (small_grid false) 0 0
  = inr [(1, 0); (0, 1); (1, 1)]%Z.
Proof. reflexivity. Qed.

Example corner_neighbourhood_torus :
  World2DGrid_get_neighbourhood small_layout (small_grid true) 0 0
  = inr [(2, 1); (0, 1); (1, 1); (2, 0); (1, 0); (2, 1); (0, 1); (1, 1)]%Z.
Proof. reflexivity. Qed.

(** X2.  A toroidal world without columns or without rows answers neither
    query: both [get_neighbours] and [get_neighbourhood] raise
    [ZeroDivisionError] when they wrap the first offset. *)
Theorem neighbourhood_of_empty_torus l w px py :
  _tor w = true -> _width w = 0%Z \/ _height w = 0%Z -> _nhood l <> [] ->
  World2DGrid_get_neighbourhood l w px py = inl ZeroDivisionError /\
  World2DGrid_get_neighbours l w px py = inl ZeroDivisionError.
Proof.
  intros Ht H Hn. unfold World2DGrid_get_neighbourhood, World2DGrid_get_neighbours.
  destruct (_nhood l) as [|[dx dy] nhood]; [contradiction|]. split.
  - apply get_neighbourhood_loop_degenerate; assumption.
  - simpl. rewrite Ht. simpl. unfold Py.mod_.
    destruct (Z.eqb_spec (_width w) 0) as [E|NW]; [reflexivity|].
    destruct (Z.eqb_spec (_height w) 0) as [E|NH]; [reflexivity|].
    destruct H; contradiction.
Qed.

Lemma neighbourhood_of_empty_torus_witness :
  World2DGrid_get_neighbourhood small_layout (snd (World2DGrid__init__ 0 2 true)) 0 0
  = inl ZeroDivisionError /\
  World2DGrid_get_neighbours small_layout (snd (World2DGrid__init__ 0 2 true)) 0 0
  = inl ZeroDivisionError.
Proof.
  apply (neighbourhood_of_empty_torus small_layout (snd (World2DGrid__init__ 0 2 true)) 0 0).
  - reflexivity.
  - left. reflexivity.
  - discriminate.
Defined.

(** Neighbourhoods whose offsets are distinct steps of at most one cell
    along each axis, the step that stays in place excepted. *)
Definition unit_offsets (nhood : list (Z * Z)) : Prop :=
  NoDup nhood /\ ~ In (0, 0)%Z nhood /\
  Forall (fun d => (-1 <= fst d <= 1)%Z /\ (-1 <= snd d <= 1)%Z) nhood.

Lemma moore_unit_offsets : unit_offsets moore.
Proof.
  split; [|split].
  - unfold moore.
    repeat (constructor;
            [intro H; simpl in H;
             repeat (destruct H as [H|H]; [discriminate H|]); exact H|]).
    constructor.
  - unfold moore. intro H.
    repeat (destruct H as [H|H]; [discriminate H|]). exact H.
  - unfold moore. repeat constructor; simpl; lia.
Qed.

Lemma von_neumann_unit_offsets : unit_offsets von_neumann.
Proof.
  split; [|split].
  - unfold von_neumann.
    repeat (constructor;
            [intro H; simpl in H;
             repeat (destruct H as [H|H]; [discriminate H|]); exact H|]).
    constructor.
  - unfold von_neumann. intro H.
    repeat (destruct H as [H|H]; [discriminate H|]). exact H.
  - unfold von_neumann. repeat constructor; simpl; lia.
Qed.

(** Two steps of at most one cell that wrap to the same index on an axis of
    three cells or more are the same step. *)
Lemma wrap_step_inj (n x d d' : Z) :
  (3 <= n)%Z -> (-1 <= d <= 1)%Z -> (-1 <= d' <= 1)%Z ->
  ((x + d) mod n = (x + d') mod n)%Z -> d = d'.
Proof.
  intros Hn Hd Hd' E.
  pose proof (Z.div_mod (x + d) n ltac:(lia)) as E1.
  pose proof (Z.div_mod (x + d') n ltac:(lia)) as E2.
  rewrite E in E1.
  assert (Hq : (d - d' = n * ((x + d) / n - (x + d') / n))%Z) by lia.
  assert (H0 : ((x + d) / n - (x + d') / n = 0)%Z) by nia.
  lia.
Qed.

Lemma NoDup_map_inj {A B} (f : A -> B) (l : list A) :
  (forall a b, In a l -> In b l -> f a = f b -> a = b) ->
  NoDup l -> NoDup (map f l).
Proof.
  intros Hinj Hnd. induction Hnd as [|a l Ha Hnd IH]; simpl; constructor.
  - intro Hin. apply in_map_iff in Hin as (b & E & Hb).
    apply Ha. rewrite (Hinj a b); [exact Hb|left; reflexivity|right; exact Hb|].
    symmetry. exact E.
  - apply IH. intros x y Hx Hy. apply Hinj; right; assumption.
Qed.

(** X3.  With the Moore or the von Neumann neighbourhood, or any other of
    distinct steps of at most one cell, [get_neighbourhood] returns no cell
    twice and never the cell asked about, in a world that is not toroidal
    and in a toroidal one of at least three columns and three rows. *)
Theorem get_neighbourhood_distinct l w px py :
  unit_offsets (_nhood l) ->
  (_tor w = true -> (3 <= _width w)%Z /\ (3 <= _height w)%Z) ->
  exists cells,
    World2DGrid_get_neighbourhood l w px py = inr cells /\
    NoDup cells /\
    ~ In (if _tor w
          then ((Py.round px mod _width w)%Z, (Py.round py mod _height w)%Z)
          else (Py.round px, Py.round py)) cells.
Proof.
  intros (Hnd & H0 & Hunit) Hsize. unfold World2DGrid_get_neighbourhood.
  rewrite Forall_forall in Hunit.
  destruct (_tor w) eqn:Ht.
  - destruct (Hsize eq_refl) as [Hw Hh].
    rewrite get_neighbourhood_loop_torus by (try exact Ht; lia).
    eexists. split; [reflexivity|]. simpl. split.
    + apply NoDup_map_inj; [|exact Hnd].
      intros [dx dy] [ex ey] Hd He E. unfold wrap, shift in E. simpl in E.
      injection E as Ex Ey.
      destruct (Hunit _ Hd) as [Hd1 Hd2]. destruct (Hunit _ He) as [He1 He2].
      simpl in *.
      rewrite (wrap_step_inj _ _ _ _ Hw Hd1 He1 Ex),
              (wrap_step_inj _ _ _ _ Hh Hd2 He2 Ey). reflexivity.
    + intro Hin. apply in_map_iff in Hin as ([dx dy] & E & Hd).
      unfold wrap, shift in E. simpl in E. injection E as Ex Ey.
      destruct (Hunit _ Hd) as [Hd1 Hd2]. simpl in *.
      replace (Py.round px) with (Py.round px + 0)%Z in Ex at 2 by lia.
      replace (Py.round py) with (Py.round py + 0)%Z in Ey at 2 by lia.
      apply wrap_step_inj in Ex; [|lia|lia|lia].
      apply wrap_step_inj in Ey; [|lia|lia|lia].
      subst. contradiction.
  - rewrite get_neighbourhood_loop_closed by exact Ht.
    eexists. split; [reflexivity|]. simpl. split.
    + apply NoDup_filter. apply NoDup_map_inj; [|exact Hnd].
      intros [dx dy] [ex ey] _ _ E. unfold shift in E. simpl in E.
      injection E as Ex Ey. f_equal; lia.
    + intro Hin. apply filter_In in Hin as [Hin _].
      apply in_map_iff in Hin as ([dx dy] & E & Hd).
      unfold shift in E. simpl in E. injection E as Ex Ey.
      replace dx with 0%Z in Hd by lia. replace dy with 0%Z in Hd by lia.
      contradiction.
Qed.

Definition torus_3x3 : World2DGrid := snd (World2DGrid__init__ 3 3 true).

Lemma get_neighbourhood_distinct_witness :
  exists cells,
    World2DGrid_get_neighbourhood small_layout torus_3x3 0 0 = inr cells /\
    NoDup cells /\ ~ In ((Py.round 0 mod 3)%Z, (Py.round 0 mod 3)%Z) cells.
Proof.
  apply (get_neighbourhood_distinct small_layout torus_3x3 0 0).
  - exact moore_unit_offsets.
  - intros _. simpl. lia.
Defined.

(** On a torus of two columns and two rows the Moore neighbourhood of a
    cell holds each of the three other cells more than once, and not the
    cell itself.  On a torus one column wide it holds the cell itself, which
    the steps to the left and to the right both reach. *)
Example narrow_torus_neighbourhood :
  World2DGrid_get_neighbourhood small_layout (snd (World2DGrid__init__ 2 2 true)) 0 0
  = inr [(1, 1); (0, 1); (1, 1); (1, 0); (1, 0); (1, 1); (0, 1); (1, 1)]%Z.
Proof. reflexivity. Qed.

Example one_column_torus_neighbourhood :
  World2DGrid_get_neighbourhood small_layout (snd (World2DGrid__init__ 1 3 true)) 0 0
  = inr [(0, 2); (0, 2); (0, 2); (0, 0); (0, 0); (0, 1); (0, 1); (0, 1)]%Z.
Proof. reflexivity. Qed.


(** The objects on the cells of a list, cell after cell. *)
Definition objects_on (w : World2DGrid) (cells : list (Z * Z)) : list oid :=
  flat_map (fun c => cell_at (_grid w) (Z.to_nat (snd c)) (Z.to_nat (fst c))) cells.

(** X4.  On a grid of the shape the constructor builds, [get_neighbours]
    returns the objects standing on the cells that [get_neighbourhood]
    returns, cell after cell in the same order; neither raises, the empty
    torus apart. *)
Theorem get_neighbours_of_neighbourhood l w px py :
  grid_shape w ->
  (_tor w = true -> (0 < _width w)%Z /\ (0 < _height w)%Z) ->
  exists cells,
    World2DGrid_get_neighbourhood l w px py = inr cells /\
    World2DGrid_get_neighbours l w px py = inr (objects_on w cells).
Proof.
  intros Hs Hpos.
  destruct (get_neighbourhood_inside l w px py Hpos) as (cells & E & Hin).
  exists cells. split; [exact E|].
  unfold World2DGrid_get_neighbourhood in E. unfold World2DGrid_get_neighbours.
  destruct (get_neighbours_loop_cells w (Py.round px) (Py.round py) (_nhood l)
              [] [] cells Hs E Hin) as (added & -> & G).
  exact G.
Qed.

Definition small_grid_with_object : World2DGrid :=
  set__grid [[[]; [7%nat]; []]; [[]; []; []]] (small_grid false).

Lemma get_neighbours_of_neighbourhood_witness :
  exists cells,
    World2DGrid_get_neighbourhood small_layout small_grid_with_object 0 0 = inr cells /\
    World2DGrid_get_neighbours small_layout small_grid_with_object 0 0
    = inr (objects_on small_grid_with_object cells).
Proof.
  apply (get_neighbours_of_neighbourhood small_layout small_grid_with_object 0 0).
  - split; [reflexivity|]. repeat constructor.
  - discriminate.
Defined.

Example corner_neighbours :
  World2DGrid_get_neighbours small_layout small_grid_with_object 0 0 = inr [7%nat].
Proof. reflexivity. Qed.

End CellQueries.

Section CellContents.

Import core.

Context {U : Type}.

(** Object [o] stands on the cell of column [cx], row [cy]. *)
Definition stands_on (s : State U World2DGrid) (o : oid) (c : Z * Z) : Prop :=
  Py.round (x (obj s o)) = fst c /\ Py.round (y (obj s o)) = snd c.

Lemma cell_at_listed (s : State U World2DGrid) (c : Z * Z) o :
  grid_inv s ->
  (0 <= fst c < _width (ext s))%Z -> (0 <= snd c < _height (ext s))%Z ->
  In o (cell_at (_grid (ext s)) (Z.to_nat (snd c)) (Z.to_nat (fst c))) <->
  listed s o /\ stands_on s o c.
Proof.
  intros (_ & _ & _ & Hcells) Hx Hy.
  destruct (Hcells (Z.to_nat (snd c)) (Z.to_nat (fst c))) as [_ Hin]; [lia|lia|].
  rewrite Hin. unfold stands_at, stands_on. rewrite !Z2Nat.id by lia.
  split; intros [H1 [H2 H3]]; repeat split; congruence.
Qed.

(** X5.  In a grid world whose index is in order, [get_neighbours] returns
    exactly the objects of the world that stand on a cell of the
    neighbourhood: an object is returned if and only if it is in the
    world's object list and its rounded coordinates are one of the cells
    that [get_neighbourhood] returns. *)
Theorem get_neighbours_sound_complete l (s : State U World2DGrid) px py :
  grid_inv s ->
  (_tor (ext s) = true -> (0 < _width (ext s))%Z /\ (0 < _height (ext s))%Z) ->
  exists cells objects,
    World2DGrid_get_neighbourhood l (ext s) px py = inr cells /\
    World2DGrid_get_neighbours l (ext s) px py = inr objects /\
    forall o, In o objects <->
              listed s o /\
              In (Py.round (x (obj s o)), Py.round (y (obj s o))) cells.
Proof.
  intros Hinv Hpos.
  destruct (get_neighbourhood_inside l (ext s) px py Hpos) as (cells & E & Hin').
  assert (Hin : forall c, In c cells ->
                          (0 <= fst c < _width (ext s))%Z /\
                          (0 <= snd c < _height (ext s))%Z)
    by (intros c Hc; apply inside_spec; apply Hin'; exact Hc).
  destruct (get_neighbours_loop_cells (ext s) (Py.round px) (Py.round py) (_nhood l)
              [] [] cells (proj1 (proj2 (proj2 Hinv))) E Hin')
    as (added & -> & G).
  exists added. eexists. split; [exact E|]. split; [exact G|].
  intro o. simpl. rewrite in_flat_map. split.
  - intros (c & Hc & Ho).
    apply cell_at_listed in Ho; [|exact Hinv|apply Hin; exact Hc|apply Hin; exact Hc].
    destruct Ho as [Hl [Hx Hy]]. split; [exact Hl|].
    rewrite Hx, Hy. destruct c. exact Hc.
  - intros [Hl Hc]. eexists. split; [exact Hc|].
    apply cell_at_listed; [exact Hinv|apply (Hin _ Hc)|apply (Hin _ Hc)|].
    split; [exact Hl|split; reflexivity].
Qed.

(** X6.  In a grid world whose index is in order, [get_cell_contents] at a
    position that rounds into the grid returns the objects of the world
    whose rounded coordinates are that cell, each once, and [is_empty] tells
    whether there is none. *)
Theorem cell_contents_are_the_objects_there (s : State U World2DGrid) px py :
  grid_inv s ->
  (0 <= Py.round px < _width (ext s))%Z ->
  (0 <= Py.round py < _height (ext s))%Z ->
  exists c,
    World2DGrid_get_cell_contents (ext s) px py = inr c /\
    NoDup c /\
    (forall o, In o c <-> listed s o /\ stands_on s o (Py.round px, Py.round py)) /\
    exists b,
      World2DGrid_is_empty (ext s) px py = inr b /\
      (b = true <->
       forall o, listed s o -> ~ stands_on s o (Py.round px, Py.round py)).
Proof.
  intros Hinv Hx Hy.
  pose proof (proj1 (proj2 (proj2 Hinv))) as Hs.
  unfold World2DGrid_get_cell_contents, World2DGrid_is_empty.
  rewrite (grid_cell_in_range _ _ _ Hs Hy Hx).
  set (c := cell_at (_grid (ext s)) (Z.to_nat (Py.round py)) (Z.to_nat (Py.round px))).
  assert (Hin : forall o, In o c <->
                          listed s o /\ stands_on s o (Py.round px, Py.round py)).
  { intro o. apply (cell_at_listed s (Py.round px, Py.round py) o Hinv Hx Hy). }
  exists c. split; [reflexivity|]. split; [|split; [exact Hin|]].
  - destruct Hinv as (_ & _ & _ & Hcells).
    apply (Hcells (Z.to_nat (Py.round py)) (Z.to_nat (Py.round px))); lia.
  - eexists. split; [reflexivity|]. rewrite Nat.eqb_eq. split.
    + intros H0 o Hl Hst. apply length_zero_iff_nil in H0.
      assert (Ho : In o c) by (apply Hin; split; assumption).
      rewrite H0 in Ho. exact Ho.
    + intro Hnone. destruct c as [|o c']; [reflexivity|]. exfalso.
      destruct (proj1 (Hin o) (or_introl eq_refl)) as [Hl Hst].
      exact (Hnone o Hl Hst).
Qed.

End CellContents.

Section CellSamples.

Import core.

(** The populated 3 x 2 world: object 0 stands at [(1, 1)], object 1 at
    [(2, 0)]. *)
Lemma get_neighbours_sound_complete_witness :
  exists cells objects,
    World2DGrid_get_neighbourhood small_layout (ext grid_populated) 1 0 = inr cells /\
    World2DGrid_get_neighbours small_layout (ext grid_populated) 1 0 = inr objects /\
    forall o, In o objects <->
              listed grid_populated o /\
              In (Py.round (x (obj grid_populated o)),
                  Py.round (y (obj grid_populated o))) cells.
Proof.
  apply (get_neighbours_sound_complete small_layout grid_populated 1 0
           grid_populated_inv).
  intro H. vm_compute in H. discriminate H.
Defined.

Example populated_neighbours :
  World2DGrid_get_neighbours small_layout (ext grid_populated) 1 0
  = inr [1%nat; 0%nat].
Proof. vm_compute. reflexivity. Qed.

Lemma cell_contents_are_the_objects_there_witness :
  exists c,
    World2DGrid_get_cell_contents (ext grid_populated) 2 0 = inr c /\
    NoDup c /\
    (forall o, In o c <->
               listed grid_populated o /\
               stands_on grid_populated o (Py.round 2, Py.round 0)) /\
    exists b,
      World2DGrid_is_empty (ext grid_populated) 2 0 = inr b /\
      (b = true <->
       forall o, listed grid_populated o ->
                 ~ stands_on grid_populated o (Py.round 2, Py.round 0)).
Proof.
  apply (cell_contents_are_the_objects_there grid_populated 2 0 grid_populated_inv).
  - vm_compute. split; [discriminate|reflexivity].
  - vm_compute. split; [discriminate|reflexivity].
Defined.

Example populated_cell_contents :
  World2DGrid_get_cell_contents (ext grid_populated) 2 0 = inr [1%nat] /\
  World2DGrid_is_empty (ext grid_populated) 2 0 = inr false /\
  World2DGrid_is_empty (ext grid_populated) 0 0 = inr true.
Proof. vm_compute. repeat split. Qed.

End CellSamples.

(** ** Indices beyond the edge of the grid *)

Section IndexEdges.

Import core.

(** A Python list read at an index from [-len] up to [len - 1] yields the
    element counted from the end or from the start; any other index is out
    of range. *)
Lemma getitem_wrap {A} (l : list A) (i : Z) :
  (- Z.of_nat (length l) <= i < Z.of_nat (length l))%Z ->
  Py.getitem l i = nth_error l (Z.to_nat (i mod Z.of_nat (length l))).
Proof.
  intro H. unfold Py.getitem, Py.index.
  destruct (Z.leb_spec 0 i) as [H0|H0].
  - destruct (Z.ltb_spec i (Z.of_nat (length l))); [|lia].
    rewrite Z.mod_small by lia. reflexivity.
  - destruct (Z.leb_spec 0 (i + Z.of_nat (length l))); [|lia].
    replace (i mod Z.of_nat (length l))%Z with (i + Z.of_nat (length l))%Z;
      [reflexivity|].
    rewrite <- (Z.mod_add i 1) by lia. rewrite Z.mul_1_l.
    symmetry. apply Z.mod_small. lia.
Qed.

Lemma getitem_out {A} (l : list A) (i : Z) :
  (Z.of_nat (length l) <= i \/ i < - Z.of_nat (length l))%Z ->
  Py.getitem l i = None.
Proof.
  intro H. unfold Py.getitem, Py.index.
  destruct (Z.leb_spec 0 i) as [H0|H0].
  - destruct (Z.ltb_spec i (Z.of_nat (length l))); [lia|reflexivity].
  - destruct (Z.leb_spec 0 (i + Z.of_nat (length l))); [lia|reflexivity].
Qed.

Lemma getitem_row w (iy : Z) row :
  grid_shape w -> Py.getitem (_grid w) iy = Some row ->
  length row = Z.to_nat (_width w).
Proof.
  intros [_ Hrows] E. unfold Py.getitem in E.
  destruct (Py.index (length (_grid w)) iy); [|discriminate].
  apply nth_error_In in E. rewrite Forall_forall in Hrows. apply Hrows. exact E.
Qed.

(** X7.  [get_cell_contents] and [is_empty] index the grid as Python
    indexes a list, in toroidal worlds and others alike: a position that
    rounds to a column from [-width] to [-1] is read as the column that many
    places from the right edge (likewise for rows), without an error; a
    position that rounds farther out raises [IndexError]. *)
Theorem cell_contents_beyond_the_edge w px py :
  grid_shape w ->
  ((_width w <= Py.round px \/ Py.round px < - _width w \/
    _height w <= Py.round py \/ Py.round py < - _height w)%Z ->
   World2DGrid_get_cell_contents w px py = inl IndexError /\
   World2DGrid_is_empty w px py = inl IndexError) /\
  ((- _width w <= Py.round px < _width w)%Z ->
   (- _height w <= Py.round py < _height w)%Z ->
   World2DGrid_get_cell_contents w px py
   = inr (cell_at (_grid w) (Z.to_nat (Py.round py mod _height w))
                            (Z.to_nat (Py.round px mod _width w))) /\
   World2DGrid_is_empty w px py
   = inr (Nat.eqb (length (cell_at (_grid w)
                             (Z.to_nat (Py.round py mod _height w))
                             (Z.to_nat (Py.round px mod _width w)))) 0)).
Proof.
  intro Hs. pose proof Hs as [Hlen Hrows].
  unfold World2DGrid_get_cell_contents, World2DGrid_is_empty, grid_cell. split.
  - intro H.
    destruct (Py.getitem (_grid w) (Py.round py)) as [row|] eqn:Erow;
      [|split; reflexivity].
    pose proof (getitem_row w _ row Hs Erow) as Hrow.
    assert (Ey : (- _height w <= Py.round py < _height w)%Z).
    { destruct (Z_lt_ge_dec (Py.round py) (_height w)) as [H1|H1];
        [destruct (Z_le_gt_dec (- _height w) (Py.round py)) as [H2|H2]|];
        try (split; assumption);
        rewrite getitem_out in Erow by lia; discriminate Erow. }
    rewrite getitem_out by lia. split; reflexivity.
  - intros Hx Hy.
    rewrite getitem_wrap by lia.
    replace (Z.of_nat (length (_grid w))) with (_height w) by lia.
    assert (Hr : (0 <= Py.round py mod _height w < _height w)%Z)
      by (apply Z.mod_pos_bound; lia).
    destruct (nth_error (_grid w) (Z.to_nat (Py.round py mod _height w)))
      as [row|] eqn:Erow.
    2:{ apply nth_error_None in Erow. lia. }
    assert (Hrow : length row = Z.to_nat (_width w)).
    { apply nth_error_In in Erow. rewrite Forall_forall in Hrows.
      apply Hrows. exact Erow. }
    rewrite getitem_wrap by lia.
    replace (Z.of_nat (length row)) with (_width w) by lia.
    assert (Hc : (0 <= Py.round px mod _width w < _width w)%Z)
      by (apply Z.mod_pos_bound; lia).
    destruct (nth_error row (Z.to_nat (Py.round px mod _width w))) as [c|] eqn:Ec.
    2:{ apply nth_error_None in Ec. lia. }
    unfold cell_at.
    rewrite (nth_error_to_nth _ _ _ [] Erow), (nth_error_to_nth _ _ _ [] Ec).
    split; reflexivity.
Qed.

Lemma cell_contents_beyond_the_edge_witness :
  ((3 <= Py.round 3 \/ Py.round 3 < - 3 \/ 2 <= Py.round 0 \/ Py.round 0 < - 2)%Z /\
   World2DGrid_get_cell_contents small_grid_with_object 3 0 = inl IndexError) /\
  World2DGrid_get_cell_contents small_grid_with_object (-2) (-2) = inr [7%nat] /\
  World2DGrid_is_empty small_grid_with_object (-2) (-2) = inr false.
Proof.
  destruct (cell_contents_beyond_the_edge small_grid_with_object 3 0) as [Hout _].
  { split; [reflexivity|]. repeat constructor. }
  destruct (cell_contents_beyond_the_edge small_grid_with_object (-2) (-2))
    as [_ Hin].
  { split; [reflexivity|]. repeat constructor. }
  assert (H : (3 <= Py.round 3 \/ Py.round 3 < - 3 \/
               2 <= Py.round 0 \/ Py.round 0 < - 2)%Z).
  { left. vm_compute. discriminate. }
  split; [split; [exact H|exact (proj1 (Hout H))]|].
  destruct Hin as [Hc He];
    [vm_compute; (split; [discriminate|reflexivity])..|].
  rewrite Hc, He. split; reflexivity.
Defined.

End IndexEdges.

(** ** Drawing a grid world *)

Section DrawingFacts.

Import core.

Context {U : Type}.

(** The commands of one [Object.draw], for an object with the attributes
    [ob] drawn at [(px, py)]. *)
Definition drawing (o : oid) (ob : Object) (px py : Q) : list gl :=
  [glPushMatrix; glTranslatef px py 0; glRotatef (angle ob) 0 0 1]
  ++ (if negb (Qeq_bool (scale ob) 1)
      then [glScalef (scale ob) (scale ob) (scale ob)] else [])
  ++ [Batch_draw o; glPopMatrix].

Lemma Object_draw_effect o (fr : State U World2DGrid * list gl) :
  Object_draw o fr
  = Return (fst fr,
            snd fr ++ drawing o (obj (fst fr) o)
                              (x (obj (fst fr) o)) (y (obj (fst fr) o))).
Proof.
  unfold Object_draw, andThen, issue, drawing. simpl.
  destruct (negb (Qeq_bool (scale (obj (fst fr) o)) 1)); simpl;
    rewrite <- ?app_assoc; reflexivity.
Qed.

(** Everything but the store of objects is as before, and the store holds
    the same attributes for every object. *)
Definition same_objects (s s' : State U World2DGrid) : Prop :=
  (forall o, obj s' o = obj s o) /\
  agts (heap s') = agts (heap s) /\ user (heap s') = user (heap s) /\
  _perceptions s' = _perceptions s /\ self s' = self s /\ ext s' = ext s /\
  stdout s' = stdout s /\ calls s' = calls s.

Lemma same_objects_refl s : same_objects s s.
Proof. repeat split. Qed.

(** The centre of the cell an object stands on, in the units of the
    screen. *)
Definition centre_of (l : Layout) (v : Q) : Q := v * cell l + _half_cell l.

(** One turn of the loop of [draw_objects]. *)
Lemma draw_objects_turn l o (fr : State U World2DGrid * list gl) :
  exists fr',
    (let x0 := x (obj (fst fr) o) in
     let y0 := y (obj (fst fr) o) in
     on_world (modify_obj o (set_x (x0 * cell l + _half_cell l))) ;;
     on_world (modify_obj o (set_y (y0 * cell l + _half_cell l))) ;;
     Object_draw o ;;
     on_world (modify_obj o (set_x x0)) ;;
     on_world (modify_obj o (set_y y0))) fr = Return fr' /\
    same_objects (fst fr) (fst fr') /\
    snd fr' = snd fr ++ drawing o (obj (fst fr) o)
                                (centre_of l (x (obj (fst fr) o)))
                                (centre_of l (y (obj (fst fr) o))).
Proof.
  destruct fr as [s g]. cbv zeta.
  unfold Object_draw, andThen, on_world, modify_obj, issue, obj. simpl.
  unfold upd. rewrite !Nat.eqb_refl. simpl.
  destruct (negb (Qeq_bool (scale (objs (heap s) o)) 1)) eqn:Es; simpl;
    (eexists; split; [reflexivity|]); simpl.
  all: split; [split; [|repeat split]|].
  all: try (intro o'; unfold obj; simpl; unfold upd;
            destruct (Nat.eqb_spec o' o) as [->|NE]; [|reflexivity];
            rewrite ?Nat.eqb_refl; destruct (objs (heap s) o); reflexivity).
  all: unfold drawing, centre_of, obj, angle; simpl; rewrite ?Es; simpl;
    rewrite <- ?app_assoc; reflexivity.
Qed.

(** X8.  [World2DGrid.draw_objects] always returns; it draws every object
    of the list once, in order, at the centre of the cell given by its
    coordinates, [(x*cell + cell/2, y*cell + cell/2)]; when it returns every
    object has the coordinates and the other attributes it had before, and
    the world is unchanged. *)
Theorem draw_objects_restores l (fr : State U World2DGrid * list gl) :
  exists fr',
    World2DGrid_draw_objects l fr = Return fr' /\
    same_objects (fst fr) (fst fr') /\
    snd fr' = snd fr
              ++ flat_map (fun o => drawing o (obj (fst fr) o)
                                            (centre_of l (x (obj (fst fr) o)))
                                            (centre_of l (y (obj (fst fr) o))))
                          (_objects (self (fst fr))).
Proof.
  unfold World2DGrid_draw_objects.
  generalize (_objects (self (fst fr))) as objects.
  assert (G : forall objects (t : State U World2DGrid * list gl),
             same_objects (fst fr) (fst t) ->
             exists fr',
               for_each objects
                 (fun o fr0 =>
                    let x0 := x (obj (fst fr0) o) in
                    let y0 := y (obj (fst fr0) o) in
                    (on_world (modify_obj o (set_x (x0 * cell l + _half_cell l))) ;;
                     on_world (modify_obj o (set_y (y0 * cell l + _half_cell l))) ;;
                     Object_draw o ;;
                     on_world (modify_obj o (set_x x0)) ;;
                     on_world (modify_obj o (set_y y0))) fr0) t = Return fr' /\
               same_objects (fst fr) (fst fr') /\
               snd fr' = snd t
                         ++ flat_map (fun o => drawing o (obj (fst fr) o)
                                                 (centre_of l (x (obj (fst fr) o)))
                                                 (centre_of l (y (obj (fst fr) o))))
                                     objects).
  { induction objects as [|o objects IH]; intros t Ht.
    - exists t. split; [reflexivity|]. split; [exact Ht|].
      simpl. rewrite app_nil_r. reflexivity.
    - destruct (draw_objects_turn l o t) as (t1 & E1 & H1 & D1).
      assert (Ht1 : same_objects (fst fr) (fst t1)).
      { destruct Ht as (A1 & A2 & A3 & A4 & A5 & A6 & A7 & A8).
        destruct H1 as (B1 & B2 & B3 & B4 & B5 & B6 & B7 & B8).
        repeat split; try congruence; intro o'; rewrite B1; apply A1. }
      destruct (IH t1 Ht1) as (t2 & E2 & H2 & D2).
      exists t2. split; [|split; [exact H2|]].
      + change (for_each (o :: objects) ?body t)
          with ((body o ;; for_each objects body) t).
        erewrite andThen_Return; [exact E2|exact E1].
      + rewrite D2, D1. simpl. rewrite <- app_assoc.
        rewrite (proj1 Ht o). reflexivity. }
  intro objects. apply G. apply same_objects_refl.
Qed.

End DrawingFacts.

Section CellOfAPoint.

Import core.

Lemma floor_half_is_round q :
  ~ q - inject_Z (Qfloor q) == 1 # 2 -> Qfloor (q + (1 # 2)) = Py.round q.
Proof.
  intro Hnt. destruct (floor_spec q) as [Hf Hc]. unfold Py.round.
  destruct (Qcompare (q - inject_Z (Qfloor q)) (1 # 2)) eqn:E.
  - apply (proj2 (Qeq_alt _ _)) in E. contradiction.
  - apply (proj2 (Qlt_alt _ _)) in E.
    apply Z.le_antisymm.
    + apply Z.lt_succ_r. apply floor_lt_of_lt.
      unfold Z.succ. rewrite inject_Z_plus. change (inject_Z 1) with 1. lra.
    + apply floor_ge_of_ge. lra.
  - apply (proj2 (Qgt_alt _ _)) in E.
    apply Z.le_antisymm.
    + apply Z.lt_succ_r. apply floor_lt_of_lt.
      unfold Z.succ. rewrite !inject_Z_plus. change (inject_Z 1) with 1. lra.
    + apply floor_ge_of_ge. rewrite inject_Z_plus. change (inject_Z 1) with 1. lra.
Qed.

Lemma floordiv_centre c v :
  ~ c == 0 -> Py.floordiv (v * c + c / 2) c = Some (Qfloor (v + (1 # 2))).
Proof.
  intro Hc. unfold Py.floordiv.
  destruct (Qeq_bool c 0) eqn:E; [apply Qeq_bool_iff in E; contradiction|].
  f_equal. apply Qfloor_comp. field. exact Hc.
Qed.

(** Rounding half up and [round] differ at the ties that [round] sends
    down, those above an even integer, and nowhere else. *)
Lemma floor_half_round_iff q :
  Qfloor (q + (1 # 2)) = Py.round q <->
  ~ (q - inject_Z (Qfloor q) == 1 # 2 /\ Z.even (Qfloor q) = true).
Proof.
  destruct (Qeq_dec (q - inject_Z (Qfloor q)) (1 # 2)) as [Ht|Hnt].
  - assert (Ef : Qfloor (q + (1 # 2)) = (Qfloor q + 1)%Z).
    { rewrite (Qfloor_comp (q + (1 # 2)) (inject_Z (Qfloor q + 1))).
      - apply Qfloor_Z.
      - rewrite inject_Z_plus. change (inject_Z 1) with 1. lra. }
    assert (Er : Py.round q = if Z.even (Qfloor q) then Qfloor q else (Qfloor q + 1)%Z).
    { unfold Py.round. apply Qeq_alt in Ht. rewrite Ht. reflexivity. }
    rewrite Ef, Er. destruct (Z.even (Qfloor q)); split.
    + intro E. lia.
    + intro H. exfalso. apply H. split; [exact Ht|reflexivity].
    + intros _ [_ E]. discriminate E.
    + reflexivity.
  - split; [intros _ [Ht _]; contradiction|].
    intros _. apply floor_half_is_round. exact Hnt.
Qed.

(** X9.  In exact arithmetic and for a cell size other than zero,
    [get_cell] applied to the point at which [draw_objects] draws an object
    standing at [(x, y)] returns [(floor(x + 1/2), floor(y + 1/2))].  That
    is [(round(x), round(y))], the cell on which the grid keeps the object,
    except for a coordinate exactly half-way between two integers of which
    the lower is even: there [round] goes down and [get_cell] goes up. *)
Theorem get_cell_of_drawn_centre c nhood px py :
  ~ c == 0 ->
  World2DGrid_get_cell (World2DGrid__init__layout c nhood)
    (centre_of (World2DGrid__init__layout c nhood) px)
    (centre_of (World2DGrid__init__layout c nhood) py)
  = inr (Qfloor (px + (1 # 2)), Qfloor (py + (1 # 2))) /\
  (Qfloor (px + (1 # 2)) = Py.round px <->
   ~ (px - inject_Z (Qfloor px) == 1 # 2 /\ Z.even (Qfloor px) = true)) /\
  (Qfloor (py + (1 # 2)) = Py.round py <->
   ~ (py - inject_Z (Qfloor py) == 1 # 2 /\ Z.even (Qfloor py) = true)).
Proof.
  intro Hc. split; [|split; apply floor_half_round_iff].
  unfold World2DGrid_get_cell, centre_of. simpl.
  rewrite !floordiv_centre by exact Hc. reflexivity.
Qed.

Lemma get_cell_of_drawn_centre_witness :
  World2DGrid_get_cell small_layout
    (centre_of small_layout (7 # 5)) (centre_of small_layout (5 # 2))
  = inr (Qfloor ((7 # 5) + (1 # 2)), Qfloor ((5 # 2) + (1 # 2))) /\
  (Qfloor ((7 # 5) + (1 # 2)) = Py.round (7 # 5) <->
   ~ ((7 # 5) - inject_Z (Qfloor (7 # 5)) == 1 # 2 /\
      Z.even (Qfloor (7 # 5)) = true)) /\
  (Qfloor ((5 # 2) + (1 # 2)) = Py.round (5 # 2) <->
   ~ ((5 # 2) - inject_Z (Qfloor (5 # 2)) == 1 # 2 /\
      Z.even (Qfloor (5 # 2)) = true)).
Proof.
  apply (get_cell_of_drawn_centre 20 moore (7 # 5) (5 # 2)).
  intro H. vm_compute in H. discriminate H.
Defined.

(** An object at [x = 1/2] is kept on column 0 and drawn on the line
    between columns 0 and 1, which [get_cell] counts as column 1; an object
    at [y = 3/2] is kept on row 2 and found on row 2. *)
Example get_cell_of_a_tie :
  Py.round (1 # 2) = 0%Z /\ Py.round (3 # 2) = 2%Z /\
  World2DGrid_get_cell small_layout (centre_of small_layout (1 # 2))
                       (centre_of small_layout (3 # 2))
  = inr (1%Z, 2%Z).
Proof. repeat split. Qed.

(** The cell that [get_cell] returns contains the point, for a positive
    cell size; a cell size of zero raises [ZeroDivisionError]. *)
Lemma get_cell_brackets l px py :
  0 < cell l ->
  exists cx cy,
    World2DGrid_get_cell l px py = inr (cx, cy) /\
    inject_Z cx * cell l <= px < (inject_Z cx + 1) * cell l /\
    inject_Z cy * cell l <= py < (inject_Z cy + 1) * cell l.
Proof.
  intro Hc. unfold World2DGrid_get_cell, Py.floordiv.
  destruct (Qeq_bool (cell l) 0) eqn:E.
  { apply Qeq_bool_iff in E. rewrite E in Hc. exfalso. exact (Qlt_irrefl _ Hc). }
  eexists. eexists. split; [reflexivity|].
  assert (G : forall v, inject_Z (Qfloor (v / cell l)) * cell l <= v
                        < (inject_Z (Qfloor (v / cell l)) + 1) * cell l).
  { intro v. destruct (floor_spec (v / cell l)) as [Hf Hl].
    assert (Ev : v == v / cell l * cell l) by (field; lra).
    split.
    - rewrite Ev at 2. apply Qmult_le_compat_r; [exact Hf|lra].
    - rewrite Ev at 1. apply Qmult_lt_compat_r; [exact Hc|exact Hl]. }
  split; apply G.
Qed.

End CellOfAPoint.

(** ** Adding an object and removing it again *)

Section RoundTrips.

Import core.

Context {U X : Type}.

Lemma remove_first_snoc o l :
  remove_first o (l ++ [o])
  = if contains l o then remove_first o l ++ [o] else l.
Proof.
  induction l as [|h t IH]; simpl.
  - rewrite Nat.eqb_refl. reflexivity.
  - destruct (Nat.eqb o h); simpl; [reflexivity|].
    rewrite IH. destruct (contains t o); reflexivity.
Qed.

Lemma count_occ_remove_first o l v :
  In o l ->
  count_occ Nat.eq_dec l v
  = (count_occ Nat.eq_dec (remove_first o l) v
     + if Nat.eq_dec o v then 1 else 0)%nat.
Proof.
  induction l as [|h t IH]; intro Hin; [destruct Hin|].
  simpl. destruct (Nat.eqb_spec o h) as [->|NE].
  - destruct (Nat.eq_dec h v); lia.
  - destruct Hin as [E|Hin]; [congruence|].
    simpl. rewrite (IH Hin). destruct (Nat.eq_dec h v); lia.
Qed.

(** X10.  [World.add_object] followed by [World.remove_object] of the same
    object, which is nobody's body, returns without a warning and leaves
    every object in the list as often as it was before; when the object was
    not in the world, the world is exactly as it was; when it was, its
    first occurrence has moved to the end of the list. *)
Theorem World_add_then_remove o (s : State U X) :
  is_body (obj s o) = false ->
  exists s',
    (World_add_object o ;; World_remove_object o) s = Return s' /\
    heap s' = heap s /\ ext s' = ext s /\
    stdout s' = stdout s /\ calls s' = calls s /\
    (forall v, count_occ Nat.eq_dec (_objects (self s')) v
               = count_occ Nat.eq_dec (_objects (self s)) v) /\
    (~ In o (_objects (self s)) -> self s' = self s) /\
    (In o (_objects (self s)) ->
     _objects (self s') = remove_first o (_objects (self s)) ++ [o]).
Proof.
  intro Hb. unfold andThen, World_add_object, World_remove_object.
  unfold obj in *. simpl. rewrite Hb. simpl.
  assert (Hc : contains (_objects (self s) ++ [o]) o = true).
  { apply contains_In. apply in_or_app. right. left. reflexivity. }
  rewrite Hc. eexists. split; [reflexivity|]. simpl.
  repeat split.
  - intro v. rewrite remove_first_snoc.
    destruct (contains (_objects (self s)) o) eqn:E; [|reflexivity].
    apply contains_In in E.
    rewrite count_occ_app, (count_occ_remove_first o _ v E). simpl.
    destruct (Nat.eq_dec o v); reflexivity.
  - intro Hno. apply contains_false in Hno.
    rewrite remove_first_snoc, Hno. destruct (self s). reflexivity.
  - intro Hin. apply contains_In in Hin.
    rewrite remove_first_snoc, Hin. reflexivity.
Qed.

End RoundTrips.

Section RoundTripSamples.

Import core.

Lemma World_add_then_remove_witness :
  exists s',
    (World_add_object 1%nat ;; World_remove_object 1%nat) two_dead = Return s' /\
    heap s' = heap two_dead /\ ext s' = ext two_dead /\
    stdout s' = stdout two_dead /\ calls s' = calls two_dead /\
    (forall v, count_occ Nat.eq_dec (_objects (self s')) v
               = count_occ Nat.eq_dec (_objects (self two_dead)) v) /\
    (~ In 1%nat (_objects (self two_dead)) -> self s' = self two_dead) /\
    (In 1%nat (_objects (self two_dead)) ->
     _objects (self s') = remove_first 1%nat (_objects (self two_dead)) ++ [1%nat]).
Proof.
  apply (World_add_then_remove (U:=unit) (X:=unit) 1%nat two_dead).
  reflexivity.
Defined.

(** An object added a second time and removed once is still in the world,
    now at the end of the list. *)
Example World_add_twice_remove_once :
  _objects (self (final ((World_add_object 0%nat ;; World_remove_object 0%nat)
                           (start (heap two_dead) (mkWorld [] [] [0%nat; 1%nat] false) tt))))
  = [1%nat; 0%nat].
Proof. reflexivity. Qed.

End RoundTripSamples.

Section GridRoundTrips.

Import core.

Context {U : Type}.

(** Two grids of the same shape that agree on every cell are equal. *)
Lemma grid_ext (w w' : World2DGrid) :
  grid_shape w -> grid_shape w' ->
  _width w' = _width w -> _height w' = _height w ->
  (forall r c, cell_at (_grid w') r c = cell_at (_grid w) r c) ->
  _grid w' = _grid w.
Proof.
  intros Hs Hs' Hw Hh Hc.
  apply (nth_ext _ _ [] []).
  - destruct Hs as [H1 _], Hs' as [H2 _]. congruence.
  - intros n Hn. apply (nth_ext _ _ [] []).
    + rewrite (grid_shape_row w' n Hs' Hn).
      rewrite (grid_shape_row w n Hs); [congruence|].
      destruct Hs as [H1 _], Hs' as [H2 _]. lia.
    + intros c _. apply (Hc n c).
Qed.

(** The bounds check moves the object and does nothing else. *)
Definition only_moved (s s' : State U World2DGrid) : Prop :=
  (forall o, _is_body (obj s' o) = _is_body (obj s o)) /\
  agts (heap s') = agts (heap s) /\
  self s' = self s /\ ext s' = ext s /\
  stdout s' = stdout s /\ calls s' = calls s.

Lemma only_moved_refl s : only_moved s s.
Proof. repeat split. Qed.

Lemma only_moved_trans a b c : only_moved a b -> only_moved b c -> only_moved a c.
Proof.
  intros (A1 & A2 & A3 & A4 & A5 & A6) (B1 & B2 & B3 & B4 & B5 & B6).
  repeat split; try congruence; intro o; rewrite B1; apply A1.
Qed.

Lemma modify_obj_set_x_moved o v : keeps only_moved (modify_obj (U:=U) o (set_x v)).
Proof.
  intro s. simpl. repeat split. intro o'. unfold obj. simpl. unfold upd.
  destruct (Nat.eqb_spec o' o) as [->|NE]; reflexivity.
Qed.

Lemma modify_obj_set_y_moved o v : keeps only_moved (modify_obj (U:=U) o (set_y v)).
Proof.
  intro s. simpl. repeat split. intro o'. unfold obj. simpl. unfold upd.
  destruct (Nat.eqb_spec o' o) as [->|NE]; reflexivity.
Qed.

Lemma World2DGrid_check_bounds_moved o :
  keeps only_moved (World2DGrid_check_bounds (U:=U) o).
Proof.
  intro s. unfold World2DGrid_check_bounds.
  destruct (negb (_tor (ext s))).
  - revert s.
    repeat (apply keeps_andThen; [exact only_moved_trans| |]);
      intro s;
      match goal with
      | |- context [if ?c then _ else _] => destruct c
      end;
      try apply only_moved_refl;
      first [apply modify_obj_set_x_moved|apply modify_obj_set_y_moved].
  - revert s.
    repeat (apply keeps_andThen; [exact only_moved_trans| |]);
      intro s;
      match goal with
      | |- context [if ?c then _ else _] => destruct c
      end;
      try apply only_moved_refl;
      match goal with
      | |- context [Py.mod_ ?a ?b] => destruct (Py.mod_ a b)
      end;
      try apply only_moved_refl;
      first [apply modify_obj_set_x_moved|apply modify_obj_set_y_moved].
Qed.


(** The operations on cells write nothing to the console and call no method
    of the users. *)
Definition same_console (s s' : State U World2DGrid) : Prop :=
  stdout s' = stdout s /\ calls s' = calls s.

Lemma grid_store_console ry rx c : keeps same_console (grid_store (U:=U) ry rx c).
Proof.
  intro s. unfold grid_store.
  destruct (Py.getitem _ _); [|split; reflexivity].
  destruct (Py.setitem _ _ _); [|split; reflexivity].
  destruct (Py.setitem _ _ _); split; reflexivity.
Qed.

Lemma grid_remove_console ry rx o : keeps same_console (grid_remove (U:=U) ry rx o).
Proof.
  intro s. unfold grid_remove.
  destruct (Py.getitem _ _); [|split; reflexivity].
  destruct (Py.getitem _ _); [|split; reflexivity].
  destruct (contains _ _); [apply grid_store_console|split; reflexivity].
Qed.

Lemma grid_append_console ry rx o : keeps same_console (grid_append (U:=U) ry rx o).
Proof.
  intro s. unfold grid_append.
  destruct (Py.getitem _ _); [|split; reflexivity].
  destruct (Py.getitem _ _); [apply grid_store_console|split; reflexivity].
Qed.

(** What [self._grid[ry][rx].append(o)] and [.remove(o)] do to the cells,
    read at the cell's position. *)
Lemma grid_append_cells ry rx o (s s' : State U World2DGrid) :
  grid_shape (ext s) ->
  grid_append ry rx o s = Return s' ->
  exists n m,
    Py.index (length (_grid (ext s))) ry = Some n /\
    Py.index (Z.to_nat (_width (ext s))) rx = Some m /\
    (n < Z.to_nat (_height (ext s)))%nat /\ (m < Z.to_nat (_width (ext s)))%nat /\
    same_but_cells s s' /\ grid_shape (ext s') /\
    forall r c0, cell_at (_grid (ext s')) r c0
                 = if Nat.eqb r n && Nat.eqb c0 m
                   then cell_at (_grid (ext s)) n m ++ [o]
                   else cell_at (_grid (ext s)) r c0.
Proof.
  intros Hs E. unfold grid_append in E.
  destruct (Py.getitem (_grid (ext s)) ry) as [row|] eqn:Erow; [|discriminate].
  destruct (Py.getitem row rx) as [c|] eqn:Ec; [|discriminate].
  destruct (grid_store_effect _ _ (c ++ [o]) s row c Hs Erow Ec)
    as (n & m & s'' & Es & Iy & Ix & Hn & Hm & Hcell & Hsame & Hs' & Hnew).
  rewrite E in Es. injection Es as <-.
  exists n, m. rewrite Hcell.
  exact (conj Iy (conj Ix (conj Hn (conj Hm (conj Hsame (conj Hs' Hnew)))))).
Qed.

Lemma grid_remove_cells ry rx o (s : State U World2DGrid) n m :
  grid_shape (ext s) ->
  Py.index (length (_grid (ext s))) ry = Some n ->
  Py.index (Z.to_nat (_width (ext s))) rx = Some m ->
  In o (cell_at (_grid (ext s)) n m) ->
  exists s',
    grid_remove ry rx o s = Return s' /\
    same_but_cells s s' /\ grid_shape (ext s') /\
    forall r c0, cell_at (_grid (ext s')) r c0
                 = if Nat.eqb r n && Nat.eqb c0 m
                   then remove_first o (cell_at (_grid (ext s)) n m)
                   else cell_at (_grid (ext s)) r c0.
Proof.
  intros Hs Iy Ix Hin. unfold grid_remove.
  pose proof (index_Some _ _ _ Iy) as Hn.
  unfold Py.getitem at 1. rewrite Iy.
  destruct (nth_error (_grid (ext s)) n) as [row|] eqn:Erow.
  2:{ apply nth_error_None in Erow. lia. }
  assert (Hrow : length row = Z.to_nat (_width (ext s))).
  { apply nth_error_In in Erow. destruct Hs as [_ Hrows].
    rewrite Forall_forall in Hrows. apply Hrows. exact Erow. }
  pose proof (index_Some _ _ _ Ix) as Hm.
  unfold Py.getitem. rewrite Hrow, Ix.
  destruct (nth_error row m) as [c|] eqn:Ec.
  2:{ apply nth_error_None in Ec. lia. }
  assert (Hc : cell_at (_grid (ext s)) n m = c).
  { unfold cell_at. rewrite (nth_error_to_nth _ _ _ [] Erow).
    apply nth_error_to_nth. exact Ec. }
  rewrite Hc in Hin. rewrite (proj2 (contains_In c o) Hin).
  destruct (grid_store_effect ry rx (remove_first o c) s row c Hs)
    as (n' & m' & s' & Es & Iy' & Ix' & _ & _ & _ & Hsame & Hs' & Hnew).
  { unfold Py.getitem. rewrite Iy. exact Erow. }
  { unfold Py.getitem. rewrite Hrow, Ix. exact Ec. }
  rewrite Iy in Iy'. injection Iy' as <-.
  rewrite Ix in Ix'. injection Ix' as <-.
  exists s'. rewrite Hc. exact (conj Es (conj Hsame (conj Hs' Hnew))).
Qed.

Lemma remove_first_absent_snoc o c : ~ In o c -> remove_first o (c ++ [o]) = c.
Proof.
  intro H. rewrite remove_first_snoc. apply contains_false in H.
  rewrite H. reflexivity.
Qed.

(** X11.  In a grid world whose index is in order, when [add_object] of an
    object that is not in the world and is nobody's body returns, a
    [remove_object] of the same object returns as well, without a warning,
    and the object list, the grid and the other attributes of the world are
    exactly what they were before the object was added. *)
Theorem World2DGrid_add_then_remove o (s s1 : State U World2DGrid) :
  grid_inv s -> ~ listed s o -> is_body (obj s o) = false ->
  World2DGrid_add_object o s = Return s1 ->
  exists s2,
    World2DGrid_remove_object o s1 = Return s2 /\
    self s2 = self s /\ ext s2 = ext s /\
    stdout s2 = stdout s /\ calls s2 = calls s.
Proof.
  intros (Hnd & Hon & Hshape & Hcells) Hno Hb E.
  unfold World2DGrid_add_object in E.
  apply andThen_returns in E as (sa & Ea & E).
  apply andThen_returns in E as (sb & Eb & Ec).
  pose proof (keeps_Return _ _ _ _ (World2DGrid_check_bounds_moved o) Ea)
    as (Mb & _ & Mself & Mext & Mout & Mcalls).
  unfold World_add_object in Eb. injection Eb as <-.
  set (sb := with_self (set__objects (_objects (self sa) ++ [o]) (self sa)) sa) in *.
  assert (Hsb : grid_shape (ext sb)) by (simpl; rewrite Mext; exact Hshape).
  destruct (grid_append_cells _ _ _ _ _ Hsb Ec)
    as (n & m & Iy & Ix & Hn & Hm & Hsame & Hs1 & Hnew).
  destruct Hsame as (Hheap & Hself & Hw & Hh & Ht).
  assert (Hobj : forall o', obj s1 o' = obj sa o')
    by (intro o'; unfold obj; rewrite Hheap; reflexivity).
  simpl in Hn, Hm, Iy, Ix, Hw, Hh, Ht, Hnew. rewrite Mext in *.
  assert (Hout : ~ In o (cell_at (_grid (ext s)) n m)).
  { intro Hin. apply (Hcells n m Hn Hm) in Hin. apply Hno. exact (proj1 Hin). }
  unfold World2DGrid_remove_object, andThen, World_remove_object.
  unfold is_body. rewrite Hobj, Mb. unfold is_body in Hb. rewrite Hb. simpl.
  rewrite Hself. simpl.
  assert (Hc : contains (_objects (self sa) ++ [o]) o = true).
  { apply contains_In. apply in_or_app. right. left. reflexivity. }
  rewrite Hc. simpl.
  set (sc := with_self _ s1).
  assert (Hsc : grid_shape (ext sc)) by exact Hs1.
  assert (Exy : Py.round (y (obj sc o)) = Py.round (y (obj sb o)) /\
                Py.round (x (obj sc o)) = Py.round (x (obj sb o))).
  { unfold sc, sb, obj. simpl. rewrite Hheap. split; reflexivity. }
  destruct Exy as [Ey Ex].
  assert (Eb' : _is_body (obj sc o) = false).
  { unfold sc, obj. simpl. fold (obj s1 o). rewrite Hobj, Mb. exact Hb. }
  rewrite Eb'. simpl.
  destruct (grid_remove_cells (Py.round (y (obj sc o))) (Py.round (x (obj sc o)))
              o sc n m Hsc) as (s2 & E2 & Hsame2 & Hs2 & Hnew2).
  { rewrite Ey. simpl.
    rewrite (proj1 Hs1), Hh, <- (proj1 Hshape). exact Iy. }
  { rewrite Ex. simpl. rewrite Hw. exact Ix. }
  { simpl. rewrite Hnew, !Nat.eqb_refl. simpl.
    apply in_or_app. right. left. reflexivity. }
  exists s2. split; [exact E2|].
  destruct Hsame2 as (Hheap2 & Hself2 & Hw2 & Hh2 & Ht2).
  simpl in Hw2, Hh2, Ht2, Hnew2.
  split; [|split; [|split]].
  - rewrite Hself2. simpl.
    rewrite remove_first_absent_snoc by (rewrite Mself; exact Hno).
    rewrite Mself. destruct (self s). reflexivity.
  - assert (G : _grid (ext s2) = _grid (ext s)).
    { apply grid_ext; [exact Hshape|exact Hs2|congruence|congruence|].
      intros r c0. rewrite Hnew2.
      destruct (Nat.eqb r n && Nat.eqb c0 m) eqn:Erc.
      - apply andb_true_iff in Erc as [Er Ec0].
        apply Nat.eqb_eq in Er. apply Nat.eqb_eq in Ec0. subst r c0.
        rewrite Hnew, !Nat.eqb_refl. simpl.
        apply remove_first_absent_snoc. exact Hout.
      - rewrite Hnew, Erc. reflexivity. }
    destruct (ext s2) as [w2 h2 t2 g2], (ext s) as [w0 h0 t0 g0].
    simpl in *. congruence.
  - rewrite (proj1 (keeps_Return _ _ _ _ (grid_remove_console _ _ _) E2)). simpl.
    rewrite (proj1 (keeps_Return _ _ _ _ (grid_append_console _ _ _) Ec)). simpl.
    exact Mout.
  - rewrite (proj2 (keeps_Return _ _ _ _ (grid_remove_console _ _ _) E2)). simpl.
    rewrite (proj2 (keeps_Return _ _ _ _ (grid_append_console _ _ _) Ec)). simpl.
    exact Mcalls.
Qed.

End GridRoundTrips.

Section GridRoundTripSamples.

Import core.

Lemma grid_with_body_inv : grid_inv grid_with_body.
Proof.
  apply (World2DGrid_add_object_inv 0%nat grid_start).
  - exact grid_start_inv.
  - intros [].
  - vm_compute. reflexivity.
Qed.

Lemma World2DGrid_add_then_remove_witness :
  exists s2,
    World2DGrid_remove_object 1%nat grid_populated = Return s2 /\
    self s2 = self grid_with_body /\ ext s2 = ext grid_with_body /\
    stdout s2 = stdout grid_with_body /\ calls s2 = calls grid_with_body.
Proof.
  apply (World2DGrid_add_then_remove 1%nat grid_with_body grid_populated).
  - exact grid_with_body_inv.
  - vm_compute. intros [E|[]]. discriminate E.
  - vm_compute. reflexivity.
  - vm_compute. reflexivity.
Defined.

End GridRoundTripSamples.

(** ** Adding to a closed grid world *)

Section ClosedGrid.

Import core.

Context {U : Type}.

Lemma grid_append_in_range ry rx o (s : State U World2DGrid) :
  grid_shape (ext s) ->
  (0 <= ry < _height (ext s))%Z -> (0 <= rx < _width (ext s))%Z ->
  exists s',
    grid_append ry rx o s = Return s' /\
    same_but_cells s s' /\ grid_shape (ext s') /\
    forall r c0, cell_at (_grid (ext s')) r c0
                 = if Nat.eqb r (Z.to_nat ry) && Nat.eqb c0 (Z.to_nat rx)
                   then cell_at (_grid (ext s)) (Z.to_nat ry) (Z.to_nat rx) ++ [o]
                   else cell_at (_grid (ext s)) r c0.
Proof.
  intros Hs Hy Hx. pose proof Hs as [Hlen Hrows].
  unfold grid_append.
  destruct (Py.getitem (_grid (ext s)) ry) as [row|] eqn:Erow.
  2:{ rewrite getitem_in_range in Erow by lia.
      apply nth_error_None in Erow. lia. }
  pose proof (getitem_row _ _ _ Hs Erow) as Hrow.
  destruct (Py.getitem row rx) as [c|] eqn:Ec.
  2:{ rewrite getitem_in_range in Ec by lia.
      apply nth_error_None in Ec. lia. }
  destruct (grid_store_effect _ _ (c ++ [o]) s row c Hs Erow Ec)
    as (n & m & s' & Es & Iy & Ix & Hn & Hm & Hcell & Hsame & Hs' & Hnew).
  rewrite index_in_range in Iy by lia. injection Iy as <-.
  rewrite index_in_range in Ix by lia. injection Ix as <-.
  exists s'. rewrite Hcell. exact (conj Es (conj Hsame (conj Hs' Hnew))).
Qed.

(** X12.  In a grid world that is not toroidal and has at least one column
    and one row, [add_object] always returns: the object is moved to the
    nearest position within [[0, width-1] x [0, height-1]] (a coordinate
    within the bounds is kept, one below 0 becomes 0, one above the last
    index becomes the last index; its other attributes stay), appended to
    the object list and appended to the cell of its rounded coordinates,
    which lies on the grid; no other object and no other cell changes. *)
Theorem World2DGrid_add_object_closed o (s : State U World2DGrid) :
  grid_shape (ext s) -> _tor (ext s) = false ->
  (1 <= _width (ext s))%Z -> (1 <= _height (ext s))%Z ->
  exists s',
    World2DGrid_add_object o s = Return s' /\
    _objects (self s') = _objects (self s) ++ [o] /\
    0 <= x (obj s' o) <= inject_Z (_width (ext s) - 1) /\
    0 <= y (obj s' o) <= inject_Z (_height (ext s) - 1) /\
    clamped 0 (inject_Z (_width (ext s) - 1)) (x (obj s o)) (x (obj s' o)) /\
    clamped 0 (inject_Z (_height (ext s) - 1)) (y (obj s o)) (y (obj s' o)) /\
    moved (obj s o) (obj s' o) /\
    on_grid (ext s') (obj s' o) /\
    (forall o', o' <> o -> obj s' o' = obj s o') /\
    forall r c,
      cell_at (_grid (ext s')) r c
      = if Nat.eqb r (Z.to_nat (Py.round (y (obj s' o))))
           && Nat.eqb c (Z.to_nat (Py.round (x (obj s' o))))
        then cell_at (_grid (ext s)) r c ++ [o]
        else cell_at (_grid (ext s)) r c.
Proof.
  intros Hs Ht Hw Hh.
  destruct (World2DGrid_check_bounds_clamps o s Ht Hw Hh)
    as (sa & Ea & Cx & Cy & Hmv & _).
  pose proof (World2DGrid_check_bounds_effect o s sa Ea)
    as (Hoth & Hself & Hext & _ & Hclamp).
  destruct (Hclamp Ht Hw Hh) as [[Hx0 Hx1] [Hy0 Hy1]].
  set (sb := with_self (set__objects (_objects (self sa) ++ [o]) (self sa)) sa).
  assert (Hrx : (0 <= Py.round (x (obj sb o)) < _width (ext sb))%Z).
  { unfold sb, obj. simpl. fold (obj sa o). rewrite Hext. split.
    - apply round_mono_lower. exact Hx0.
    - apply Z.lt_le_trans with (_width (ext s) - 1 + 1)%Z; [|lia].
      apply Z.lt_succ_r. apply round_mono_upper. exact Hx1. }
  assert (Hry : (0 <= Py.round (y (obj sb o)) < _height (ext sb))%Z).
  { unfold sb, obj. simpl. fold (obj sa o). rewrite Hext. split.
    - apply round_mono_lower. exact Hy0.
    - apply Z.lt_le_trans with (_height (ext s) - 1 + 1)%Z; [|lia].
      apply Z.lt_succ_r. apply round_mono_upper. exact Hy1. }
  assert (Hsb : grid_shape (ext sb)) by (simpl; rewrite Hext; exact Hs).
  destruct (grid_append_in_range _ _ o sb Hsb Hry Hrx)
    as (s' & E & (Hheap & Hself' & Hw' & Hh' & Ht') & Hs' & Hnew).
  assert (Hobj : forall o', obj s' o' = obj sa o')
    by (intro o'; unfold obj; rewrite Hheap; reflexivity).
  exists s'. split.
  { unfold World2DGrid_add_object.
    rewrite (andThen_Return _ _ _ _ Ea).
    unfold andThen, World_add_object. exact E. }
  split; [rewrite Hself'; simpl; rewrite Hself; reflexivity|].
  rewrite !Hobj.
  split; [split; assumption|]. split; [split; assumption|].
  split; [exact Cx|]. split; [exact Cy|]. split; [exact Hmv|].
  split.
  { unfold on_grid. rewrite Hw', Hh'. split; assumption. }
  split.
  { intros o' NE. rewrite Hobj. apply Hoth. exact NE. }
  intros r c. rewrite Hnew. simpl. rewrite Hext.
  unfold sb, obj. simpl.
  destruct (Nat.eqb r _ && Nat.eqb c _) eqn:Erc; [|reflexivity].
  apply andb_true_iff in Erc as [Er Ec].
  apply Nat.eqb_eq in Er. apply Nat.eqb_eq in Ec. subst r c. reflexivity.
Qed.

End ClosedGrid.

Section ClosedGridSamples.

Import core.

(** Object 1 of the corner heap is added to a 3 x 2 world far outside it. *)
Definition far_heap : Heap unit :=
  mkHeap (fun o => if Nat.eqb o 1 then Object__init__ 10 (-4) 0
                   else Object__init__ 0 0 0)
         (fun _ => Agent__init__) tt.

Definition far_start : State unit World2DGrid :=
  start far_heap (mkWorld [] [] [] false) (snd (World2DGrid__init__ 3 2 false)).

Lemma World2DGrid_add_object_closed_witness :
  exists s',
    World2DGrid_add_object 1%nat far_start = Return s' /\
    _objects (self s') = _objects (self far_start) ++ [1%nat] /\
    0 <= x (obj s' 1%nat) <= inject_Z (_width (ext far_start) - 1) /\
    0 <= y (obj s' 1%nat) <= inject_Z (_height (ext far_start) - 1) /\
    clamped 0 (inject_Z (_width (ext far_start) - 1))
            (x (obj far_start 1%nat)) (x (obj s' 1%nat)) /\
    clamped 0 (inject_Z (_height (ext far_start) - 1))
            (y (obj far_start 1%nat)) (y (obj s' 1%nat)) /\
    moved (obj far_start 1%nat) (obj s' 1%nat) /\
    on_grid (ext s') (obj s' 1%nat) /\
    (forall o', o' <> 1%nat -> obj s' o' = obj far_start o') /\
    forall r c,
      cell_at (_grid (ext s')) r c
      = if Nat.eqb r (Z.to_nat (Py.round (y (obj s' 1%nat))))
           && Nat.eqb c (Z.to_nat (Py.round (x (obj s' 1%nat))))
        then cell_at (_grid (ext far_start)) r c ++ [1%nat]
        else cell_at (_grid (ext far_start)) r c.
Proof.
  apply (World2DGrid_add_object_closed 1%nat far_start).
  - apply World2DGrid__init__shape.
  - reflexivity.
  - simpl. lia.
  - simpl. lia.
Defined.

Example far_object_added :
  let s' := final (World2DGrid_add_object 1%nat far_start) in
  x (obj s' 1%nat) == 2 /\ y (obj s' 1%nat) == 0 /\
  _grid (ext s') = [[[]; []; [1%nat]]; [[]; []; []]].
Proof. vm_compute. repeat split. Qed.

End ClosedGridSamples.

(** ** Agents entering and leaving a world *)

Section GridAgents.

Import core.

Context {U : Type}.

(** What [World2DGrid.add_object] leaves alone. *)
Lemma World2DGrid_add_object_frame o (s s' : State U World2DGrid) :
  World2DGrid_add_object o s = Return s' ->
  agts (heap s') = agts (heap s) /\
  _agents (self s') = _agents (self s) /\
  _dead_agents (self s') = _dead_agents (self s) /\
  paused (self s') = paused (self s) /\
  _objects (self s') = _objects (self s) ++ [o].
Proof.
  intro E. unfold World2DGrid_add_object in E.
  apply andThen_returns in E as (sa & Ea & E).
  apply andThen_returns in E as (sb & Eb & Ec).
  pose proof (keeps_Return _ _ _ _ (World2DGrid_check_bounds_moved o) Ea)
    as (_ & Ma & Mself & _).
  unfold World_add_object in Eb. injection Eb as <-.
  pose proof (keeps_Return _ _ _ _ (grid_append_keeps _ _ _) Ec)
    as (Hheap & Hself & _).
  rewrite Hheap, Hself. simpl. rewrite Ma, Mself. repeat split.
Qed.

(** X13.  In a grid world whose index is in order, when [add_agent]
    returns for an agent whose body, if it has one, is not yet in the world,
    the index is in order again; the agent is the last of the world's
    agents and has its [world] set, and its body is the last of the world's
    objects.  An agent without a body leaves the object list as it was. *)
Theorem World2DGrid_add_agent_inv a (s s' : State U World2DGrid) :
  grid_inv s ->
  (forall b, _body (agt s a) = Some b -> ~ listed s b) ->
  World2DGrid_add_agent a s = Return s' ->
  grid_inv s' /\
  _agents (self s') = _agents (self s) ++ [a] /\
  world (agt s' a) = true /\
  _objects (self s') = _objects (self s) ++ match _body (agt s a) with
                                            | Some b => [b]
                                            | None => []
                                            end.
Proof.
  intros Hinv Hfresh E.
  unfold World2DGrid_add_agent, World_add_agent in E.
  apply andThen_returns in E as (s1 & E1 & E).
  apply andThen_returns in E as (s2 & E2 & E3).
  unfold modify_agt in E1. injection E1 as <-.
  injection E2 as <-.
  set (s2 := with_self _ _) in *.
  assert (Hview : same_view s s2) by (repeat split).
  assert (Hinv2 : grid_inv s2) by (apply (grid_inv_view s s2); assumption).
  assert (Hbody : _body (agt s2 a) = _body (agt s a)).
  { unfold s2, agt. simpl. unfold upd. rewrite Nat.eqb_refl. reflexivity. }
  assert (Hworld : world (agt s2 a) = true).
  { unfold s2, agt. simpl. unfold upd. rewrite Nat.eqb_refl. reflexivity. }
  rewrite Hbody in E3.
  destruct (_body (agt s a)) as [b|] eqn:Eb.
  - pose proof (World2DGrid_add_object_frame b s2 s' E3)
      as (Ha & Hag & _ & _ & Hobjs).
    split.
    { apply (World2DGrid_add_object_inv b s2 s'); [exact Hinv2| |exact E3].
      exact (Hfresh b eq_refl). }
    split; [rewrite Hag; reflexivity|].
    split; [unfold agt; rewrite Ha; exact Hworld|].
    rewrite Hobjs. reflexivity.
  - injection E3 as <-.
    split; [exact Hinv2|]. split; [reflexivity|]. split; [exact Hworld|].
    simpl. rewrite app_nil_r. reflexivity.
Qed.

End GridAgents.

Section GridAgentSamples.

Import core.

Definition grid_before_agent : State unit World2DGrid :=
  start grid_heap (mkWorld [] [] [] false) (snd (World2DGrid__init__ 3 2 false)).

Lemma World2DGrid_add_agent_inv_witness :
  grid_inv (final (World2DGrid_add_agent 0%nat grid_before_agent)) /\
  _agents (self (final (World2DGrid_add_agent 0%nat grid_before_agent))) = [0%nat] /\
  world (agt (final (World2DGrid_add_agent 0%nat grid_before_agent)) 0%nat) = true /\
  _objects (self (final (World2DGrid_add_agent 0%nat grid_before_agent))) = [0%nat].
Proof.
  apply (World2DGrid_add_agent_inv 0%nat grid_before_agent
           (final (World2DGrid_add_agent 0%nat grid_before_agent))).
  - apply (World2DGrid__init__inv 3 2 false); reflexivity.
  - intros b _ [].
  - vm_compute. reflexivity.
Defined.

End GridAgentSamples.

Section Killing.

Import core.

Context {U X : Type}.
Variable B : Behaviour U X.

(** X14.  In a running world that lists each of its agents once and has
    no dead agent waiting in [_dead_agents], in which the methods of the
    users leave the attributes of the agents alone and the agent [a] and
    every agent that is dead have a body, an agent [a] that is alive and is
    killed takes no part in the next tick: [kill] followed by [update]
    returns, the agent's [update] is not called, and after the tick the
    world's agents are those that were alive, the killed one excepted, each
    of them updated once and in order. *)
Theorem killed_agent_leaves a delta (s : State U X) :
  paused (self s) = false ->
  agents_untouched B ->
  NoDup (_agents (self s)) -> _dead_agents (self s) = [] ->
  is_dead (agt s a) = false ->
  (forall a', In a' (_agents (self s)) ->
              a' = a \/ is_dead (agt s a') = true -> _body (agt s a') <> None) ->
  exists s',
    (Agent_kill a ;; World_update B delta) s = Return s' /\
    ~ In a (_agents (self s')) /\
    _agents (self s')
    = filter (fun a' => negb (is_dead (agt s a')) && negb (Nat.eqb a' a))
             (_agents (self s)) /\
    updated (calls s') = updated (calls s) ++ _agents (self s').
Proof.
  intros Hp Hun Hnd Hd Halive Hbodies.
  set (sk := with_heap (set_agt a (set__dead true (agt s a)) (heap s)) s).
  assert (Ek : Agent_kill a s = Return sk).
  { unfold Agent_kill. unfold is_dead in Halive. rewrite Halive. reflexivity. }
  assert (Hdead : forall a', is_dead (agt sk a')
                             = is_dead (agt s a') || Nat.eqb a' a).
  { intro a'. unfold sk, agt. simpl. unfold upd.
    destruct (Nat.eqb a' a); [rewrite orb_true_r|rewrite orb_false_r]; reflexivity. }
  assert (Hb : forall a', _body (agt sk a') = _body (agt s a')).
  { intro a'. unfold sk, agt. simpl. unfold upd.
    destruct (Nat.eqb_spec a' a) as [->|NE]; reflexivity. }
  destruct (World_update_tick B delta sk) as (s' & E & Hupd & Hag & _).
  - exact Hp.
  - exact Hun.
  - exact Hnd.
  - exact Hd.
  - intros a' Ha' Hda'. rewrite Hb. apply Hbodies; [exact Ha'|].
    rewrite Hdead in Hda'. apply orb_true_iff in Hda' as [H|H].
    + right. exact H.
    + left. apply Nat.eqb_eq. exact H.
  - assert (Hf : filter (fun a' => negb (is_dead (agt sk a'))) (_agents (self sk))
                 = filter (fun a' => negb (is_dead (agt s a')) && negb (Nat.eqb a' a))
                          (_agents (self s))).
    { apply filter_ext. intro a'. rewrite Hdead, negb_orb. reflexivity. }
    rewrite Hf in Hupd, Hag.
    exists s'. split; [rewrite (andThen_Return _ _ _ _ Ek); exact E|].
    split; [|split; [exact Hag|rewrite Hag; exact Hupd]].
    rewrite Hag. intro Hin. apply filter_In in Hin as [_ Hin].
    rewrite Nat.eqb_refl, andb_false_r in Hin. discriminate Hin.
Qed.

End Killing.

Section KillingSamples.

Import core.

(** Two agents with the bodies 0 and 1, both alive, in a running world. *)
Definition two_alive : State unit unit :=
  start (body_setter 1%nat (Some 1%nat)
           (body_setter 0%nat (Some 0%nat)
              (mkHeap (fun _ => Object__init__ 0 0 0) (fun _ => Agent__init__) tt)))
        (mkWorld [0%nat; 1%nat] [] [0%nat; 1%nat] false) tt.

Lemma idle_untouched : agents_untouched (idle (U:=unit) (X:=unit)).
Proof. repeat split. Qed.

Lemma killed_agent_leaves_witness :
  exists s',
    (Agent_kill 0%nat ;; World_update idle 1) two_alive = Return s' /\
    ~ In 0%nat (_agents (self s')) /\
    _agents (self s')
    = filter (fun a' => negb (is_dead (agt two_alive a')) && negb (Nat.eqb a' 0))
             (_agents (self two_alive)) /\
    updated (calls s') = updated (calls two_alive) ++ _agents (self s').
Proof.
  apply (killed_agent_leaves idle 0%nat 1 two_alive).
  - reflexivity.
  - exact idle_untouched.
  - vm_compute. repeat constructor; simpl; intuition discriminate.
  - reflexivity.
  - reflexivity.
  - intros a' Ha' _. vm_compute in Ha'.
    destruct Ha' as [<-|[<-|[]]]; vm_compute; discriminate.
Defined.

Example killed_agent_tick :
  let s' := final ((Agent_kill 0%nat ;; World_update idle 1) two_alive) in
  _agents (self s') = [1%nat] /\ _objects (self s') = [1%nat] /\
  updated (calls s') = [1%nat] /\ stdout s' = [].
Proof. vm_compute. repeat split. Qed.

End KillingSamples.

(** ** Simple physics objects *)

Section Physics.

Import objects.

Variables math_cos math_sin : Q -> Q.
Variable math_pi : Q.

#[local] Abbreviation DEG2RAD := (objects.DEG2RAD math_pi).
#[local] Abbreviation velocity_setter := (objects.velocity_setter math_cos math_sin math_pi).
#[local] Abbreviation angle_setter := (objects.angle_setter math_cos math_sin math_pi).
#[local] Abbreviation rotate := (objects.rotate math_cos math_sin math_pi).
#[local] Abbreviation update := (objects.update math_cos math_sin math_pi).

(** The components of the velocity are the speed along the heading. *)
Definition along_heading (o : SimplePhysicsObject) : Prop :=
  _velx o == _vel o * math_cos (angle o * DEG2RAD) /\
  _vely o == _vel o * math_sin (angle o * DEG2RAD).

(** X15.  The velocity components of a [SimplePhysicsObject] are its speed
    times the cosine and the sine of its heading after the constructor and
    after every assignment to [velocity] or to [angle], directly or through
    [rotate], and [ang_velocity] and [update] keep them so; an assignment to
    [angle] and [update] leave the speed and the angular velocity as they
    were. *)
Theorem velocity_follows_heading :
  (forall x y a, along_heading (SimplePhysicsObject__init__ x y a)) /\
  (forall v o, along_heading (velocity_setter v o)) /\
  (forall value o, along_heading (angle_setter value o) /\
                   _vel (angle_setter value o) = _vel o /\
                   _ang_vel (angle_setter value o) = _ang_vel o) /\
  (forall a o, along_heading (rotate a o)) /\
  (forall v o, along_heading o -> along_heading (ang_velocity_setter v o)) /\
  (forall delta o, along_heading o ->
                   along_heading (update delta o) /\
                   _vel (update delta o) = _vel o /\
                   _ang_vel (update delta o) = _ang_vel o).
Proof.
  split; [|split; [|split; [|split; [|split]]]].
  - intros x y a. split; simpl; ring.
  - intros v o. split; reflexivity.
  - intros value o. split; [split; reflexivity|split; reflexivity].
  - intros a o. split; reflexivity.
  - intros v o H. exact H.
  - intros delta o H. unfold objects.update.
    destruct (negb (Qeq_bool (_ang_vel o) 0)).
    + split; [split; reflexivity|split; reflexivity].
    + split; [exact H|split; reflexivity].
Qed.

(** X16.  While the angular velocity is zero, [update] moves the object
    along a straight line at constant velocity: two steps of [delta1] and
    [delta2] end where one step of [delta1 + delta2] ends, with the same
    heading and the same velocity. *)
Theorem update_steps_add delta1 delta2 o :
  _ang_vel o == 0 ->
  core.x (base (update delta2 (update delta1 o)))
  == core.x (base (update (delta1 + delta2) o)) /\
  core.y (base (update delta2 (update delta1 o)))
  == core.y (base (update (delta1 + delta2) o)) /\
  angle (update delta2 (update delta1 o)) = angle o /\
  _velx (update delta2 (update delta1 o)) = _velx o /\
  _vely (update delta2 (update delta1 o)) = _vely o.
Proof.
  intro H. apply Qeq_bool_iff in H. unfold objects.update.
  rewrite H. simpl. rewrite H. simpl.
  repeat split; ring.
Qed.

End Physics.

Section PhysicsSamples.

Import objects.

(** An object at the origin that moves at speed 2, with stand-ins for the
    cosine and the sine. *)
Definition coasting : SimplePhysicsObject :=
  velocity_setter (fun _ => 3 # 5) (fun _ => 4 # 5) (355 # 113) 2
    (SimplePhysicsObject__init__ 0 0 0).

Lemma velocity_follows_heading_witness :
  along_heading (fun _ => 3 # 5) (fun _ => 4 # 5) (355 # 113) coasting /\
  along_heading (fun _ => 3 # 5) (fun _ => 4 # 5) (355 # 113)
    (update (fun _ => 3 # 5) (fun _ => 4 # 5) (355 # 113) 1 coasting).
Proof.
  pose proof (velocity_follows_heading (fun _ => 3 # 5) (fun _ => 4 # 5) (355 # 113))
    as (_ & Hv & _ & _ & _ & Hu).
  assert (H : along_heading (fun _ => 3 # 5) (fun _ => 4 # 5) (355 # 113) coasting)
    by apply Hv.
  split; [exact H|]. exact (proj1 (Hu 1 coasting H)).
Defined.

Lemma update_steps_add_witness :
  core.x (base (update (fun _ => 3 # 5) (fun _ => 4 # 5) (355 # 113) 2
                  (update (fun _ => 3 # 5) (fun _ => 4 # 5) (355 # 113) 1 coasting)))
  == core.x (base (update (fun _ => 3 # 5) (fun _ => 4 # 5) (355 # 113) (1 + 2) coasting)).
Proof.
  apply (update_steps_add (fun _ => 3 # 5) (fun _ => 4 # 5) (355 # 113) 1 2 coasting).
  reflexivity.
Defined.

Example coasting_position :
  core.x (base (update (fun _ => 3 # 5) (fun _ => 4 # 5) (355 # 113) 5 coasting)) == 6 /\
  core.y (base (update (fun _ => 3 # 5) (fun _ => 4 # 5) (355 # 113) 5 coasting)) == 8.
Proof. vm_compute. split; reflexivity. Qed.

End PhysicsSamples.

(** ** Emitters that fade *)

Section Fading.

Import influence.

(** Everything but the strength. *)
Definition same_emitter (c c' : CircularInfluence) : Prop :=
  x c' = x c /\ y c' = y c /\ radius c' = radius c /\ r c' = r c /\
  diffuse c' = diffuse c /\ static c' = static c /\ limit c' = limit c /\
  degrade c' = degrade c /\ func c' = func c.

(** X17.  [CircularInfluence.update] changes nothing but the strength.
    When it returns false the emitter is as it was; it does so exactly when
    [degrade] is zero or the strength is not positive.  When it returns
    true the strength has gone down by [degrade * delta] and is then either
    at least [limit] or has been set to 0: it is never left below the
    limit. *)
Theorem CircularInfluence_update_strength delta c :
  same_emitter c (fst (CircularInfluence_update delta c)) /\
  (snd (CircularInfluence_update delta c) = false <->
   degrade c == 0 \/ strength c <= 0) /\
  (snd (CircularInfluence_update delta c) = false ->
   fst (CircularInfluence_update delta c) = c) /\
  (snd (CircularInfluence_update delta c) = true ->
   (strength (fst (CircularInfluence_update delta c)) = strength c - degrade c * delta /\
    limit c <= strength c - degrade c * delta) \/
   (strength (fst (CircularInfluence_update delta c)) = 0 /\
    strength c - degrade c * delta < limit c)).
Proof.
  unfold CircularInfluence_update.
  destruct (Qeq_bool (degrade c) 0) eqn:Ed; simpl.
  - apply Qeq_bool_iff in Ed.
    split; [repeat split|]. split; [split; [left; exact Ed|reflexivity]|].
    split; [reflexivity|discriminate].
  - assert (Hd : ~ degrade c == 0).
    { intro H. apply Qeq_bool_iff in H. congruence. }
    destruct (Py.ltb 0 (strength c)) eqn:Es; simpl.
    + apply Py.ltb_true_inv in Es.
      destruct (Py.ltb (strength c - degrade c * delta) (limit c)) eqn:El; simpl.
      * apply Py.ltb_true_inv in El.
        split; [repeat split|]. split.
        { split; [discriminate|]. intros [H|H]; [contradiction|].
          exfalso. exact (Qlt_not_le _ _ Es H). }
        split; [discriminate|]. intros _. right. split; [reflexivity|exact El].
      * apply Py.ltb_false_inv in El.
        split; [repeat split|]. split.
        { split; [discriminate|]. intros [H|H]; [contradiction|].
          exfalso. exact (Qlt_not_le _ _ Es H). }
        split; [discriminate|]. intros _. left. split; [reflexivity|exact El].
    + apply Py.ltb_false_inv in Es.
      split; [repeat split|]. split; [split; [right; exact Es|reflexivity]|].
      split; [reflexivity|discriminate].
Qed.

(** The facts about one call that the lemmas on several calls use. *)
Lemma update_unchanged delta c :
  snd (CircularInfluence_update delta c) = false ->
  fst (CircularInfluence_update delta c) = c.
Proof.
  unfold CircularInfluence_update.
  destruct (negb (Qeq_bool (degrade c) 0) && Py.ltb 0 (strength c));
    [discriminate|reflexivity].
Qed.

Lemma update_false_cases delta c :
  snd (CircularInfluence_update delta c) = false ->
  degrade c == 0 \/ strength c <= 0.
Proof.
  unfold CircularInfluence_update.
  destruct (Qeq_bool (degrade c) 0) eqn:Ed; simpl.
  - intros _. left. apply Qeq_bool_iff. exact Ed.
  - destruct (Py.ltb 0 (strength c)) eqn:Es; simpl; [discriminate|].
    intros _. right. apply Py.ltb_false_inv. exact Es.
Qed.

Lemma update_degrade delta c :
  degrade (fst (CircularInfluence_update delta c)) = degrade c.
Proof.
  unfold CircularInfluence_update.
  destruct (negb (Qeq_bool (degrade c) 0) && Py.ltb 0 (strength c));
    [|reflexivity].
  simpl. destruct (Py.ltb (strength c - degrade c * delta) (limit c)); reflexivity.
Qed.

Lemma update_changed_strength delta c :
  snd (CircularInfluence_update delta c) = true ->
  strength (fst (CircularInfluence_update delta c)) = strength c - degrade c * delta \/
  strength (fst (CircularInfluence_update delta c)) = 0.
Proof.
  unfold CircularInfluence_update.
  destruct (negb (Qeq_bool (degrade c) 0) && Py.ltb 0 (strength c));
    [|discriminate].
  simpl. intros _.
  destruct (Py.ltb (strength c - degrade c * delta) (limit c));
    [right|left]; reflexivity.
Qed.

(** X18.  An emitter constructed as static never fades: whatever [degrade]
    the constructor was given, [update] returns false and leaves the
    emitter as it was, for every [delta]. *)
Theorem static_emitter_never_fades x0 y0 strength0 radius0 degrade0 limit0 c out delta :
  CircularInfluence__init__ x0 y0 strength0 radius0 degrade0 limit0 true
  = Some (c, out) ->
  CircularInfluence_update delta c = (c, false).
Proof.
  unfold CircularInfluence__init__.
  destruct (Qeq_bool radius0 0); [discriminate|]. simpl.
  destruct (Qeq_bool degrade0 0) eqn:Ed; simpl; intro E; injection E as <- _;
    unfold CircularInfluence_update; simpl; rewrite ?Ed; reflexivity.
Qed.

Lemma static_emitter_never_fades_witness :
  CircularInfluence_update 1
    (mkCircularInfluence 0 0 1 2 (2 / 3) (1 / 2) true (1 # 1000) 0 linear_diffuse_f)
  = (mkCircularInfluence 0 0 1 2 (2 / 3) (1 / 2) true (1 # 1000) 0 linear_diffuse_f,
     false).
Proof.
  apply (static_emitter_never_fades 0 0 1 2 (1 # 10) (1 # 1000) _
           ["A static influence can not have a degrade value different                   than 0! Value set to 0."%string]).
  reflexivity.
Defined.

(** [n] calls of [update] in a row. *)
Definition faded (delta : Q) (n : nat) (c : CircularInfluence) : CircularInfluence :=
  Nat.iter n (fun c => fst (CircularInfluence_update delta c)) c.

Lemma faded_succ delta n c :
  faded delta (S n) c = faded delta n (fst (CircularInfluence_update delta c)).
Proof. unfold faded. apply Nat.iter_succ_r. Qed.

Lemma update_at_rest delta c :
  strength c <= 0 -> CircularInfluence_update delta c = (c, false).
Proof.
  intro H. unfold CircularInfluence_update.
  rewrite (Py.ltb_false _ _ H), andb_false_r. reflexivity.
Qed.

Lemma faded_at_rest delta n c : strength c <= 0 -> faded delta n c = c.
Proof.
  intro H. induction n as [|n IH]; [reflexivity|].
  rewrite faded_succ, update_at_rest by exact H. exact IH.
Qed.

Lemma faded_within delta (k : nat) c :
  0 < degrade c * delta ->
  strength c <= inject_Z (Z.of_nat k) * (degrade c * delta) ->
  strength (faded delta k c) <= 0.
Proof.
  intro Hstep. revert c Hstep.
  induction k as [|k IH]; intros c Hstep Hs.
  - change (inject_Z (Z.of_nat 0)) with 0 in Hs. simpl. lra.
  - rewrite faded_succ.
    destruct (snd (CircularInfluence_update delta c)) eqn:Er.
    + assert (Hk : 0 <= inject_Z (Z.of_nat k)).
      { change 0 with (inject_Z 0). rewrite <- Zle_Qle. lia. }
      apply IH; rewrite update_degrade; [exact Hstep|].
      rewrite Nat2Z.inj_succ in Hs. unfold Z.succ in Hs.
      rewrite inject_Z_plus in Hs. change (inject_Z 1) with 1 in Hs.
      destruct (update_changed_strength delta c Er) as [E|E]; rewrite E.
      * lra.
      * apply Qmult_le_0_compat; [exact Hk|lra].
    + rewrite (update_unchanged delta c Er).
      assert (H0 : strength c <= 0).
      { destruct (update_false_cases delta c Er) as [H|H]; [|exact H].
        rewrite H in Hstep. lra. }
      rewrite faded_at_rest by exact H0. exact H0.
Qed.

Lemma steps_cover (s step : Q) :
  0 < step -> s <= inject_Z (Z.of_nat (Z.to_nat (Qfloor (s / step) + 1))) * step.
Proof.
  intro Hstep. destruct (floor_spec (s / step)) as [_ Hlt].
  assert (Hq : s == s / step * step) by (field; lra).
  assert (Hz : inject_Z (Qfloor (s / step) + 1)
               <= inject_Z (Z.of_nat (Z.to_nat (Qfloor (s / step) + 1)))).
  { rewrite <- Zle_Qle. lia. }
  rewrite inject_Z_plus in Hz. change (inject_Z 1) with 1 in Hz.
  rewrite Hq at 1. apply Qmult_le_compat_r; lra.
Qed.

(** X19.  In exact arithmetic an emitter that loses strength at every
    call fades out: when [degrade * delta] is positive there is a number of
    calls of [update] after which the strength is not positive any more,
    and from then on [update] returns false and changes nothing. *)
Theorem fading_emitter_dies_out delta c :
  0 < degrade c * delta ->
  exists n, forall m, (n <= m)%nat ->
    strength (faded delta m c) <= 0 /\
    CircularInfluence_update delta (faded delta m c) = (faded delta m c, false).
Proof.
  intro Hstep.
  set (k := Z.to_nat (Qfloor (strength c / (degrade c * delta)) + 1)).
  assert (Hk : strength (faded delta k c) <= 0).
  { apply faded_within; [exact Hstep|]. apply steps_cover. exact Hstep. }
  exists k. intros m Hm.
  assert (Em : faded delta m c = faded delta k c).
  { replace m with ((m - k) + k)%nat by lia. unfold faded at 1.
    rewrite Nat.iter_add. fold (faded delta k c).
    apply (faded_at_rest delta (m - k)). exact Hk. }
  rewrite Em. split; [exact Hk|apply update_at_rest; exact Hk].
Qed.

(** An emitter of strength 1 that loses 0.3 at every call. *)
Definition candle : CircularInfluence :=
  mkCircularInfluence 0 0 1 2 (2 / 3) (1 / 2) false (1 # 5) (3 # 10) linear_diffuse_f.

Lemma fading_emitter_dies_out_witness :
  exists n, forall m, (n <= m)%nat ->
    strength (faded 1 m candle) <= 0 /\
    CircularInfluence_update 1 (faded 1 m candle) = (faded 1 m candle, false).
Proof.
  apply (fading_emitter_dies_out 1 candle). reflexivity.
Defined.

Example candle_strengths :
  strength (faded 1 1 candle) == 7 # 10 /\
  strength (faded 1 2 candle) == 4 # 10 /\
  strength (faded 1 3 candle) == 0 /\
  strength (faded 1 4 candle) == 0.
Proof. vm_compute. repeat split. Qed.

End Fading.

Section FadingSamples.

Import influence.

Lemma CircularInfluence_update_strength_witness :
  snd (CircularInfluence_update 1 candle) = true /\
  strength (fst (CircularInfluence_update 1 candle)) = strength candle - degrade candle * 1 /\
  limit candle <= strength candle - degrade candle * 1.
Proof.
  assert (H : snd (CircularInfluence_update 1 candle) = true) by reflexivity.
  split; [exact H|].
  destruct (proj2 (proj2 (proj2 (CircularInfluence_update_strength 1 candle))) H)
    as [G|[_ G]]; [exact G|].
  vm_compute in G. discriminate G.
Defined.

End FadingSamples.

(** ** Updating the emitters of a map *)

Section UpdateInfluences.

Import influence.

(** An emitter whose [update] returns nothing true is as it was. *)
Lemma Influence_update_quiet delta i :
  Py.truth (snd (Influence_update delta i)) = false ->
  fst (Influence_update delta i) = i.
Proof.
  destruct i as [|c]; [reflexivity|]. simpl.
  pose proof (update_unchanged delta c) as Hf.
  destruct (CircularInfluence_update delta c) as [c' res]. simpl in *.
  intro H. rewrite (Hf H). reflexivity.
Qed.

(** Once [res] is true the loop changes nothing. *)
Lemma update_influences_loop_done delta l res :
  Py.truth res = true -> update_influences_loop delta l res = (l, res).
Proof.
  intro H. induction l as [|i l IH]; simpl; [reflexivity|].
  rewrite H, IH. reflexivity.
Qed.

(** What [res] holds after a run of emitters that report no change: the
    answer of the last one. *)
Definition last_answer (delta : Q) (l : list Influence) (res : option bool)
  : option bool :=
  fold_left (fun _ i => snd (Influence_update delta i)) l res.

Lemma last_answer_quiet delta l res :
  Py.truth res = false ->
  (forall i, In i l -> Py.truth (snd (Influence_update delta i)) = false) ->
  Py.truth (last_answer delta l res) = false.
Proof.
  revert res. induction l as [|i l IH]; intros res Hr H; [exact Hr|].
  simpl. apply IH.
  - apply H. left. reflexivity.
  - intros j Hj. apply H. right. exact Hj.
Qed.

(** While the emitters report no change the loop goes on. *)
Lemma update_influences_loop_quiet delta l1 l2 res :
  Py.truth res = false ->
  (forall i, In i l1 -> Py.truth (snd (Influence_update delta i)) = false) ->
  update_influences_loop delta (l1 ++ l2) res
  = (l1 ++ fst (update_influences_loop delta l2 (last_answer delta l1 res)),
     snd (update_influences_loop delta l2 (last_answer delta l1 res))).
Proof.
  revert res. induction l1 as [|i l1 IH]; intros res Hr H; simpl.
  - destruct (update_influences_loop delta l2 res). reflexivity.
  - rewrite Hr.
    pose proof (H i (or_introl eq_refl)) as Hi.
    pose proof (Influence_update_quiet delta i Hi) as Ei.
    destruct (Influence_update delta i) as [i' res'] eqn:Eu. simpl in *. subst i'.
    rewrite (IH res' Hi) by (intros j Hj; apply H; right; exact Hj).
    reflexivity.
Qed.

(** X20.  [update_influences] asks the emitters in the order of the list
    and only up to the first one whose [update] returns [True]: that
    emitter is updated, the ones after it are not asked and stay as they
    were, and [dirty] becomes [True].  When no emitter returns [True] the
    list stays as it was and [dirty] becomes what the last emitter of the
    list returned: [False] for a circular emitter, [None] for an instance of
    the base class, whose [update] returns nothing; on an empty list it
    becomes [False].  Nothing else in the map changes.  Each emitter is in
    the list once. *)
Theorem update_influences_stops_at_first_change delta s :
  (forall l1 i l2,
      _ilist (self s) = l1 ++ i :: l2 ->
      (forall j, In j l1 -> snd (Influence_update delta j) <> Some true) ->
      snd (Influence_update delta i) = Some true ->
      _ilist (self (final (update_influences delta s)))
      = l1 ++ fst (Influence_update delta i) :: l2 /\
      dirty (self (final (update_influences delta s))) = Some true) /\
  ((forall j, In j (_ilist (self s)) -> snd (Influence_update delta j) <> Some true) ->
   _ilist (self (final (update_influences delta s))) = _ilist (self s) /\
   (_ilist (self s) = [] ->
    dirty (self (final (update_influences delta s))) = Some false) /\
   (forall l i, _ilist (self s) = l ++ [i] ->
                dirty (self (final (update_influences delta s)))
                = snd (Influence_update delta i))) /\
  (snd (Influence_update delta Influence__init__) = None /\
   forall c, snd (Influence_update delta (Circular c))
             = Some (snd (CircularInfluence_update delta c))) /\
  raised (update_influences delta s) = None /\
  same_setup (with_ilist [] (self s))
             (with_ilist [] (self (final (update_influences delta s)))) /\
  _imap (self (final (update_influences delta s))) = _imap (self s) /\
  stdout (final (update_influences delta s)) = stdout s.
Proof.
  assert (Hq : forall v : option bool, v <> Some true -> Py.truth v = false).
  { intros [[|]|] H; [contradiction H|..]; reflexivity. }
  unfold update_influences, on_self. simpl.
  split; [|split; [|split]].
  - intros l1 i l2 E Hl Hi. rewrite E.
    rewrite (update_influences_loop_quiet delta l1 (i :: l2) (Some false) eq_refl)
      by (intros j Hj; apply Hq, Hl, Hj).
    pose proof (last_answer_quiet delta l1 (Some false) eq_refl
                  (fun j Hj => Hq _ (Hl j Hj))) as Hr.
    simpl. rewrite Hr.
    destruct (Influence_update delta i) as [i' res]. simpl in Hi. subst res.
    rewrite update_influences_loop_done by reflexivity. simpl. split; reflexivity.
  - intro Hl.
    pose proof (update_influences_loop_quiet delta (_ilist (self s)) []
                  (Some false) eq_refl (fun j Hj => Hq _ (Hl j Hj))) as E.
    rewrite app_nil_r in E. rewrite E. simpl. rewrite app_nil_r.
    split; [reflexivity|]. split.
    + intros ->. reflexivity.
    + intros l i ->. unfold last_answer. rewrite fold_left_app. reflexivity.
  - split; [reflexivity|]. intro c. simpl.
    destruct (CircularInfluence_update delta c). reflexivity.
  - destruct (update_influences_loop delta (_ilist (self s)) (Some false)).
    simpl. repeat split.
Qed.

(** Two candles behind an emitter of the base class: one call makes the
    first candle fade and leaves the second one alone. *)
Definition two_candles : State :=
  mkState (mkInfluenceMap 4 4 2 2 2 1 (Some false) [[0; 0]; [0; 0]]
             [Influence__init__; Circular candle; Circular candle]) [].

Lemma update_influences_stops_at_first_change_witness :
  _ilist (self (final (update_influences 1 two_candles)))
  = [Influence__init__] ++ fst (Influence_update 1 (Circular candle)) :: [Circular candle] /\
  dirty (self (final (update_influences 1 two_candles))) = Some true.
Proof.
  apply (proj1 (update_influences_stops_at_first_change 1 two_candles)
           [Influence__init__] (Circular candle) [Circular candle]).
  - reflexivity.
  - intros j [<-|[]]. discriminate.
  - reflexivity.
Defined.

Example two_candles_updated :
  map (fun i => match i with
                | Circular c => strength c
                | Influence__init__ => 0
                end) (_ilist (self (final (update_influences 1 two_candles))))
  = [0; 1 - (3 # 10) * 1; 1].
Proof. reflexivity. Qed.

(** A map whose only emitter is of the base class ends with [dirty] set
    to [None]. *)
Example base_emitter_leaves_None :
  dirty (self (final (update_influences 1
                        (mkState (mkInfluenceMap 4 4 2 2 2 1 (Some true)
                                    [[0; 0]; [0; 0]] [Influence__init__]) []))))
  = None.
Proof. reflexivity. Qed.

End UpdateInfluences.

(** ** The values of an influence map *)

Section MapValues.

Import influence.

Variable math_sqrt : Q -> Q.

Hypothesis sqrt_nonneg : forall q, 0 <= math_sqrt q.

(** Emitters whose strength is not negative and whose reach is that of a
    positive radius, as the constructor derives it. *)
Definition sound_emitter (c : CircularInfluence) : Prop :=
  0 <= strength c /\ 0 <= diffuse c /\ 0 < r c.

Lemma square_ge_1 q : 0 <= q -> 1 <= (q + 1) ^ 2.
Proof.
  intro H. assert (E : (q + 1) ^ 2 == q * q + 2 * q + 1) by ring.
  rewrite E. assert (0 <= q * q) by (apply Qmult_le_0_compat; exact H). lra.
Qed.

Lemma linear_diffuse_bounds c px py :
  sound_emitter c -> 0 <= linear_diffuse math_sqrt c px py <= strength c.
Proof.
  intros (Hs & Hd & _). unfold linear_diffuse, Py.max.
  set (dist := math_sqrt ((px - x c) ^ 2 + (py - y c) ^ 2)).
  assert (Hdist : 0 <= dist) by apply sqrt_nonneg.
  assert (Hp : 0 <= diffuse c * dist) by (apply Qmult_le_0_compat; assumption).
  destruct (Py.ltb (strength c - diffuse c * dist) 0) eqn:E.
  - split; [apply Qle_refl|exact Hs].
  - apply Py.ltb_false_inv in E. split; [exact E|lra].
Qed.

Lemma light_diffuse_bounds c px py :
  sound_emitter c ->
  exists v, light_diffuse math_sqrt c px py = Some v /\
            0 <= v <= strength c /\ (v = 0 \/ limit c <= v).
Proof.
  intros (Hs & _ & Hr). unfold light_diffuse.
  set (dist := math_sqrt ((px - x c) ^ 2 + (py - y c) ^ 2)).
  assert (Hdist : 0 <= dist) by apply sqrt_nonneg.
  destruct (Qeq_bool (r c) 0) eqn:Er.
  { apply Qeq_bool_iff in Er. rewrite Er in Hr. exfalso. exact (Qlt_irrefl _ Hr). }
  assert (Hq : 0 <= dist / r c).
  { unfold Qdiv. apply Qmult_le_0_compat; [exact Hdist|].
    apply Qinv_le_0_compat. apply Qlt_le_weak. exact Hr. }
  pose proof (square_ge_1 _ Hq) as Hsq.
  destruct (Qeq_bool ((dist / r c + 1) ^ 2) 0) eqn:Ez.
  { apply Qeq_bool_iff in Ez. rewrite Ez in Hsq. exfalso.
    apply (Qlt_not_le 0 1); [reflexivity|exact Hsq]. }
  set (sq := (dist / r c + 1) ^ 2) in *.
  assert (Hatt : 0 <= 1 / sq <= 1).
  { split.
    - unfold Qdiv. rewrite Qmult_1_l. apply Qinv_le_0_compat. lra.
    - apply Qle_shift_div_r; lra. }
  assert (Hres : 0 <= strength c * (1 / sq) <= strength c).
  { split.
    - apply Qmult_le_0_compat; [exact Hs|apply Hatt].
    - assert (H0 : 0 <= strength c * (1 - 1 / sq))
        by (apply Qmult_le_0_compat; [exact Hs|lra]).
      assert (E : strength c * (1 - 1 / sq)
                  == strength c - strength c * (1 / sq)) by ring.
      rewrite E in H0. lra. }
  destruct (Py.ltb (strength c * (1 / sq)) (limit c)) eqn:El.
  - eexists. split; [reflexivity|]. split; [|left; reflexivity].
    split; [apply Qle_refl|exact Hs].
  - apply Py.ltb_false_inv in El.
    eexists. split; [reflexivity|]. split; [exact Hres|right; exact El].
Qed.

(** X21.  In exact arithmetic, where a square cannot overflow, reading
    the value of a circular emitter with a strength and a [diffuse] that
    are not negative and a positive [r] returns at every point a value
    between 0 and the strength, with the linear and with the light
    diffusion; the light diffusion moreover yields no value below the
    emitter's [limit] other than 0.  The square root is any function that
    is never negative. *)
Theorem emitter_value_bounded c px py :
  sound_emitter c ->
  exists v,
    CircularInfluence_get_value math_sqrt c px py = Some v /\
    0 <= v <= strength c /\
    (func c = light_diffuse_f -> v = 0 \/ limit c <= v).
Proof.
  intro Hc. unfold CircularInfluence_get_value.
  destruct (func c).
  - exists (linear_diffuse math_sqrt c px py). split; [reflexivity|].
    split; [apply linear_diffuse_bounds; exact Hc|discriminate].
  - destruct (light_diffuse_bounds c px py Hc) as (v & E & Hv & Hl).
    exists v. split; [exact E|]. split; [exact Hv|]. intros _. exact Hl.
Qed.

(** The emitters that [update] can sum without harm: instances of the
    base class and sound circular emitters. *)
Definition sound (i : Influence) : Prop :=
  match i with
  | Influence__init__ => True
  | Circular c => sound_emitter c
  end.

Lemma sound_value i px py :
  sound i ->
  exists v, Influence_get_value math_sqrt i px py = Some v /\ 0 <= v.
Proof.
  destruct i as [|c]; simpl; intro H.
  - exists 0. split; [reflexivity|apply Qle_refl].
  - unfold CircularInfluence_get_value. destruct (func c).
    + exists (linear_diffuse math_sqrt c px py). split; [reflexivity|].
      apply linear_diffuse_bounds. exact H.
    + destruct (light_diffuse_bounds c px py H) as (v & E & [Hv _] & _).
      exists v. split; assumption.
Qed.

Lemma total_influence_nonneg l px py :
  (forall i, In i l -> sound i) -> 0 <= total_influence math_sqrt l px py.
Proof.
  induction l as [|i l IH]; intro H; simpl; [apply Qle_refl|].
  assert (Hi : 0 <= value_at math_sqrt i px py).
  { unfold value_at.
    destruct (sound_value i px py (H i (or_introl eq_refl))) as (v & E & Hv).
    rewrite E. exact Hv. }
  assert (Hl : 0 <= total_influence math_sqrt l px py)
    by (apply IH; intros j Hj; apply H; right; exact Hj).
  lra.
Qed.

(** X22.  In exact arithmetic, where a square cannot overflow, [update]
    on a map of the shape the constructor builds, with a [maximum] that is
    not negative and emitters that are sound, returns and leaves every cell
    of the array between 0 and [maximum]. *)
Theorem update_keeps_cells_in_range s :
  well_formed (self s) ->
  0 <= maximum (self s) ->
  (forall i, In i (_ilist (self s)) -> sound i) ->
  exists s',
    update math_sqrt s = Return s' /\
    forall cy cx,
      (0 <= cy < map_height (self s))%Z -> (0 <= cx < map_width (self s))%Z ->
      exists v, get_grid_value (self s') cx cy = inr v /\
                0 <= v <= maximum (self s).
Proof.
  intros Hwf Hmax Hsound.
  assert (Hdef : forall i, In i (_ilist (self s)) -> forall px py,
               Influence_get_value math_sqrt i px py <> None).
  { intros i Hi px py E.
    destruct (sound_value i px py (Hsound i Hi)) as (v & Ev & _). congruence. }
  destruct (update_rows_total math_sqrt (self s) Hdef s) as (s' & E & [Hset Hwf'] & Hw).
  { split; [apply same_setup_refl|exact Hwf]. }
  exists (mkState (with_dirty (Some true) (self s')) (stdout s')). split.
  - unfold update. erewrite andThen_Return; [reflexivity|]. exact E.
  - intros cy cx Hcy Hcx.
    exists (written math_sqrt (self s) cy cx). split.
    + destruct Hset as (_ & _ & Hmw & Hmh & _).
      rewrite get_grid_value_cell.
      * unfold cell. simpl. f_equal. apply (Hw cy Hcy cx Hcx).
      * destruct Hwf' as [H1 H2]. split; simpl; assumption.
      * simpl. lia.
      * simpl. lia.
    + rewrite (written_spec math_sqrt (self s) Hdef cy cx).
      pose proof (total_influence_nonneg (_ilist (self s))
                    (centre (self s) cx) (centre (self s) cy) Hsound) as Ht.
      split.
      * apply Q.min_glb; assumption.
      * apply Q.le_min_r.
Qed.

End MapValues.

Section MapValueSamples.

Import influence.

Lemma sample_sqrt_nonneg q : 0 <= sample_sqrt q.
Proof.
  unfold sample_sqrt. change 0 with (inject_Z 0). rewrite <- Zle_Qle.
  apply Z.sqrt_nonneg.
Qed.

Lemma corner_emitter_sound : sound_emitter corner_emitter.
Proof. repeat split; vm_compute; discriminate. Qed.

Lemma emitter_value_bounded_witness :
  exists v,
    CircularInfluence_get_value sample_sqrt corner_emitter 1 3 = Some v /\
    0 <= v <= strength corner_emitter /\
    (func corner_emitter = light_diffuse_f -> v = 0 \/ limit corner_emitter <= v).
Proof.
  exact (emitter_value_bounded sample_sqrt sample_sqrt_nonneg corner_emitter 1 3
           corner_emitter_sound).
Defined.

Lemma update_keeps_cells_in_range_witness :
  exists s',
    update sample_sqrt (mkState sample_map []) = Return s' /\
    forall cy cx,
      (0 <= cy < 2)%Z -> (0 <= cx < 2)%Z ->
      exists v, get_grid_value (self s') cx cy = inr v /\ 0 <= v <= 1.
Proof.
  apply (update_keeps_cells_in_range sample_sqrt sample_sqrt_nonneg
           (mkState sample_map [])).
  - split; [reflexivity|]. repeat constructor.
  - vm_compute. discriminate.
  - intros i [<-|[]]. exact corner_emitter_sound.
Defined.

End MapValueSamples.

(** ** Reading a map at a point *)

Section MapReading.

Import influence.

Lemma floordiv_positive v sec :
  0 < sec -> exists k, Py.floordiv v sec = Some k /\
                       inject_Z k * sec <= v < (inject_Z k + 1) * sec.
Proof.
  intro Hs. unfold Py.floordiv.
  destruct (Qeq_bool sec 0) eqn:E.
  { apply Qeq_bool_iff in E. rewrite E in Hs. exfalso. exact (Qlt_irrefl _ Hs). }
  eexists. split; [reflexivity|].
  destruct (floor_spec (v / sec)) as [Hf Hl].
  assert (Ev : v == v / sec * sec) by (field; lra).
  split.
  - rewrite Ev at 2. apply Qmult_le_compat_r; [exact Hf|lra].
  - rewrite Ev at 1. apply Qmult_lt_compat_r; [exact Hs|exact Hl].
Qed.

(** A point right of [k] sectors lies in a sector of index [k] or more; a
    point left of them in one of a smaller index. *)
Lemma sector_index_bounds v sec (k n : Z) :
  0 < sec -> inject_Z k * sec <= v < (inject_Z k + 1) * sec ->
  (inject_Z n * sec <= v -> (n <= k)%Z) /\
  (v < inject_Z n * sec -> (k < n)%Z).
Proof.
  intros Hs [Hlo Hhi]. split; intro H.
  - apply Z.lt_succ_r. apply Z.lt_nge. intro Hle.
    assert (Hq : inject_Z (k + 1) <= inject_Z n) by (rewrite <- Zle_Qle; lia).
    rewrite inject_Z_plus in Hq. change (inject_Z 1) with 1 in Hq.
    assert (Hm : (inject_Z k + 1) * sec <= inject_Z n * sec)
      by (apply Qmult_le_compat_r; [exact Hq|lra]).
    lra.
  - apply Z.lt_nge. intro Hle.
    assert (Hq : inject_Z n <= inject_Z k) by (rewrite <- Zle_Qle; exact Hle).
    assert (Hm : inject_Z n * sec <= inject_Z k * sec)
      by (apply Qmult_le_compat_r; [exact Hq|lra]).
    lra.
Qed.

(** The sector of a point strictly inside a map that its sectors cover. *)
Lemma sector_of_point m px py :
  0 < sector m ->
  width m <= inject_Z (map_width m) * sector m ->
  height m <= inject_Z (map_height m) * sector m ->
  0 < px < width m -> 0 < py < height m ->
  exists ix iy,
    Py.floordiv px (sector m) = Some ix /\ Py.floordiv py (sector m) = Some iy /\
    (0 <= ix < map_width m)%Z /\ (0 <= iy < map_height m)%Z /\
    inject_Z ix * sector m <= px < (inject_Z ix + 1) * sector m /\
    inject_Z iy * sector m <= py < (inject_Z iy + 1) * sector m.
Proof.
  intros Hs Hw Hh [Hx0 Hx1] [Hy0 Hy1].
  destruct (floordiv_positive px (sector m) Hs) as (ix & Ex & Bx).
  destruct (floordiv_positive py (sector m) Hs) as (iy & Ey & By).
  exists ix, iy. split; [exact Ex|]. split; [exact Ey|].
  split; [|split; [|split; assumption]].
  - split.
    + apply (sector_index_bounds px (sector m) ix 0 Hs Bx).
      change (inject_Z 0) with 0. lra.
    + apply (sector_index_bounds px (sector m) ix (map_width m) Hs Bx). lra.
  - split.
    + apply (sector_index_bounds py (sector m) iy 0 Hs By).
      change (inject_Z 0) with 0. lra.
    + apply (sector_index_bounds py (sector m) iy (map_height m) Hs By). lra.
Qed.

(** Inside the map [get_value] reads the array at the two quotients. *)
Lemma get_value_inside m px py (ix iy : Z) :
  well_formed m ->
  0 < px < width m -> 0 < py < height m ->
  Py.floordiv px (sector m) = Some ix -> Py.floordiv py (sector m) = Some iy ->
  (0 <= ix < map_width m)%Z -> (0 <= iy < map_height m)%Z ->
  get_value m px py = inr (cell m (Z.to_nat iy) (Z.to_nat ix)).
Proof.
  intros Hwf [Hx0 Hx1] [Hy0 Hy1] Ex Ey Hix Hiy.
  pose proof (get_grid_value_cell m iy ix Hwf Hiy Hix) as G.
  unfold get_grid_value in G. unfold get_value.
  rewrite (Py.ltb_true _ _ Hx0), (Py.ltb_true _ _ Hx1),
          (Py.ltb_true _ _ Hy0), (Py.ltb_true _ _ Hy1). simpl.
  rewrite Ex, Ey. exact G.
Qed.

(** X23.  On a map whose width and height are covered by its sectors, as
    they are when the constructor is given sizes that are multiples of the
    sector size, [get_value] at a point strictly inside the map raises
    nothing and returns the cell of the sector that contains the point. *)
Theorem get_value_reads_sector m px py :
  well_formed m -> 0 < sector m ->
  width m <= inject_Z (map_width m) * sector m ->
  height m <= inject_Z (map_height m) * sector m ->
  0 < px < width m -> 0 < py < height m ->
  exists ix iy,
    (0 <= ix < map_width m)%Z /\ (0 <= iy < map_height m)%Z /\
    inject_Z ix * sector m <= px < (inject_Z ix + 1) * sector m /\
    inject_Z iy * sector m <= py < (inject_Z iy + 1) * sector m /\
    get_value m px py = inr (cell m (Z.to_nat iy) (Z.to_nat ix)).
Proof.
  intros Hwf Hs Hw Hh Hx Hy.
  destruct (sector_of_point m px py Hs Hw Hh Hx Hy)
    as (ix & iy & Ex & Ey & Hix & Hiy & Bx & By).
  exists ix, iy. split; [exact Hix|]. split; [exact Hiy|].
  split; [exact Bx|]. split; [exact By|].
  apply get_value_inside; assumption.
Qed.

(** X24.  When the sectors do not cover the map, as the constructor leaves
    it for sizes that are not multiples of the sector size, [get_value]
    raises [IndexError] at every point strictly inside the map that lies
    right of the last column of sectors or beyond the last row. *)
Theorem get_value_beyond_the_sectors m px py :
  well_formed m -> 0 < sector m ->
  0 < px < width m -> 0 < py < height m ->
  inject_Z (map_width m) * sector m <= px \/
  inject_Z (map_height m) * sector m <= py ->
  get_value m px py = inl IndexError.
Proof.
  intros [Hlen Hrows] Hs [Hx0 Hx1] [Hy0 Hy1] Hout.
  destruct (floordiv_positive px (sector m) Hs) as (ix & Ex & Bx).
  destruct (floordiv_positive py (sector m) Hs) as (iy & Ey & By).
  assert (Hix : (0 <= ix)%Z).
  { apply (sector_index_bounds px (sector m) ix 0 Hs Bx).
    change (inject_Z 0) with 0. lra. }
  assert (Hiy : (0 <= iy)%Z).
  { apply (sector_index_bounds py (sector m) iy 0 Hs By).
    change (inject_Z 0) with 0. lra. }
  unfold get_value.
  rewrite (Py.ltb_true _ _ Hx0), (Py.ltb_true _ _ Hx1),
          (Py.ltb_true _ _ Hy0), (Py.ltb_true _ _ Hy1). simpl.
  rewrite Ex, Ey.
  destruct (Py.getitem (_imap m) iy) as [row|] eqn:Erow; [|reflexivity].
  assert (Hrow : length row = Z.to_nat (map_width m)).
  { unfold Py.getitem in Erow.
    destruct (Py.index (length (_imap m)) iy); [|discriminate].
    apply nth_error_In in Erow. rewrite Forall_forall in Hrows.
    apply Hrows. exact Erow. }
  destruct Hout as [Hout|Hout].
  - assert (Hk : (map_width m <= ix)%Z)
      by (apply (sector_index_bounds px (sector m) ix (map_width m) Hs Bx); exact Hout).
    rewrite getitem_out by lia. reflexivity.
  - assert (Hk : (map_height m <= iy)%Z)
      by (apply (sector_index_bounds py (sector m) iy (map_height m) Hs By); exact Hout).
    rewrite getitem_out in Erow by lia. discriminate Erow.
Qed.

(** The constructor rounds the number of sectors down. *)
Lemma InfluenceMap__init__sectors w h sec mx m :
  0 < sec -> InfluenceMap__init__ w h sec mx = Some m ->
  width m = w /\ height m = h /\ sector m = sec /\
  inject_Z (map_width m) * sec <= w < (inject_Z (map_width m) + 1) * sec /\
  inject_Z (map_height m) * sec <= h < (inject_Z (map_height m) + 1) * sec.
Proof.
  intros Hs E. unfold InfluenceMap__init__ in E.
  destruct (floordiv_positive w sec Hs) as (kw & Ew & Bw).
  destruct (floordiv_positive h sec Hs) as (kh & Eh & Bh).
  rewrite Ew, Eh in E. injection E as <-. simpl. repeat split; apply Bw || apply Bh.
Qed.

End MapReading.

Section MapReadingSamples.

Import influence.

(** A map of 10 x 10 with sectors of 4: two columns and two rows of
    sectors, which leave a strip of width 2 uncovered. *)
Definition ragged_map : InfluenceMap :=
  mkInfluenceMap 10 10 2 2 4 1 (Some true) [[0; 0]; [0; 0]] [].

Example ragged_map_constructed : InfluenceMap__init__ 10 10 4 1 = Some ragged_map.
Proof. reflexivity. Qed.

Lemma get_value_reads_sector_witness :
  exists ix iy,
    (0 <= ix < 2)%Z /\ (0 <= iy < 2)%Z /\
    inject_Z ix * 2 <= 3 < (inject_Z ix + 1) * 2 /\
    inject_Z iy * 2 <= 1 < (inject_Z iy + 1) * 2 /\
    get_value sample_map 3 1 = inr (cell sample_map (Z.to_nat iy) (Z.to_nat ix)).
Proof.
  apply (get_value_reads_sector sample_map 3 1).
  - split; [reflexivity|]. repeat constructor.
  - reflexivity.
  - vm_compute. discriminate.
  - vm_compute. discriminate.
  - split; reflexivity.
  - split; reflexivity.
Defined.

Lemma get_value_beyond_the_sectors_witness :
  get_value ragged_map 9 1 = inl IndexError.
Proof.
  apply (get_value_beyond_the_sectors ragged_map 9 1).
  - split; [reflexivity|]. repeat constructor.
  - reflexivity.
  - split; reflexivity.
  - split; reflexivity.
  - left. vm_compute. discriminate.
Defined.

End MapReadingSamples.

(** ** Vertex lists *)

Section Vertices.

(** The coordinates of a flat list, shifted pair by pair; a coordinate
    left over at the end is dropped. *)
Fixpoint shifted (tx ty : Q) (vertices : list Q) : list Q :=
  match vertices with
  | a :: b :: rest => (a + tx) :: (b + ty) :: shifted tx ty rest
  | _ => []
  end.

Lemma pairs_ind {A} (P : list A -> Prop) :
  P [] -> (forall a, P [a]) -> (forall a b l, P l -> P (a :: b :: l)) ->
  forall l, P l.
Proof.
  intros H0 H1 H2.
  assert (G : forall l, P l /\ forall a, P (a :: l)).
  { induction l as [|b l [IH1 IH2]].
    - split; [exact H0|exact H1].
    - split; [apply IH2|]. intro a. apply H2. exact IH1. }
  intro l. apply G.
Qed.

Lemma translate_shifted tx ty vertices :
  shapes.translate tx ty vertices = shifted tx ty vertices.
Proof.
  unfold shapes.translate.
  induction vertices as [|a|a b l IH] using pairs_ind; [reflexivity|reflexivity|].
  cbn [shapes.every_other tl combine map flat_map fst snd app shifted].
  f_equal. f_equal.
  destruct l as [|c l']; [reflexivity|]. exact IH.
Qed.

Lemma shifted_length tx ty vertices :
  length (shifted tx ty vertices) = (2 * (length vertices / 2))%nat.
Proof.
  induction vertices as [|a|a b l IH] using pairs_ind; [reflexivity|reflexivity|].
  cbn [shifted length]. rewrite IH.
  change (S (S (length l))) with (2 + length l)%nat.
  replace (2 + length l)%nat with (length l + 1 * 2)%nat by lia.
  rewrite Nat.div_add by lia. lia.
Qed.

Lemma shifted_shifted tx ty tx' ty' vertices :
  Forall2 Qeq (shifted tx' ty' (shifted tx ty vertices))
              (shifted (tx + tx') (ty + ty') vertices).
Proof.
  induction vertices as [|a|a b l IH] using pairs_ind;
    [constructor|constructor|].
  cbn [shifted]. constructor; [ring|]. constructor; [ring|]. exact IH.
Qed.

(** X25.  [Shape.translate] returns the coordinates shifted pair by pair,
    the first of each pair by [tx] and the second by [ty], and leaves out a
    coordinate left over at the end of a list of odd length.  In exact
    arithmetic, translating the result of a translation amounts to one
    translation by the sum of the two shifts. *)
Theorem translate_shifts_pairs tx ty vertices :
  shapes.translate tx ty vertices = shifted tx ty vertices /\
  length (shapes.translate tx ty vertices) = (2 * (length vertices / 2))%nat /\
  forall tx' ty',
    Forall2 Qeq (shapes.translate tx' ty' (shapes.translate tx ty vertices))
                (shapes.translate (tx + tx') (ty + ty') vertices).
Proof.
  split; [apply translate_shifted|]. split.
  - rewrite translate_shifted. apply shifted_length.
  - intros tx' ty'. rewrite !translate_shifted. apply shifted_shifted.
Qed.

Example translate_line :
  shapes.translate 10 20 (shapes.Line 0 1 2 3) = [0 + 10; 1 + 20; 2 + 10; 3 + 20].
Proof. reflexivity. Qed.

Example translate_odd : shapes.translate 1 1 [0; 0; 5] = [0 + 1; 0 + 1].
Proof. reflexivity. Qed.

(** X26.  In exact arithmetic, translating a [Rect] gives the [Rect] of
    the same width and height around the translated centre. *)
Theorem translate_Rect w h x y tx ty :
  Forall2 Qeq (shapes.translate tx ty (shapes.Rect w h x y))
              (shapes.Rect w h (x + tx) (y + ty)).
Proof.
  rewrite translate_shifted. unfold shapes.Rect. cbn [shifted].
  repeat (constructor; [ring|]). constructor.
Qed.

End Vertices.

(** ** The squares and the colours of the display of a map *)

Section Display.

Import influence.

(** X27.  In exact arithmetic, the square that [InfluenceMapDisplay] draws
    for the cell in column [x], row [y] of a map is the sector of that cell,
    from [x * sector] to [(x + 1) * sector] and from [y * sector] to
    [(y + 1) * sector]; its centre is the point at which [InfluenceMap.update]
    samples the emitters for the cell. *)
Theorem display_square_is_the_sector m (x y : Z) :
  Forall2 Qeq (display.new_vertices m x y)
    [inject_Z x * sector m; (inject_Z y + 1) * sector m;
     (inject_Z x + 1) * sector m; (inject_Z y + 1) * sector m;
     (inject_Z x + 1) * sector m; inject_Z y * sector m;
     inject_Z x * sector m; inject_Z y * sector m] /\
  (inject_Z x * sector m + (inject_Z x + 1) * sector m) / 2 == centre m x /\
  (inject_Z y * sector m + (inject_Z y + 1) * sector m) / 2 == centre m y.
Proof.
  split; [|split].
  - unfold display.new_vertices, display.shape.
    rewrite translate_shifted. unfold shapes.Rect. cbn [shifted].
    repeat (constructor; [field|]). constructor.
  - unfold centre. field.
  - unfold centre. field.
Qed.

Lemma int_bounds c v :
  (0 <= c)%Z -> 0 <= v <= 1 -> (0 <= Py.int (inject_Z c * v) <= c)%Z.
Proof.
  intros Hc [Hv0 Hv1].
  assert (Hq : 0 <= inject_Z c).
  { change 0 with (inject_Z 0). rewrite <- Zle_Qle. exact Hc. }
  assert (H0 : 0 <= inject_Z c * v) by (apply Qmult_le_0_compat; assumption).
  assert (H1 : inject_Z c * v <= inject_Z c).
  { assert (H : 0 <= inject_Z c * (1 - v))
      by (apply Qmult_le_0_compat; [exact Hq|lra]).
    assert (E : inject_Z c * (1 - v) == inject_Z c - inject_Z c * v) by ring.
    rewrite E in H. lra. }
  unfold Py.int. rewrite (proj2 (Qle_bool_iff _ _) H0). split.
  - apply floor_ge_of_ge. exact H0.
  - destruct (floor_spec (inject_Z c * v)) as [Hf _].
    rewrite Zle_Qle. lra.
Qed.

(** X28.  For a map with a positive [maximum], the colour that the
    display gives a cell whose value lies between 0 and [maximum] is a
    dimmed version of the display's colour: every component lies between 0
    and the corresponding component of that colour.  With a [maximum] of
    zero the display raises [ZeroDivisionError]. *)
Theorem display_colour_is_dimmed m color (x y : Z) :
  well_formed m ->
  (0 <= y < map_height m)%Z -> (0 <= x < map_width m)%Z ->
  Forall (fun c => (0 <= c)%Z) color ->
  (maximum m == 0 -> display.new_color m color x y = inl ZeroDivisionError) /\
  (0 < maximum m ->
   0 <= cell m (Z.to_nat y) (Z.to_nat x) <= maximum m ->
   exists components,
     display.new_color m color x y = inr components /\
     Forall2 (fun c c' => (0 <= c' <= c)%Z) color components).
Proof.
  intros Hwf Hy Hx Hcol. unfold display.new_color.
  rewrite (get_grid_value_cell m y x Hwf Hy Hx). split.
  - intro H. apply Qeq_bool_iff in H. rewrite H. reflexivity.
  - intros Hmax [Hv0 Hv1].
    destruct (Qeq_bool (maximum m) 0) eqn:E.
    { apply Qeq_bool_iff in E. rewrite E in Hmax. exfalso. exact (Qlt_irrefl _ Hmax). }
    eexists. split; [reflexivity|].
    assert (Hv : 0 <= cell m (Z.to_nat y) (Z.to_nat x) / maximum m <= 1).
    { split.
      - apply Qle_shift_div_l; [exact Hmax|]. lra.
      - apply Qle_shift_div_r; [exact Hmax|]. lra. }
    clear -Hcol Hv. induction Hcol as [|c color Hc Hcol IH]; simpl; constructor.
    + apply int_bounds; assumption.
    + exact IH.
Qed.

End Display.

Section DisplaySamples.

Import influence.

(** The sample map after its update holds 1/2 in row 1, column 0. *)
Definition lit_map : InfluenceMap :=
  self (final (update sample_sqrt (mkState sample_map []))).

Lemma display_colour_is_dimmed_witness :
  exists components,
    display.new_color lit_map [255; 0; 0]%Z 0 1 = inr components /\
    Forall2 (fun c c' => (0 <= c' <= c)%Z) [255; 0; 0]%Z components.
Proof.
  apply (proj2 (display_colour_is_dimmed lit_map [255; 0; 0]%Z 0 1
                  ltac:(split; [reflexivity|repeat constructor])
                  ltac:(vm_compute; split; [discriminate|reflexivity])
                  ltac:(vm_compute; split; [discriminate|reflexivity])
                  ltac:(repeat constructor; discriminate))).
  - reflexivity.
  - vm_compute. split; discriminate.
Defined.

Example lit_map_colour :
  display.new_color lit_map [255; 0; 0]%Z 0 1 = inr [127; 0; 0]%Z.
Proof. vm_compute. reflexivity. Qed.

End DisplaySamples.

(** ** The lines of the grid *)

Section GridLines.

(** The points of a flat list of coordinates, as [Shape.translate] pairs
    them. *)
Definition points {A} (vertices : list A) : list (A * A) :=
  combine (shapes.every_other vertices) (shapes.every_other (tl vertices)).

Lemma points_lines {A} (a b c d : Z -> A) (l : list Z) (rest : list A) :
  points (flat_map (fun i => [a i; b i; c i; d i]) l ++ rest)
  = flat_map (fun i => [(a i, b i); (c i, d i)]) l ++ points rest.
Proof.
  unfold points. induction l as [|i l IH]; [reflexivity|].
  cbn [flat_map app shapes.every_other tl combine]. f_equal. f_equal.
  rewrite <- IH. f_equal.
  destruct (flat_map (fun i0 => [a i0; b i0; c i0; d i0]) l ++ rest); reflexivity.
Qed.

Lemma lines_length {A} (f : Z -> list A) (n : nat) (l : list Z) :
  (forall i, length (f i) = n) -> length (flat_map f l) = (n * length l)%nat.
Proof.
  intro H. induction l as [|i l IH]; simpl; [lia|].
  rewrite length_app, H, IH. lia.
Qed.

(** X29.  For a positive cell size and a width and a height that are not
    negative, [Grid] draws [width // cell + 1] vertical and
    [height // cell + 1] horizontal lines, each from one side of the
    rectangle [[0, width] x [0, height]] to the other at a multiple of the
    cell size, and no end point of a line lies outside that rectangle.  A
    cell size of zero raises [ZeroDivisionError]. *)
Theorem Grid_lines_within width height cell :
  (shapes.Grid width height 0 = None) /\
  ((0 < cell)%Z -> (0 <= width)%Z -> (0 <= height)%Z ->
   exists vertices,
     shapes.Grid width height cell = Some vertices /\
     points vertices
     = flat_map (fun i => [((i * cell)%Z, 0%Z); ((i * cell)%Z, height)])
                (Py.range (width / cell + 1))
       ++ flat_map (fun i => [(0%Z, (i * cell)%Z); (width, (i * cell)%Z)])
                   (Py.range (height / cell + 1)) /\
     Forall (fun p => (0 <= fst p <= width)%Z /\ (0 <= snd p <= height)%Z)
            (points vertices)).
Proof.
  split; [reflexivity|]. intros Hc Hw Hh. unfold shapes.Grid.
  destruct (Z.eqb_spec cell 0) as [E|_]; [lia|].
  eexists. split; [reflexivity|].
  assert (Hp : points
                 (flat_map (fun i => [i * cell; 0; i * cell; height]%Z)
                           (Py.range (width / cell + 1))
                  ++ flat_map (fun i => [0; i * cell; width; i * cell]%Z)
                              (Py.range (height / cell + 1)))
               = flat_map (fun i => [((i * cell)%Z, 0%Z); ((i * cell)%Z, height)])
                          (Py.range (width / cell + 1))
                 ++ flat_map (fun i => [(0%Z, (i * cell)%Z); (width, (i * cell)%Z)])
                             (Py.range (height / cell + 1))).
  { rewrite (points_lines (fun i => (i * cell)%Z) (fun _ => 0%Z)
                          (fun i => (i * cell)%Z) (fun _ => height)).
    f_equal.
    rewrite <- (app_nil_r (flat_map (fun i => [0; i * cell; width; i * cell]%Z) _)).
    rewrite (points_lines (fun _ => 0%Z) (fun i => (i * cell)%Z)
                          (fun _ => width) (fun i => (i * cell)%Z)).
    apply app_nil_r. }
  split; [exact Hp|]. rewrite Hp.
  assert (Hdiv : forall n i, (0 <= n)%Z -> (0 <= i < n / cell + 1)%Z ->
                             (0 <= i * cell <= n)%Z).
  { intros n i Hn Hi. pose proof (Z.mul_div_le n cell Hc). nia. }
  apply Forall_app. split; apply Forall_forall; intros p Hin;
    apply in_flat_map in Hin as (i & Hi & Hin); apply range_In in Hi;
    destruct Hin as [<-|[<-|[]]]; simpl;
    pose proof (Hdiv width i Hw); pose proof (Hdiv height i Hh); lia.
Qed.

Lemma Grid_lines_within_witness :
  exists vertices,
    shapes.Grid 60 40 20 = Some vertices /\
    points vertices
    = flat_map (fun i => [((i * 20)%Z, 0%Z); ((i * 20)%Z, 40%Z)])
               (Py.range (60 / 20 + 1))
      ++ flat_map (fun i => [(0%Z, (i * 20)%Z); (60%Z, (i * 20)%Z)])
                  (Py.range (40 / 20 + 1)) /\
    Forall (fun p => (0 <= fst p <= 60)%Z /\ (0 <= snd p <= 40)%Z)
           (points vertices).
Proof.
  apply (proj2 (Grid_lines_within 60 40 20)); lia.
Defined.

Example Grid_of_a_small_world :
  option_map points (shapes.Grid 60 40 20)
  = Some [(0, 0); (0, 40); (20, 0); (20, 40); (40, 0); (40, 40); (60, 0); (60, 40);
          (0, 0); (60, 0); (0, 20); (60, 20); (0, 40); (60, 40)]%Z.
Proof. reflexivity. Qed.

End GridLines.

(** ** Reading a map that has been updated *)

Section UpdatedMap.

Import influence.

Variable math_sqrt : Q -> Q.

(** X30.  On a map that its sectors cover, after [update] the value that
    [get_value] returns at a point strictly inside the map is the sum, over
    the emitters, of their values at the centre of the sector that contains
    the point, capped at the map's [maximum]: the value is sampled once per
    sector, not at the point itself. *)
Theorem get_value_after_update s px py :
  well_formed (self s) -> 0 < sector (self s) ->
  width (self s) <= inject_Z (map_width (self s)) * sector (self s) ->
  height (self s) <= inject_Z (map_height (self s)) * sector (self s) ->
  (forall i, In i (_ilist (self s)) -> forall qx qy,
        Influence_get_value math_sqrt i qx qy <> None) ->
  0 < px < width (self s) -> 0 < py < height (self s) ->
  exists s' ix iy v,
    update math_sqrt s = Return s' /\
    inject_Z ix * sector (self s) <= px < (inject_Z ix + 1) * sector (self s) /\
    inject_Z iy * sector (self s) <= py < (inject_Z iy + 1) * sector (self s) /\
    get_value (self s') px py = inr v /\
    v == Qmin (total_influence math_sqrt (_ilist (self s))
                 (centre (self s) ix) (centre (self s) iy))
              (maximum (self s)).
Proof.
  intros Hwf Hsec Hw Hh Hdef Hx Hy.
  destruct (update_rows_total math_sqrt (self s) Hdef s)
    as (s1 & E & [Hset Hwf1] & Hwritten).
  { split; [apply same_setup_refl|exact Hwf]. }
  destruct Hset as (Ew & Eh & Emw & Emh & Es & Emax & Eil).
  set (m' := with_dirty (Some true) (self s1)).
  assert (Hwf' : well_formed m') by (destruct Hwf1 as [H1 H2]; split; assumption).
  assert (Hx' : 0 < px < width m') by (simpl; rewrite Ew; exact Hx).
  assert (Hy' : 0 < py < height m') by (simpl; rewrite Eh; exact Hy).
  destruct (sector_of_point m' px py)
    as (ix & iy & Ex & Ey & Hix & Hiy & Bx & By).
  - simpl. rewrite Es. exact Hsec.
  - simpl. rewrite Ew, Emw, Es. exact Hw.
  - simpl. rewrite Eh, Emh, Es. exact Hh.
  - exact Hx'.
  - exact Hy'.
  - pose proof (get_value_inside m' px py ix iy Hwf' Hx' Hy' Ex Ey Hix Hiy) as G.
    simpl in Hix, Hiy, Bx, By. rewrite Emw in Hix. rewrite Emh in Hiy.
    rewrite Es in Bx, By.
    exists (mkState m' (stdout s1)), ix, iy,
           (written math_sqrt (self s) iy ix).
    split.
    { unfold update. erewrite andThen_Return; [reflexivity|exact E]. }
    split; [exact Bx|]. split; [exact By|]. split.
    + simpl. rewrite G. f_equal. unfold cell. simpl.
      apply (Hwritten iy Hiy ix Hix).
    + apply written_spec. exact Hdef.
Qed.

End UpdatedMap.

Section UpdatedMapSamples.

Import influence.

Lemma get_value_after_update_witness :
  exists s' ix iy v,
    update sample_sqrt (mkState sample_map []) = Return s' /\
    inject_Z ix * 2 <= 1 # 3 < (inject_Z ix + 1) * 2 /\
    inject_Z iy * 2 <= 7 # 2 < (inject_Z iy + 1) * 2 /\
    get_value (self s') (1 # 3) (7 # 2) = inr v /\
    v == Qmin (total_influence sample_sqrt [Circular corner_emitter]
                 (centre sample_map ix) (centre sample_map iy)) 1.
Proof.
  apply (get_value_after_update sample_sqrt (mkState sample_map []) (1 # 3) (7 # 2)).
  - split; [reflexivity|]. repeat constructor.
  - reflexivity.
  - vm_compute. discriminate.
  - vm_compute. discriminate.
  - intros i [<-|[]] qx qy. discriminate.
  - split; reflexivity.
  - split; reflexivity.
Defined.

Example get_value_of_the_lit_map :
  get_value lit_map (1 # 3) (7 # 2) = inr (1 # 2) /\
  get_value lit_map (19 # 10) (21 # 10) = inr (1 # 2).
Proof. vm_compute. split; reflexivity. Qed.

End UpdatedMapSamples.

(** ** Where floats depart from exact arithmetic

    The results above about sums and products are results about exact
    arithmetic.  On floats each operation rounds, and the equations that
    rest on the laws of arithmetic hold up to the rounding only.  The
    constants below are floats exactly; [1 / 10] is the float that Python
    reads for [0.1]. *)

Section FloatDepartures.

Import PrimFloat.
Local Open Scope float_scope.

(** An object just left of the middle between columns 0 and 1, at
    [x = 0.49999999999999994], is kept on column 0; with cells of size 20
    it is drawn at [20.0], the first point of column 1. *)
Example drawn_point_rounds_up :
  ltb 0x1.fffffffffffffp-2 0x1p-1 = true /\
  binary64.drawn_at 20 0x1.fffffffffffffp-2 = 20.
Proof. split; reflexivity. Qed.

(** An emitter of strength [1e17] that is to lose 1 at every call loses
    nothing: [update] returns [True] and the strength is what it was. *)
Example large_emitter_never_fades :
  binary64.CircularInfluence_update 1 1e17 1 (1 / 1000) = (1e17, true).
Proof. reflexivity. Qed.

(** Two translations by 1 leave [1e16] where it is; one translation by 2
    moves it. *)
Example translate_twice_on_floats :
  binary64.translate 1 0 (binary64.translate 1 0 [1e16; 0]) = [1e16; 0] /\
  binary64.translate (1 + 1) (0 + 0) [1e16; 0] = [10000000000000002; 0].
Proof. split; reflexivity. Qed.

(** The left edge of a [Rect] of width 2 around [x = 2^53], translated by
    1, and the left edge of the [Rect] around the translated centre. *)
Example translate_Rect_on_floats :
  nth 0 (binary64.translate 1 0 (binary64.Rect 2 2 0x1p53 0)) 0
  = 0x1p53 /\
  nth 0 (binary64.Rect 2 2 (0x1p53 + 1) (0 + 0)) 0
  = 0x1.fffffffffffffp52.
Proof. split; reflexivity. Qed.

(** With sectors of size [0.1] the right edge of the square of column 5 is
    [0.6], and [(5 + 1) * 0.1] is the next float above it. *)
Example display_square_on_floats :
  nth 2 (binary64.new_vertices (1 / 10) 5 5) 0 = 6 / 10 /\
  ltb (6 / 10) ((5 + 1) * (1 / 10)) = true.
Proof. split; reflexivity. Qed.

(** The square of [2^1000] is beyond the largest float; where the float
    product yields infinity, Python's [**] raises [OverflowError]. *)
Example square_overflows :
  0x1p1000 * 0x1p1000 = infinity.
Proof. reflexivity. Qed.

End FloatDepartures.
